(** * Connections clone: the round engine, the page that drives it and the
      puzzle provider, embedded from the TypeScript sources.

    - [Js]        the handful of JavaScript built-ins the code relies on
    - [GameLogic] src/app/_hooks/use-game-logic.ts
    - [Page]      src/app/page.tsx
    - [Route]     src/app/api/puzzle/route.ts (both revisions kept in the file)
    - [Props]     the notions the properties are stated with
    - [Examples]  a concrete puzzle, session and sheet
    - [Session]   src/app/page.tsx and the hook, one await at a time
    - [Replay]    a concrete session with events during a reveal

    JavaScript objects are compared by identity ([Array.prototype.includes]
    on arrays of objects), and the hook re-creates tile objects with spread
    syntax.  An object is therefore modelled as its contents paired with the
    address it was allocated at; every object literal evaluated by the code
    takes a fresh address from an allocation counter kept in the state.
    Objects are never mutated in place, so no separate store is needed. *)

From Stdlib Require Import String Ascii ZArith Bool Lia.
From Stdlib Require Import List Permutation Sorted.
Import ListNotations.

Set Implicit Arguments.

(* ------------------------------------------------------------------------- *)
(** ** JavaScript built-ins *)

Module Js.

(** A heap object: the address gives its identity, [val] its fields. *)
Record object (A : Type) : Type := Obj { ref : nat; val : A }.
Arguments Obj {A}.
Arguments ref {A}.
Arguments val {A}.

(** [===] / SameValueZero on two objects: same address. *)
Definition sameObject {A} (x y : object A) : bool := Nat.eqb (ref x) (ref y).

(** [l.includes(x)] on an array of objects. *)
Definition includes {A} (l : list (object A)) (x : object A) : bool :=
  existsb (sameObject x) l.

(** [l.includes(s)] on an array of strings. *)
Definition includesStr (l : list string) (s : string) : bool :=
  existsb (String.eqb s) l.

(** Truthiness of an optional boolean field ([undefined] is falsy). *)
Definition truthy (b : option bool) : bool :=
  match b with Some true => true | _ => false end.

(** The numbers that [Math.max] can return on an array of lengths. *)
Inductive number : Type := NegInfinity | Num (z : Z).

Definition number_eqb (a b : number) : bool :=
  match a, b with
  | NegInfinity, NegInfinity => true
  | Num x, Num y => Z.eqb x y
  | _, _ => false
  end.

(** [Math.max(...l)]: [-Infinity] on the empty array. *)
Definition Math_max (l : list Z) : number :=
  match l with
  | [] => NegInfinity
  | x :: r => Num (fold_left Z.max r x)
  end.

Fixpoint indexOfFrom (l : list Z) (x : number) (i : Z) : Z :=
  match l with
  | [] => (-1)%Z
  | y :: r => if number_eqb (Num y) x then i else indexOfFrom r x (i + 1)%Z
  end.

(** [l.indexOf(x)]: first position holding [x], [-1] when there is none. *)
Definition indexOf (l : list Z) (x : number) : Z := indexOfFrom l x 0%Z.

(** [l[i]]: [undefined] (here [None]) outside the array. *)
Definition at_ {A} (l : list A) (i : Z) : option A :=
  if (i <? 0)%Z then None else nth_error l (Z.to_nat i).

(** [l.map(f)] when the callback either returns the item it was given
    ([f item = None]) or evaluates an object literal with the contents
    [v] ([f item = Some v]), which allocates.  Returns the new array and
    the next free address. *)
Fixpoint mapAlloc {A} (f : object A -> option A) (next : nat)
         (l : list (object A)) : list (object A) * nat :=
  match l with
  | [] => ([], next)
  | item :: rest =>
      match f item with
      | Some v =>
          let (rest', next') := mapAlloc f (S next) rest in
          (Obj next v :: rest', next')
      | None =>
          let (rest', next') := mapAlloc f next rest in
          (item :: rest', next')
      end
  end.

(** Allocation of one object per element, in array order. *)
Fixpoint allocAll {A} (next : nat) (l : list A) : list (object A) * nat :=
  match l with
  | [] => ([], next)
  | v :: rest =>
      let (rest', next') := allocAll (S next) rest in
      (Obj next v :: rest', next')
  end.

End Js.

(* ------------------------------------------------------------------------- *)
(** ** The types of src/app/_types (used by all three sources) *)

Record Category : Type := mkCategory {
  category : string;
  level : Z;
  items : list string
}.

(** [selected] is an optional field: tiles are created without it. *)
Record Word : Type := mkWord {
  word : string;
  wlevel : Z;
  selected : option bool
}.

Inductive ResultTag : Type :=
  correct | incorrect | same | loss | one_away | win.

Record SubmitResult : Type := mkResult { result : ResultTag }.

(* ------------------------------------------------------------------------- *)
(** ** src/app/_hooks/use-game-logic.ts *)

Module GameLogic.
Import Js.

(** The values the hook holds between renders.  [guessHistoryRef] is the
    [current] field of the ref; [heapNext] is the allocation counter. *)
Record State : Type := mkState {
  gameWords : list (object Word);
  clearedCategories : list (object Category);
  isWon : bool;
  isLost : bool;
  mistakesRemaining : Z;
  guessHistoryRef : list (list (object Word));
  heapNext : nat
}.

(** The [useState] / [useRef] initial values. *)
Definition initialState : State :=
  mkState [] [] false false 4 [] 0.

Definition setGameWords (ws : list (object Word)) (s : State) : State :=
  mkState ws (clearedCategories s) (isWon s) (isLost s)
          (mistakesRemaining s) (guessHistoryRef s) (heapNext s).

Definition setClearedCategories (cs : list (object Category)) (s : State)
  : State :=
  mkState (gameWords s) cs (isWon s) (isLost s)
          (mistakesRemaining s) (guessHistoryRef s) (heapNext s).

Definition setIsWon (b : bool) (s : State) : State :=
  mkState (gameWords s) (clearedCategories s) b (isLost s)
          (mistakesRemaining s) (guessHistoryRef s) (heapNext s).

Definition setIsLost (b : bool) (s : State) : State :=
  mkState (gameWords s) (clearedCategories s) (isWon s) b
          (mistakesRemaining s) (guessHistoryRef s) (heapNext s).

Definition setMistakesRemaning (m : Z) (s : State) : State :=
  mkState (gameWords s) (clearedCategories s) (isWon s) (isLost s)
          m (guessHistoryRef s) (heapNext s).

Definition setGuessHistory (h : list (list (object Word))) (s : State)
  : State :=
  mkState (gameWords s) (clearedCategories s) (isWon s) (isLost s)
          (mistakesRemaining s) h (heapNext s).

Definition setHeapNext (n : nat) (s : State) : State :=
  mkState (gameWords s) (clearedCategories s) (isWon s) (isLost s)
          (mistakesRemaining s) (guessHistoryRef s) n.

(** [useMemo(() => gameWords.filter((item) => item.selected))] *)
Definition selectedOf (ws : list (object Word)) : list (object Word) :=
  filter (fun item => truthy (selected (val item))) ws.

Definition selectedWords (s : State) : list (object Word) :=
  selectedOf (gameWords s).

(** The tiles built by the puzzle effect, before shuffling:
    [puzzleCategories.map(c => c.items.map(word => ({word, level}))).flat()] *)
Definition puzzleWords (cats : list (object Category)) : list Word :=
  flat_map (fun c => map (fun w => mkWord w (level (val c)) None)
                         (items (val c))) cats.

(** The effect run when [puzzleCategories] changes.  [shuffleArray] is the
    behaviour of the call made by this run of the effect. *)
Definition puzzleEffect
           (shuffleArray : list (object Word) -> list (object Word))
           (puzzleCategories : option (list (object Category)))
           (s : State) : State :=
  match puzzleCategories with
  | None => s
  | Some [] => s
  | Some cats =>
      let (words, next) := allocAll (heapNext s) (puzzleWords cats) in
      mkState (shuffleArray words) [] false false 4 [] next
  end.

Definition selectWord (w : Word) (s : State) : State :=
  let n := length (selectedWords s) in
  let (newGameWords, next) :=
    mapAlloc (fun item =>
                if String.eqb (word w) (word (val item)) then
                  Some (mkWord (word (val item)) (wlevel (val item))
                          (Some (if Nat.ltb n 4
                                 then negb (truthy (selected (val item)))
                                 else false)))
                else None)
             (heapNext s) (gameWords s) in
  setHeapNext next (setGameWords newGameWords s).

Definition shuffleWords
           (shuffleArray : list (object Word) -> list (object Word))
           (s : State) : State :=
  setGameWords (shuffleArray (gameWords s)) s.

(** [gameWords.map((item) => ({ ...item, selected: false }))] *)
Definition deselectAll (next : nat) (ws : list (object Word))
  : list (object Word) * nat :=
  mapAlloc (fun item =>
              Some (mkWord (word (val item)) (wlevel (val item)) (Some false)))
           next ws.

Definition deselectAllWords (s : State) : State :=
  let (ws, next) := deselectAll (heapNext s) (gameWords s) in
  setHeapNext next (setGameWords ws s).

Definition getCorrectResult (c : object Category) (s : State)
  : SubmitResult * State :=
  let s' :=
    setGameWords
      (filter (fun item => negb (includesStr (items (val c)) (word (val item))))
              (gameWords s))
      (setClearedCategories (clearedCategories s ++ [c]) s) in
  if Nat.eqb (length (clearedCategories s)) 3
  then (mkResult win, s')
  else (mkResult correct, s').

Definition getIncorrectResult (maxLikeness : number) (s : State)
  : SubmitResult * State :=
  let s' := setMistakesRemaning (mistakesRemaining s - 1) s in
  if Z.eqb (mistakesRemaining s) 1 then (mkResult loss, s')
  else if number_eqb maxLikeness (Num 3) then (mkResult one_away, s')
  else (mkResult incorrect, s').

(** [guessHistoryRef.current.some(guess =>
       guess.every(word => selectedWords.includes(word)))] *)
Definition sameGuess (s : State) : bool :=
  existsb (fun guess => forallb (fun w => includes (selectedWords s) w) guess)
          (guessHistoryRef s).

Definition likenessCounts (cats : list (object Category)) (s : State)
  : list Z :=
  map (fun c =>
         Z.of_nat (length (filter (fun item =>
                                     includesStr (items (val c))
                                                 (word (val item)))
                                  (selectedWords s))))
      cats.

Definition maxLikeness (cats : list (object Category)) (s : State) : number :=
  Math_max (likenessCounts cats s).

(** [None] stands for the TypeError raised when [getCorrectResult] reads
    [items] of [undefined]. *)
Definition getSubmitResult (puzzleCategories : option (list (object Category)))
           (s : State) : option (SubmitResult * State) :=
  match puzzleCategories with
  | None => Some (mkResult incorrect, s)
  | Some cats =>
      if sameGuess s then Some (mkResult same, s)
      else
        let s1 := setGuessHistory (guessHistoryRef s ++ [selectedWords s]) s in
        let counts := likenessCounts cats s in
        let maxL := Math_max counts in
        let maxIndex := indexOf counts maxL in
        if number_eqb maxL (Num 4) then
          match at_ cats maxIndex with
          | Some c => Some (getCorrectResult c s1)
          | None => None
          end
        else Some (getIncorrectResult maxL s1)
  end.

(** One iteration of the reveal loop: the two functional updates that
    follow [await delay(1000)]. *)
Definition revealCategory (c : object Category) (prev : State) : State :=
  setGameWords
    (filter (fun item => negb (includesStr (items (val c)) (word (val item))))
            (gameWords prev))
    (setClearedCategories (clearedCategories prev ++ [c]) prev).

(** The states committed by the loop, one per revealed category. *)
Fixpoint revealAll (remaining : list (object Category)) (s : State)
  : list State :=
  match remaining with
  | [] => []
  | c :: rest => let s' := revealCategory c s in s' :: revealAll rest s'
  end.

Definition remainingCategories (cats : list (object Category))
           (cleared : list (object Category)) : list (object Category) :=
  filter (fun c => negb (includes cleared c)) cats.

(** [handleLoss] is a closure of the render [cl] it was created in: it reads
    [clearedCategories] and [gameWords] from [cl], while its updates land on
    the current state [s].  The result is the sequence of states committed:
    after [deselectAllWords()], after each reveal, after [setIsLost(true)]. *)
Definition handleLoss (puzzleCategories : option (list (object Category)))
           (cl s : State) : list State :=
  match puzzleCategories with
  | None => []
  | Some cats =>
      let remaining := remainingCategories cats (clearedCategories cl) in
      let (ws, next) := deselectAll (heapNext s) (gameWords cl) in
      let s1 := setHeapNext next (setGameWords ws s) in
      let reveals := revealAll remaining s1 in
      s1 :: reveals ++ [setIsLost true (last reveals s1)]
  end.

Definition handleWin (s : State) : State := setIsWon true s.

End GameLogic.

(* ------------------------------------------------------------------------- *)
(** ** src/app/page.tsx *)

Module Page.
Import Js GameLogic.

(** The state of [Home] that gates the engine, with the hook's state. *)
Record Page : Type := mkPage {
  puzzleCategories : option (list (object Category));
  loadingPuzzle : bool;
  puzzleError : option string;
  submitted : bool;
  game : State
}.

(** First render: no puzzle yet, [loadingPuzzle] starts as [true]. *)
Definition mount : Page := mkPage None true None false initialState.

Definition setGame (g : State) (p : Page) : Page :=
  mkPage (puzzleCategories p) (loadingPuzzle p) (puzzleError p)
         (submitted p) g.

(** [!!puzzleError]: [null] and the empty string are falsy. *)
Definition hasError (e : option string) : bool :=
  match e with
  | None => false
  | Some msg => negb (String.eqb msg EmptyString)
  end.

Definition controlsDisabled (p : Page) : bool :=
  loadingPuzzle p
  || hasError (puzzleError p)
  || match puzzleCategories p with
     | None => true
     | Some cats => negb (Nat.eqb (length cats) 4)
     end.

(** [loadPuzzle], up to the fetch. *)
Definition loadPuzzleStart (p : Page) : Page :=
  mkPage (puzzleCategories p) true None (submitted p) (game p).

(** [loadPuzzle] when the response is not ok or the fetch throws. *)
Definition loadPuzzleFailed (msg : string) (p : Page) : Page :=
  mkPage (puzzleCategories p) false (Some msg) (submitted p) (game p).

(** [loadPuzzle] on an ok response, followed by the hook's puzzle effect
    ([cats] is the freshly parsed array, so the effect always runs). *)
Definition loadPuzzleOk
           (shuffleArray : list (object Word) -> list (object Word))
           (cats : list (object Category)) (p : Page) : Page :=
  mkPage (Some cats) false (puzzleError p) (submitted p)
         (puzzleEffect shuffleArray (Some cats) (game p)).

Definition onClickCell (w : Word) (p : Page) : Page :=
  if controlsDisabled p then p else setGame (selectWord w (game p)) p.

(** [handleSubmit] when nothing else happens before it returns: the page
    once the awaited animation, the reveal and the closing delay are over
    and no click or load came in between.  The pages committed on the way,
    and what an event in between does, are in [Session].  [None]:
    [getSubmitResult] threw. *)
Definition handleSubmit (p : Page) : option Page :=
  if controlsDisabled p then Some p
  else
    match getSubmitResult (puzzleCategories p) (game p) with
    | None => None
    | Some (r, g') =>
        match result r with
        | loss =>
            Some (setGame (last (handleLoss (puzzleCategories p) (game p) g') g') p)
        | win => Some (setGame (handleWin g') p)
        | _ => Some (setGame g' p)
        end
    end.

(** [renderControlButtons]: the three buttons exist only while neither
    [isWon] nor [isLost] is set. *)
Definition inProgressButtons (p : Page) : bool :=
  negb (isWon (game p)) && negb (isLost (game p)).

(** The [unclickable] props of the three buttons. *)
Definition shuffleUnclickable (p : Page) : bool :=
  submitted p || controlsDisabled p.

Definition deselectUnclickable (p : Page) : bool :=
  Nat.eqb (length (selectedWords (game p))) 0
  || submitted p || controlsDisabled p.

Definition submitUnclickable (p : Page) : bool :=
  negb (Nat.eqb (length (selectedWords (game p))) 4)
  || submitted p || controlsDisabled p.

(** Modelled from the spec: the [ControlButton] component is not under
    src/; a button rendered with [unclickable] set does not run its
    [onClick] (the caller disables the operation). *)
Definition clickShuffle
           (shuffleArray : list (object Word) -> list (object Word))
           (p : Page) : Page :=
  if inProgressButtons p && negb (shuffleUnclickable p)
  then setGame (shuffleWords shuffleArray (game p)) p else p.

Definition clickDeselectAll (p : Page) : Page :=
  if inProgressButtons p && negb (deselectUnclickable p)
  then setGame (deselectAllWords (game p)) p else p.

Definition clickSubmit (p : Page) : option Page :=
  if inProgressButtons p && negb (submitUnclickable p)
  then handleSubmit p else Some p.

(** What the puzzle provider hands over (route.ts, second revision): four
    categories ordered by level 1..4, four items each, sixteen distinct
    words. *)
Definition providedPuzzle (cs : list Category) : Prop :=
  map level cs = [1; 2; 3; 4]%Z
  /\ Forall (fun c => length (items c) = 4) cs
  /\ NoDup (flat_map items cs).

(** The parsed response: one fresh object per category. *)
Definition loadedPuzzle (cats : list (object Category)) : Prop :=
  NoDup (map (@ref Category) cats) /\ providedPuzzle (map (@val Category) cats).

(** Modelled from the spec: [shuffleArray] of src/app/_utils is not under
    src/; it returns a pseudo-random permutation of its argument. *)
Definition shuffles (sh : list (object Word) -> list (object Word)) : Prop :=
  forall l, Permutation (sh l) l.

(** The pages a session is in between two events when every call of
    [handleSubmit] has returned before the next event comes in: every user
    event and every completion of [loadPuzzle], from the first render.  The
    pages rendered while a call is suspended, and the sessions in which an
    event arrives meanwhile, are those of [Session.live]. *)
Inductive reachable : Page -> Prop :=
| reach_mount : reachable mount
| reach_loadStart p : reachable p -> reachable (loadPuzzleStart p)
| reach_loadFailed p msg : reachable p -> reachable (loadPuzzleFailed msg p)
| reach_loadOk p sh cats :
    reachable p -> shuffles sh -> loadedPuzzle cats ->
    reachable (loadPuzzleOk sh cats p)
| reach_click p w : reachable p -> reachable (onClickCell w p)
| reach_shuffle p sh :
    reachable p -> shuffles sh -> reachable (clickShuffle sh p)
| reach_deselect p : reachable p -> reachable (clickDeselectAll p)
| reach_submit p p' :
    reachable p -> clickSubmit p = Some p' -> reachable p'.

End Page.

(* ------------------------------------------------------------------------- *)
(** ** src/app/api/puzzle/route.ts *)

Module Route.
Import Js.
Local Open Scope string_scope.

(** [\d] without the unicode flag: the ASCII digits. *)
Definition isDigit (c : ascii) : bool :=
  Nat.leb 48 (nat_of_ascii c) && Nat.leb (nat_of_ascii c) 57.

Definition isHyphen (c : ascii) : bool := Ascii.eqb c "-"%char.

(** [/^\d{4}-\d{2}-\d{2}$/.test(s)] *)
Definition isIsoDate (s : string) : bool :=
  match list_ascii_of_string s with
  | [y1; y2; y3; y4; h1; m1; m2; h2; d1; d2] =>
      isDigit y1 && isDigit y2 && isDigit y3 && isDigit y4 && isHyphen h1
      && isDigit m1 && isDigit m2 && isHyphen h2 && isDigit d1 && isDigit d2
  | _ => false
  end.

(** [a > b] on two strings: code-unit lexicographic order. *)
Definition gtStr (a b : string) : bool := String.ltb b a.

(** [String(x)] of a possibly missing value. *)
Definition toStringCell (c : option string) : string :=
  match c with Some s => s | None => "undefined" end.

(** [c ?? ""] *)
Definition orEmpty (c : option string) : string :=
  match c with Some s => s | None => "" end.

Fixpoint indexOfStrFrom (l : list string) (x : string) (i : Z) : Z :=
  match l with
  | [] => (-1)%Z
  | y :: r => if String.eqb y x then i else indexOfStrFrom r x (i + 1)%Z
  end.

Definition indexOfStr (l : list string) (x : string) : Z :=
  indexOfStrFrom l x 0%Z.

(** [Map<string, V>]: entries in insertion order; [set] on a present key
    replaces the value in place. *)
Fixpoint mapSet {V} (k : string) (v : V) (m : list (string * V))
  : list (string * V) :=
  match m with
  | [] => [(k, v)]
  | (k', v') :: r =>
      if String.eqb k k' then (k, v) :: r else (k', v') :: mapSet k v r
  end.

Fixpoint mapGet {V} (k : string) (m : list (string * V)) : option V :=
  match m with
  | [] => None
  | (k', v') :: r => if String.eqb k k' then Some v' else mapGet k r
  end.

Definition mapHas {V} (k : string) (m : list (string * V)) : bool :=
  match mapGet k m with Some _ => true | None => false end.

Definition mapKeys {V} (m : list (string * V)) : list string := map fst m.

(** [Array.prototype.sort] with a comparator: the stable sort. *)
Fixpoint insertBy {A} (cmp : A -> A -> Z) (x : A) (l : list A) : list A :=
  match l with
  | [] => [x]
  | y :: r => if (cmp x y <=? 0)%Z then x :: y :: r else y :: insertBy cmp x r
  end.

Definition sortBy {A} (cmp : A -> A -> Z) (l : list A) : list A :=
  fold_right (insertBy cmp) [] l.

(** The default comparator of [sort()] on strings. *)
Definition defaultCompare (a b : string) : Z :=
  match String.compare a b with Lt => (-1)%Z | Eq => 0%Z | Gt => 1%Z end.

(** [new Set(l).size] *)
Definition setSizeZ (l : list Z) : nat := length (nodup Z.eq_dec l).
Definition setSizeStr (l : list string) : nat := length (nodup string_dec l).

Record ErrorBody : Type := mkError {
  error : string;
  errorTodayNz : option string;
  errorAvailableDates : option (list string)
}.

Inductive Response (C : Type) : Type :=
| ErrorResponse (status : Z) (body : ErrorBody)
| PuzzleResponse (date todayNz : string) (availableDates : list string)
                 (categories : C).
Arguments ErrorResponse {C}.
Arguments PuzzleResponse {C}.

(** What reading the sheet gives: an exception (credentials, transport) with
    its message, or [res.data.values]. *)
Inductive Fetched : Type :=
| Threw (message : string)
| Values (values : option (list (list string))).

Section Builtins.
(** String built-ins left abstract. [toNumber s] is [Some z] when
    [Number(s)] is the integer [z], [None] otherwise. *)
Variables toLowerCase toUpperCase trim : string -> string.
Variable toNumber : string -> option Z.
Variable localeCompare : string -> string -> Z.

(** *** First revision (file lines 1-104) *)

(** A category as the first revision builds it: cells may be missing. *)
Record RowCategory : Type := mkRowCategory {
  rowCategory : option string;
  rowLevel : option Z;
  rowItems : list (option string)
}.

Definition rowCategoryOf (header row : list string) : RowCategory :=
  let idx := indexOfStr header in
  mkRowCategory
    (at_ row (idx "category"))
    (match at_ row (idx "level") with Some s => toNumber s | None => None end)
    [at_ row (idx "word1"); at_ row (idx "word2");
     at_ row (idx "word3"); at_ row (idx "word4")].

(** The loop over [rows.slice(1)]. *)
Fixpoint buildPuzzles1 (todayNz : string) (header : list string)
         (rows : list (list string))
         (puzzles : list (string * list RowCategory))
  : list (string * list RowCategory) :=
  match rows with
  | [] => puzzles
  | row :: rest =>
      let date := at_ row (indexOfStr header "date") in
      if negb (isIsoDate (toStringCell date))
         || match date with Some d => gtStr d todayNz | None => false end
      then buildPuzzles1 todayNz header rest puzzles
      else
        let d := toStringCell date in
        let existing :=
          match mapGet d puzzles with Some cs => cs | None => [] end in
        buildPuzzles1 todayNz header rest
          (mapSet d (existing ++ [rowCategoryOf header row])%list puzzles)
  end.

(** [url.searchParams.get("date") || todayNz] *)
Definition requestedDate1 (todayNz : string) (dateQuery : option string)
  : string :=
  match dateQuery with
  | None | Some "" => todayNz
  | Some d => d
  end.

(** A row of the sheet dated after today, as the loop reads it. *)
Definition futureRow1 (todayNz : string) (header row : list string) : bool :=
  match at_ row (indexOfStr header "date") with
  | Some d => isIsoDate d && gtStr d todayNz
  | None => false
  end.

Definition GET1 (spreadsheetId : option string) (todayNz : string)
           (dateQuery : option string) (fetched : Fetched)
  : Response (option (list RowCategory)) :=
  match spreadsheetId with
  | None | Some "" => ErrorResponse 500 (mkError "Missing sheet ID" None None)
  | Some _ =>
      let requestedDate := requestedDate1 todayNz dateQuery in
      if negb (isIsoDate requestedDate) || gtStr requestedDate todayNz
      then ErrorResponse 403 (mkError "Invalid or future date" None None)
      else
        match fetched with
        | Threw message => ErrorResponse 500 (mkError message None None)
        | Values values =>
            match (match values with Some v => v | None => [] end) with
            | [] =>
                ErrorResponse 500
                  (mkError "Cannot read properties of undefined (reading 'map')"
                           None None)
            | row0 :: rest =>
                let header := map toLowerCase row0 in
                let puzzles := buildPuzzles1 todayNz header rest [] in
                PuzzleResponse requestedDate todayNz
                  (rev (sortBy defaultCompare (mapKeys puzzles)))
                  (mapGet requestedDate puzzles)
            end
        end
  end.

(** *** Second revision (file lines 105-354) *)

Definition normalizeWord (w : option string) : string :=
  toUpperCase (trim (orEmpty w)).

(** [[1, 2, 3, 4].includes(levelNum)] *)
Definition isLevel (n : option Z) : bool :=
  match n with
  | Some z => existsb (Z.eqb z) [1; 2; 3; 4]%Z
  | None => false
  end.

Definition nonEmpty (s : string) : bool := negb (String.eqb s "").

(** The loop over [values.slice(1)], with the column indices found. *)
Fixpoint buildPuzzles2 (todayNz : string)
         (iDate iLevel iCategory iW1 iW2 iW3 iW4 : Z)
         (rows : list (list string))
         (puzzlesByDate : list (string * list Category))
  : list (string * list Category) :=
  match rows with
  | [] => puzzlesByDate
  | row :: rest =>
      let continue :=
        buildPuzzles2 todayNz iDate iLevel iCategory iW1 iW2 iW3 iW4 rest in
      let date := trim (orEmpty (at_ row iDate)) in
      if negb (isIsoDate date) then continue puzzlesByDate
      else if gtStr date todayNz then continue puzzlesByDate
      else
        let levelNum := toNumber (trim (orEmpty (at_ row iLevel))) in
        if negb (isLevel levelNum) then continue puzzlesByDate
        else
          let categoryName := trim (orEmpty (at_ row iCategory)) in
          if negb (nonEmpty categoryName) then continue puzzlesByDate
          else
            let items :=
              filter nonEmpty
                [normalizeWord (at_ row iW1); normalizeWord (at_ row iW2);
                 normalizeWord (at_ row iW3); normalizeWord (at_ row iW4)] in
            if negb (Nat.eqb (length items) 4) then continue puzzlesByDate
            else
              let cat :=
                mkCategory categoryName
                           (match levelNum with Some z => z | None => 0%Z end)
                           items in
              let existing :=
                match mapGet date puzzlesByDate with
                | Some cs => cs
                | None => []
                end in
              continue (mapSet date (existing ++ [cat])%list puzzlesByDate)
  end.

(** A row of the sheet dated after today, as the loop reads it. *)
Definition futureRow2 (todayNz : string) (iDate : Z) (row : list string)
  : bool :=
  isIsoDate (trim (orEmpty (at_ row iDate)))
  && gtStr (trim (orEmpty (at_ row iDate))) todayNz.

(** [url.searchParams.get("date")?.trim() || null] *)
Definition dateParamOf (dateQuery : option string) : option string :=
  match dateQuery with
  | None => None
  | Some q => if nonEmpty (trim q) then Some (trim q) else None
  end.

Definition requestedDateOf (todayNz : string) (dateQuery : option string)
  : string :=
  match dateParamOf dateQuery with Some d => d | None => todayNz end.

Definition missingColumns (header : list string) : list string :=
  filter (fun n => (indexOfStr header n <? 0)%Z)
         ["date"; "level"; "category"; "word1"; "word2"; "word3"; "word4"].

Definition GET2 (spreadsheetId : option string) (todayNz : string)
           (dateQuery : option string) (fetched : Fetched)
  : Response (list Category) :=
  match spreadsheetId with
  | None | Some "" =>
      ErrorResponse 500 (mkError "Missing GOOGLE_SHEETS_ID" None None)
  | Some _ =>
      let dateParam := dateParamOf dateQuery in
      let requestedDate := requestedDateOf todayNz dateQuery in
      if negb (isIsoDate requestedDate) then
        ErrorResponse 400
          (mkError "Invalid date format. Use YYYY-MM-DD." None None)
      else if gtStr requestedDate todayNz then
        ErrorResponse 403
          (mkError "That puzzle date is not available yet." None None)
      else
        match fetched with
        | Threw message => ErrorResponse 500 (mkError message None None)
        | Values values =>
            let values := match values with Some v => v | None => [] end in
            match values with
            | [] | [_] =>
                ErrorResponse 500
                  (mkError "Sheet appears empty (need header + rows)."
                           None None)
            | row0 :: rows =>
                let header := map (fun h => toLowerCase (trim h)) row0 in
                let idx := indexOfStr header in
                match missingColumns header with
                | (_ :: _) as missingCols =>
                    ErrorResponse 500
                      (mkError
                         ("Missing required columns in header row: "
                            ++ String.concat ", " missingCols)
                         None None)
                | [] =>
                    let puzzlesByDate :=
                      buildPuzzles2 todayNz (idx "date") (idx "level")
                        (idx "category") (idx "word1") (idx "word2")
                        (idx "word3") (idx "word4") rows [] in
                    let availableDates :=
                      sortBy (fun a b => localeCompare b a)
                             (mapKeys puzzlesByDate) in
                    let dateToUse :=
                      match dateParam, mapHas requestedDate puzzlesByDate,
                            availableDates with
                      | None, false, latest :: _ => latest
                      | _, _, _ => requestedDate
                      end in
                    let categories :=
                      sortBy (fun a b => (level a - level b)%Z)
                        (match mapGet dateToUse puzzlesByDate with
                         | Some cs => cs
                         | None => []
                         end) in
                    if negb (Nat.eqb (length categories) 4) then
                      ErrorResponse 404
                        (mkError
                           ("Puzzle for " ++ dateToUse
                              ++ " is missing or incomplete (need 4 rows: levels 1–4).")
                           (Some todayNz) (Some availableDates))
                    else if negb (Nat.eqb (setSizeZ (map level categories)) 4)
                    then
                      ErrorResponse 500
                        (mkError
                           ("Puzzle for " ++ dateToUse
                              ++ " must contain exactly one row per level (1–4).")
                           (Some todayNz) (Some availableDates))
                    else if negb (Nat.eqb
                                    (setSizeStr (flat_map items categories))
                                    16)
                    then
                      ErrorResponse 500
                        (mkError
                           ("Puzzle for " ++ dateToUse
                              ++ " must contain 16 unique words (no duplicates).")
                           (Some todayNz) (Some availableDates))
                    else
                      PuzzleResponse dateToUse todayNz availableDates
                                     categories
                end
            end
        end
  end.

End Builtins.

(** What the loop of the second revision lets into the map. *)
Definition wellFormedRow (c : Category) : Prop :=
  (1 <= level c <= 4)%Z /\ length (items c) = 4.

(** A date the provider may serve: well formed and not after today. *)
Definition servable (todayNz d : string) : Prop :=
  isIsoDate d = true /\ gtStr d todayNz = false.

(** A date read off an ISO string: year, month, day as numbers. *)
Definition digitVal (c : ascii) : Z := Z.of_nat (nat_of_ascii c - 48).

Definition calendarOf (s : string) : Z * Z * Z :=
  match list_ascii_of_string s with
  | [y1; y2; y3; y4; _; m1; m2; _; d1; d2] =>
      (1000 * digitVal y1 + 100 * digitVal y2 + 10 * digitVal y3 + digitVal y4,
       10 * digitVal m1 + digitVal m2,
       10 * digitVal d1 + digitVal d2)%Z
  | _ => (0, 0, 0)%Z
  end.

(** Calendar order: [a] is a later day than [b]. *)
Definition laterDay (a b : Z * Z * Z) : Prop :=
  let '(ya, ma, da) := a in
  let '(yb, mb, db) := b in
  (yb < ya \/ (yb = ya /\ (mb < ma \/ (mb = ma /\ db < da))))%Z.

End Route.

(* ------------------------------------------------------------------------- *)
(** ** Notions used to state the properties *)

Module Props.
Import Js GameLogic Page.

Definition wordOf (item : object Word) : string := word (val item).

(** The texts on a board, in board order. *)
Definition texts (ws : list (object Word)) : list string := map wordOf ws.

(** What a tile shows: its text, its level and whether it is selected. *)
Definition view (item : object Word) : string * Z * bool :=
  (word (val item), wlevel (val item), truthy (selected (val item))).


(** A guess matches a category: every selected tile carries one of its
    items. *)
Definition matches (c : object Category) (s : State) : Prop :=
  forallb (fun item => includesStr (items (val c)) (word (val item)))
          (selectedWords s) = true.

(** The selection and a recorded guess are the same set of tile objects. *)
Definition sameObjects (guess sel : list (object Word)) : Prop :=
  forall w, In w guess -> exists w', In w' sel /\ ref w' = ref w.


(** The likeness of the selection to one category (an entry of
    [likenessCounts]). *)
Definition likeness (c : object Category) (s : State) : Z :=
  Z.of_nat (length (filter (fun item => includesStr (items (val c))
                                                    (word (val item)))
                           (selectedWords s))).

(** The state once [guessHistoryRef.current.push(selectedWords)] has run. *)
Definition recorded (s : State) : State :=
  setGuessHistory (guessHistoryRef s ++ [selectedWords s]) s.

(** The relation between the board position of a tile before and after
    [selectWord w]. *)
Definition toggled (w : Word) (n : nat) (item item' : object Word) : Prop :=
  word (val item') = word (val item)
  /\ wlevel (val item') = wlevel (val item)
  /\ (word (val item) <> word w -> item' = item)
  /\ (word (val item) = word w ->
      truthy (selected (val item')) =
      if Nat.ltb n 4 then negb (truthy (selected (val item))) else false).

(** The board once the words of the categories [cs] have been filtered
    out, one category after the other. *)
Definition without (cs : list (object Category)) (ws : list (object Word))
  : list (object Word) :=
  filter (fun item =>
            negb (existsb (fun c => includesStr (items (val c))
                                                (word (val item))) cs))
         ws.

(** The callback of the [map] in [selectWord], for [n] selected words. *)
Definition toggle (w : Word) (n : nat) (item : object Word) : option Word :=
  if String.eqb (word w) (word (val item)) then
    Some (mkWord (word (val item)) (wlevel (val item))
            (Some (if Nat.ltb n 4
                   then negb (truthy (selected (val item)))
                   else false)))
  else None.

(** Every tile carrying the text of [w] is unselected / is selected. *)
Definition unselectedOn (w : Word) (ws : list (object Word)) : bool :=
  forallb (fun item => negb (String.eqb (word w) (wordOf item))
                       || negb (truthy (selected (val item)))) ws.

Definition selectedOn (w : Word) (ws : list (object Word)) : bool :=
  forallb (fun item => negb (String.eqb (word w) (wordOf item))
                       || truthy (selected (val item))) ws.

(** The round invariant of the engine for the puzzle [cats]. *)
Record boardInv (cats : list (object Category)) (s : State) : Prop := {
  inv_nodup : NoDup (texts (gameWords s));
  inv_sound :
    forall x, In x (texts (gameWords s)) ->
              exists c, In c cats /\ includes (clearedCategories s) c = false
                        /\ In x (items (val c));
  inv_complete :
    forall c x, In c cats -> includes (clearedCategories s) c = false ->
                In x (items (val c)) -> In x (texts (gameWords s));
  inv_cleared_in : forall c, In c (clearedCategories s) -> In c cats;
  inv_cleared_nodup : NoDup (map (@ref Category) (clearedCategories s));
  inv_selected : length (selectedWords s) <= 4
}.

Definition pageInv (p : Page) : Prop :=
  match puzzleCategories p with
  | None => game p = initialState
  | Some cats =>
      loadedPuzzle cats /\ boardInv cats (game p)
      /\ (isWon (game p) = true -> gameWords (game p) = [])
      /\ (isLost (game p) = true -> gameWords (game p) = [])
      /\ (isLost (game p) = true -> mistakesRemaining (game p) = 0%Z)
  end.

End Props.

(* ------------------------------------------------------------------------- *)
(** ** A concrete session *)

Module Examples.
Import Js GameLogic Page.
Local Open Scope string_scope.

Definition fruit : object Category :=
  Obj 0 (mkCategory "FRUIT" 1 ["APPLE"; "PEAR"; "PLUM"; "KIWI"]).
Definition color : object Category :=
  Obj 1 (mkCategory "COLOR" 2 ["RED"; "BLUE"; "GREEN"; "GOLD"]).
Definition metal : object Category :=
  Obj 2 (mkCategory "METAL" 3 ["IRON"; "STEEL"; "TIN"; "LEAD"]).
Definition tool : object Category :=
  Obj 3 (mkCategory "TOOL" 4 ["SAW"; "AXE"; "HAMMER"; "DRILL"]).

Definition puzzle : list (object Category) := [fruit; color; metal; tool].

Definition keepOrder (l : list (object Word)) : list (object Word) := l.

Definition tile (w : string) : Word := mkWord w 0 None.

Fixpoint clicks (ws : list string) (p : Page) : Page :=
  match ws with
  | [] => p
  | w :: rest => clicks rest (onClickCell (tile w) p)
  end.

(** The puzzle has loaded, nothing is selected. *)
Definition started : Page :=
  loadPuzzleOk keepOrder puzzle (loadPuzzleStart mount).

(** Three fruits and a colour are selected. *)
Definition picked : Page := clicks ["APPLE"; "PEAR"; "PLUM"; "RED"] started.

Definition submit (p : Page) : Page :=
  match clickSubmit p with Some p' => p' | None => p end.

(** ... submitted once (one away) ... *)
Definition guessedOnce : Page := submit picked.

(** ... then RED is deselected and selected again. *)
Definition repicked : Page := clicks ["RED"; "RED"] guessedOnce.

(** The four fruits are selected. *)
Definition pickedFruit : Page :=
  clicks ["APPLE"; "PEAR"; "PLUM"; "KIWI"] started.

(** A round with no mistakes left and a wrong guess selected. *)
Definition exhausted : State :=
  setMistakesRemaning 0 (game picked).

(** Three more wrong guesses: BLUE, GREEN, then GOLD in place of RED.  On
    [lastChance] one mistake is left and the fourth wrong guess is
    selected; [lost] is the page once it has been submitted. *)
Definition guessedTwice : Page := submit (clicks ["RED"; "BLUE"] guessedOnce).
Definition guessedThrice : Page :=
  submit (clicks ["BLUE"; "GREEN"] guessedTwice).
Definition lastChance : Page := clicks ["GREEN"; "GOLD"] guessedThrice.
Definition lost : Page := submit lastChance.

(** A sheet with one complete puzzle and one row dated in the future, read
    on 2024-01-02 by a provider whose string built-ins leave these cells as
    they are. *)
Definition sheet : list (list string) :=
  [["date"; "level"; "category"; "word1"; "word2"; "word3"; "word4"];
   ["2024-01-01"; "2"; "COLOR"; "RED"; "BLUE"; "GREEN"; "GOLD"];
   ["2024-01-01"; "1"; "FRUIT"; "APPLE"; "PEAR"; "PLUM"; "KIWI"];
   ["2099-01-01"; "1"; "FUTURE"; "A"; "B"; "C"; "D"];
   ["2024-01-01"; "4"; "TOOL"; "SAW"; "AXE"; "HAMMER"; "DRILL"];
   ["2024-01-01"; "3"; "METAL"; "IRON"; "STEEL"; "TIN"; "LEAD"]].

Definition today : string := "2024-01-02".

Definition asIs (s : string) : string := s.

Definition levelNumber (s : string) : option Z :=
  if String.eqb s "1" then Some 1%Z
  else if String.eqb s "2" then Some 2%Z
  else if String.eqb s "3" then Some 3%Z
  else if String.eqb s "4" then Some 4%Z
  else None.

Definition sheetGET1 (dateQuery : option string) :=
  Route.GET1 asIs levelNumber (Some "sheet-id") today dateQuery
             (Route.Values (Some sheet)).

Definition sheetGET2 (dateQuery : option string) :=
  Route.GET2 asIs asIs asIs levelNumber Route.defaultCompare
             (Some "sheet-id") today dateQuery (Route.Values (Some sheet)).


End Examples.

(* ------------------------------------------------------------------------- *)
(** ** The rows of the sheet, one by one *)

Module Sheet.
Import Js Route.
Local Open Scope string_scope.

(** The shape the two loops of route.ts share: a row is skipped or gives a
    date and a category, which is appended to the entry of that date. *)
Fixpoint groupInto {R V} (parse : R -> option (string * V)) (rows : list R)
         (m : list (string * list V)) : list (string * list V) :=
  match rows with
  | [] => m
  | row :: rest =>
      match parse row with
      | None => groupInto parse rest m
      | Some (d, c) =>
          groupInto parse rest
            (mapSet d ((match mapGet d m with Some cs => cs | None => [] end)
                         ++ [c])%list m)
      end
  end.

(** The categories of the rows given the date [d], in sheet order. *)
Fixpoint categoriesFor {R V} (parse : R -> option (string * V)) (d : string)
         (rows : list R) : list V :=
  match rows with
  | [] => []
  | row :: rest =>
      match parse row with
      | Some (d', c) =>
          if String.eqb d' d then c :: categoriesFor parse d rest
          else categoriesFor parse d rest
      | None => categoriesFor parse d rest
      end
  end.

(** The dates of the rows that are not skipped, each once, in the order of
    their first row. *)
Fixpoint datesOf {R V} (parse : R -> option (string * V)) (rows : list R)
         (seen : list string) : list string :=
  match rows with
  | [] => []
  | row :: rest =>
      match parse row with
      | Some (d, _) =>
          if includesStr seen d then datesOf parse rest seen
          else d :: datesOf parse rest (d :: seen)
      | None => datesOf parse rest seen
      end
  end.

Section Builtins.
Variables toUpperCase trim : string -> string.
Variable toNumber : string -> option Z.

(** One pass of the loop of the first revision (lines 74-90). *)
Definition acceptedRow1 (todayNz : string) (header row : list string)
  : option (string * RowCategory) :=
  let date := at_ row (indexOfStr header "date") in
  if negb (isIsoDate (toStringCell date))
     || match date with Some d => gtStr d todayNz | None => false end
  then None
  else Some (toStringCell date, rowCategoryOf toNumber header row).

(** One pass of the loop of the second revision (lines 252-282). *)
Definition acceptedRow2 (todayNz : string)
           (iDate iLevel iCategory iW1 iW2 iW3 iW4 : Z) (row : list string)
  : option (string * Category) :=
  let date := trim (orEmpty (at_ row iDate)) in
  if negb (isIsoDate date) then None
  else if gtStr date todayNz then None
  else
    let levelNum := toNumber (trim (orEmpty (at_ row iLevel))) in
    if negb (isLevel levelNum) then None
    else
      let categoryName := trim (orEmpty (at_ row iCategory)) in
      if negb (nonEmpty categoryName) then None
      else
        let items :=
          filter nonEmpty
            [normalizeWord toUpperCase trim (at_ row iW1);
             normalizeWord toUpperCase trim (at_ row iW2);
             normalizeWord toUpperCase trim (at_ row iW3);
             normalizeWord toUpperCase trim (at_ row iW4)] in
        if negb (Nat.eqb (length items) 4) then None
        else
          Some (date,
                mkCategory categoryName
                           (match levelNum with Some z => z | None => 0%Z end)
                           items).

End Builtins.

(** A category as the second revision validates it row by row. *)
Definition validatedRow (c : Category) : Prop :=
  (1 <= level c <= 4)%Z
  /\ category c <> ""
  /\ length (items c) = 4
  /\ Forall (fun w => w <> "") (items c).

(** [res.ok]: a status from 200 to 299. *)
Definition okStatus (status : Z) : bool :=
  (200 <=? status)%Z && (status <=? 299)%Z.

End Sheet.

(* ------------------------------------------------------------------------- *)
(** ** src/app/page.tsx: loadPuzzle, from the response on *)

Module Loading.
Import Js GameLogic Page Route Sheet.
Local Open Scope string_scope.

(** [await res.json()]: one fresh object per category of the body. *)
Definition parseCategories (cs : list Category) : list (object Category) :=
  fst (allocAll 0 cs).

(** [data.error || "Failed to load puzzle."] *)
Definition errorMessage (body : ErrorBody) : string :=
  if nonEmpty (error body) then error body else "Failed to load puzzle.".

(** [loadPuzzle] once the response of the route has arrived (lines 44-64),
    followed by the puzzle effect when [puzzleCategories] was set.  A body
    without [categories] read as a puzzle sets [puzzleCategories] to
    [undefined]. *)
Definition loadPuzzleDone
           (shuffleArray : list (object Word) -> list (object Word))
           (response : Response (list Category)) (p : Page) : Page :=
  match response with
  | ErrorResponse status body =>
      if okStatus status
      then mkPage None false (puzzleError p) (submitted p) (game p)
      else loadPuzzleFailed (errorMessage body) p
  | PuzzleResponse _ _ _ categories =>
      loadPuzzleOk shuffleArray (parseCategories categories) p
  end.

End Loading.

(* ------------------------------------------------------------------------- *)
(** ** Bookkeeping of a round *)

Module Accounting.
Import Js GameLogic Page Props.


(** A state extends another: what a submission may do to the engine. *)
Record extends (s s' : State) : Prop := {
  ext_cleared :
    exists more, clearedCategories s' = clearedCategories s ++ more;
  ext_history : exists more, guessHistoryRef s' = guessHistoryRef s ++ more;
  ext_mistakes : (mistakesRemaining s' <= mistakesRemaining s)%Z;
  ext_board : incl (texts (gameWords s')) (texts (gameWords s))
}.

End Accounting.

(* ------------------------------------------------------------------------- *)
(** ** A session, one await at a time *)

Module Session.
Import Js GameLogic Page.

Definition setSubmitted (b : bool) (p : Page) : Page :=
  mkPage (puzzleCategories p) (loadingPuzzle p) (puzzleError p) b (game p).

(** The functions [handleSubmit] calls after its first await belong to the
    render [cl] in which Submit was clicked.  What they read of the hook's
    state ([selectedWords], [gameWords], [clearedCategories],
    [mistakesRemaining]) they read from [cl]; the ref's [current] is read
    from, and every update lands on, the state [s] at the time of the call. *)
Definition getCorrectResultFrom (c : object Category) (cl s : State)
  : SubmitResult * State :=
  let s' :=
    setGameWords
      (filter (fun item => negb (includesStr (items (val c)) (word (val item))))
              (gameWords cl))
      (setClearedCategories (clearedCategories cl ++ [c]) s) in
  if Nat.eqb (length (clearedCategories cl)) 3
  then (mkResult win, s')
  else (mkResult correct, s').

Definition getIncorrectResultFrom (maxLikeness : number) (cl s : State)
  : SubmitResult * State :=
  let s' := setMistakesRemaning (mistakesRemaining cl - 1) s in
  if Z.eqb (mistakesRemaining cl) 1 then (mkResult loss, s')
  else if number_eqb maxLikeness (Num 3) then (mkResult one_away, s')
  else (mkResult incorrect, s').

Definition sameGuessFrom (cl s : State) : bool :=
  existsb (fun guess => forallb (fun w => includes (selectedWords cl) w) guess)
          (guessHistoryRef s).

Definition getSubmitResultFrom
           (puzzleCategories : option (list (object Category)))
           (cl s : State) : option (SubmitResult * State) :=
  match puzzleCategories with
  | None => Some (mkResult incorrect, s)
  | Some cats =>
      if sameGuessFrom cl s then Some (mkResult same, s)
      else
        let s1 := setGuessHistory (guessHistoryRef s ++ [selectedWords cl]) s in
        let counts := likenessCounts cats cl in
        let maxL := Math_max counts in
        let maxIndex := indexOf counts maxL in
        if number_eqb maxL (Num 4) then
          match at_ cats maxIndex with
          | Some c => Some (getCorrectResultFrom c cl s1)
          | None => None
          end
        else Some (getIncorrectResultFrom maxL cl s1)
  end.

(** [handleLoss] up to its first [await delay(1000)]: the categories left to
    reveal and the state once [deselectAllWords()] has run. *)
Definition handleLossStart (cats : list (object Category)) (cl s : State)
  : State * list (object Category) :=
  let remaining := remainingCategories cats (clearedCategories cl) in
  let (ws, next) := deselectAll (heapNext s) (gameWords cl) in
  (setHeapNext next (setGameWords ws s), remaining).

(** What a suspended call of [handleSubmit] is waiting for.
    - [Animating]: [await animateGuess(selectedWords)], with the puzzle and
      the hook's state of the render of the click;
    - [Revealing]: an [await delay(1000)] of [handleLoss], with the
      categories the loop has not revealed yet (none left: the closing
      delay before [setIsLost(true)]);
    - [Winning]: the [await delay(1000)] of [handleWin].
    Modelled from the spec: [useAnimation] and [delay] are not under src/;
    the awaited animation and the delay resolve later and touch neither the
    page's nor the hook's state. *)
Inductive Task : Type :=
| Animating (puzzle : option (list (object Category))) (cl : State)
| Revealing (remaining : list (object Category))
| Winning.

(** The page, the dates offered by the select, and the suspended call of
    [handleSubmit] if there is one. *)
Record Session : Type := mkSession {
  page : Page;
  availableDates : list string;
  task : option Task
}.

(** First render; the mount effect has called [loadPuzzle]. *)
Definition start : Session := mkSession mount [] None.

Definition withPage (p : Page) (s : Session) : Session :=
  mkSession p (availableDates s) (task s).

Definition clickCell (w : Word) (s : Session) : Session :=
  withPage (onClickCell w (page s)) s.

Definition shuffleClicked
           (shuffleArray : list (object Word) -> list (object Word))
           (s : Session) : Session :=
  withPage (clickShuffle shuffleArray (page s)) s.

Definition deselectClicked (s : Session) : Session :=
  withPage (clickDeselectAll (page s)) s.

(** A click on Submit: [handleSubmit] up to its first await. *)
Definition submitClicked (s : Session) : Session :=
  let p := page s in
  if inProgressButtons p && negb (submitUnclickable p) then
    if controlsDisabled p then s
    else mkSession (setSubmitted true p) (availableDates s)
                   (Some (Animating (puzzleCategories p) (game p)))
  else s.

(** The animation is over: [handleSubmit] from [getSubmitResult()] to its
    next await, or to its end.  [None]: [getSubmitResult] threw. *)
Definition animationDone (s : Session) : option Session :=
  match task s with
  | Some (Animating puzzle cl) =>
      let p := page s in
      match getSubmitResultFrom puzzle cl (game p) with
      | None => None
      | Some (r, g') =>
          match result r with
          | loss =>
              match puzzle with
              | None =>
                  Some (mkSession (setSubmitted false (setGame g' p))
                                  (availableDates s) None)
              | Some cats =>
                  let (g1, remaining) := handleLossStart cats cl g' in
                  Some (mkSession (setGame g1 p) (availableDates s)
                                  (Some (Revealing remaining)))
              end
          | win =>
              Some (mkSession (setGame g' p) (availableDates s) (Some Winning))
          | _ =>
              Some (mkSession (setSubmitted false (setGame g' p))
                              (availableDates s) None)
          end
      end
  | _ => Some s
  end.

(** A delay is over: the next reveal of the loop of [handleLoss]; after the
    closing delay [setIsLost(true)], after the delay of [handleWin]
    [setIsWon(true)], each followed by the end of [handleSubmit]. *)
Definition delayDone (s : Session) : Session :=
  let p := page s in
  match task s with
  | Some (Revealing (c :: rest)) =>
      mkSession (setGame (revealCategory c (game p)) p) (availableDates s)
                (Some (Revealing rest))
  | Some (Revealing []) =>
      mkSession (setSubmitted false (setGame (setIsLost true (game p)) p))
                (availableDates s) None
  | Some Winning =>
      mkSession (setSubmitted false (setGame (setIsWon true (game p)) p))
                (availableDates s) None
  | _ => s
  end.

(** The pending delays are over one after the other, with no event in
    between. *)
Fixpoint settle (n : nat) (s : Session) : Session :=
  match n with
  | 0 => s
  | S n' =>
      match task s with
      | Some _ => settle n' (delayDone s)
      | None => s
      end
  end.

(** [disabled] of the date select. *)
Definition selectDisabled (s : Session) : bool :=
  loadingPuzzle (page s) || Nat.eqb (length (availableDates s)) 0.

(** Another date is chosen: [loadPuzzle(d)] up to the fetch. *)
Definition dateChosen (s : Session) : Session :=
  if selectDisabled s then s else withPage (loadPuzzleStart (page s)) s.

(** The fetch is over. *)
Definition loadFailed (msg : string) (s : Session) : Session :=
  withPage (loadPuzzleFailed msg (page s)) s.

Definition loadOk (shuffleArray : list (object Word) -> list (object Word))
           (cats : list (object Category)) (dates : list string)
           (s : Session) : Session :=
  mkSession (loadPuzzleOk shuffleArray cats (page s)) dates (task s).

(** The sessions: from the first render, any user event at any time, the
    completion of the load in flight ([loadingPuzzle] is set from the start
    of [loadPuzzle] to its end), and the resumption of the suspended call
    of [handleSubmit]. *)
Inductive live : Session -> Prop :=
| live_start : live start
| live_loadFailed s msg :
    live s -> loadingPuzzle (page s) = true -> live (loadFailed msg s)
| live_loadOk s sh cats dates :
    live s -> loadingPuzzle (page s) = true -> shuffles sh ->
    live (loadOk sh cats dates s)
| live_dateChosen s : live s -> live (dateChosen s)
| live_clickCell s w : live s -> live (clickCell w s)
| live_shuffleClicked s sh :
    live s -> shuffles sh -> live (shuffleClicked sh s)
| live_deselectClicked s : live s -> live (deselectClicked s)
| live_submitClicked s : live s -> live (submitClicked s)
| live_animationDone s s' : live s -> animationDone s = Some s' -> live s'
| live_delayDone s : live s -> live (delayDone s).

(** What holds of the counters and flags of every session. *)
Record steady (s : Session) : Prop := {
  st_range : (0 <= mistakesRemaining (game (page s)) <= 4)%Z;
  st_exclusive :
    isWon (game (page s)) = true -> isLost (game (page s)) = false;
  st_pending :
    task s <> None ->
    submitted (page s) = true
    /\ isWon (game (page s)) = false /\ isLost (game (page s)) = false;
  st_closure :
    forall puzzle cl,
      task s = Some (Animating puzzle cl) ->
      (1 <= mistakesRemaining cl <= 4)%Z;
  st_open :
    isLost (game (page s)) = false ->
    (forall remaining, task s <> Some (Revealing remaining)) ->
    (1 <= mistakesRemaining (game (page s)))%Z
}.

(** Two states of the same round at the same point: flags, mistakes,
    cleared categories and guess history agree. *)
Definition sameRound (g g' : State) : Prop :=
  isWon g' = isWon g /\ isLost g' = isLost g
  /\ mistakesRemaining g' = mistakesRemaining g
  /\ clearedCategories g' = clearedCategories g
  /\ guessHistoryRef g' = guessHistoryRef g.

End Session.

(* ------------------------------------------------------------------------- *)
(** ** A concrete session with events during the reveal *)

Module Replay.
Import Js GameLogic Page Session.
Local Open Scope string_scope.

Definition animal : object Category :=
  Obj 4 (mkCategory "ANIMAL" 1 ["CAT"; "DOG"; "COW"; "PIG"]).
Definition planet : object Category :=
  Obj 5 (mkCategory "PLANET" 2 ["MARS"; "VENUS"; "EARTH"; "SATURN"]).
Definition river : object Category :=
  Obj 6 (mkCategory "RIVER" 3 ["NILE"; "RHINE"; "SEINE"; "VOLGA"]).
Definition shape : object Category :=
  Obj 7 (mkCategory "SHAPE" 4 ["CIRCLE"; "SQUARE"; "CUBE"; "CONE"]).

(** The puzzle of another day. *)
Definition otherPuzzle : list (object Category) :=
  [animal; planet; river; shape].

Definition dates : list string := ["2024-01-02"; "2024-01-01"].

Fixpoint cells (ws : list string) (s : Session) : Session :=
  match ws with
  | [] => s
  | w :: rest => cells rest (clickCell (Examples.tile w) s)
  end.

(** A click on Submit and the end of the animation. *)
Definition guess (s : Session) : Session :=
  match animationDone (submitClicked s) with
  | Some s' => s'
  | None => s
  end.

(** The first load is over: the puzzle of [Examples] is on. *)
Definition started : Session :=
  loadOk Examples.keepOrder Examples.puzzle dates start.

(** Three wrong guesses, then the fourth one selected. *)
Definition guessedOnce : Session :=
  guess (cells ["APPLE"; "PEAR"; "PLUM"; "RED"] started).
Definition guessedTwice : Session := guess (cells ["RED"; "BLUE"] guessedOnce).
Definition guessedThrice : Session :=
  guess (cells ["BLUE"; "GREEN"] guessedTwice).
Definition lastChance : Session := cells ["GREEN"; "GOLD"] guessedThrice.

(** The fourth wrong guess is submitted and answered "loss"; [handleLoss]
    is at its first delay. *)
Definition revealing : Session := guess lastChance.

(** A click on a cell during that delay. *)
Definition clickedMeanwhile : Session :=
  clickCell (Examples.tile "SAW") revealing.

(** Instead: another date is chosen during that delay and its puzzle
    arrives before the next reveal; then all the delays of [handleLoss]
    are over. *)
Definition switching : Session := dateChosen revealing.
Definition switched : Session :=
  loadOk Examples.keepOrder otherPuzzle dates switching.
Definition lostAfterSwitch : Session := settle 5 switched.

(** A click on a cell of the new board. *)
Definition clickedWhenLost : Session :=
  clickCell (Examples.tile "CAT") lostAfterSwitch.

End Replay.

(* ------------------------------------------------------------------------- *)
(** * Properties *)

Import Js GameLogic Page Props.

Unset Implicit Arguments.

(** ** Lists and JavaScript built-ins *)

Lemma includes_true_iff {A} (l : list (object A)) (x : object A) :
  includes l x = true <-> exists y, In y l /\ ref y = ref x.
Proof.
  unfold includes, sameObject. rewrite existsb_exists. split.
  - intros (y & Hy & E). apply Nat.eqb_eq in E. eauto.
  - intros (y & Hy & E). exists y. split; trivial. now apply Nat.eqb_eq.
Qed.

Lemma includes_false_iff {A} (l : list (object A)) (x : object A) :
  includes l x = false <-> forall y, In y l -> ref y <> ref x.
Proof.
  split.
  - intros H y Hy E.
    assert (includes l x = true) by (apply includes_true_iff; eauto).
    congruence.
  - intros H. destruct (includes l x) eqn:E; trivial.
    apply includes_true_iff in E. destruct E as (y & Hy & E).
    now elim (H y Hy).
Qed.

Lemma includes_app {A} (l1 l2 : list (object A)) x :
  includes (l1 ++ l2) x = includes l1 x || includes l2 x.
Proof. unfold includes. apply existsb_app. Qed.

Lemma includesStr_true_iff l s : includesStr l s = true <-> In s l.
Proof.
  unfold includesStr. rewrite existsb_exists. split.
  - intros (y & Hy & E). apply String.eqb_eq in E. now subst.
  - intros H. exists s. split; trivial. apply String.eqb_refl.
Qed.

Lemma includesStr_false_iff l s : includesStr l s = false <-> ~ In s l.
Proof.
  rewrite <- includesStr_true_iff.
  destruct (includesStr l s); intuition congruence.
Qed.

Lemma number_eqb_eq a b : number_eqb a b = true <-> a = b.
Proof.
  destruct a, b; simpl; split; intros H; try congruence; try discriminate.
  - apply Z.eqb_eq in H. now subst.
  - inversion H. apply Z.eqb_refl.
Qed.

Lemma number_eqb_neq a b : number_eqb a b = false <-> a <> b.
Proof.
  rewrite <- number_eqb_eq. destruct (number_eqb a b); intuition congruence.
Qed.

Lemma fold_max_ge (l : list Z) (a : Z) : (a <= fold_left Z.max l a)%Z.
Proof.
  revert a. induction l as [|y l IH]; intros a; simpl; [lia|].
  specialize (IH (Z.max a y)). lia.
Qed.

Lemma fold_max_in (l : list Z) (a : Z) :
  fold_left Z.max l a = a \/ In (fold_left Z.max l a) l.
Proof.
  revert a. induction l as [|y l IH]; intros a; simpl; [now left|].
  destruct (IH (Z.max a y)) as [E | H]; [|now right; right].
  rewrite E. destruct (Z.max_spec a y) as [[_ M] | [_ M]]; rewrite M; auto.
Qed.

Lemma fold_max_upper (l : list Z) (a b : Z) :
  (a <= b)%Z -> (forall y, In y l -> (y <= b)%Z) ->
  (fold_left Z.max l a <= b)%Z.
Proof.
  revert a. induction l as [|y l IH]; intros a Ha Hl; simpl; [trivial|].
  apply IH; [|intros; apply Hl; now right].
  specialize (Hl y (or_introl eq_refl)). lia.
Qed.

(** [Math.max] returns an element of a non-empty array, above all others. *)
Lemma Math_max_in (l : list Z) (z : Z) : Math_max l = Num z -> In z l.
Proof.
  destruct l as [|x r]; simpl; [discriminate|]. intros H. inversion H.
  destruct (fold_max_in r x) as [E | Hin]; [left; congruence | now right].
Qed.

Lemma Math_max_upper (l : list Z) (b : Z) :
  (forall y, In y l -> (y <= b)%Z) -> forall z, Math_max l = Num z -> (z <= b)%Z.
Proof.
  destruct l as [|x r]; simpl; intros Hl z H; [discriminate|]. inversion H.
  apply fold_max_upper; [apply Hl; now left | intros; apply Hl; now right].
Qed.

Lemma indexOfFrom_found (l : list Z) (z i : Z) :
  In z l ->
  exists k, indexOfFrom l (Num z) i = (i + Z.of_nat k)%Z
            /\ nth_error l k = Some z
            /\ forall j, j < k -> nth_error l j <> Some z.
Proof.
  revert i. induction l as [|y l IH]; intros i Hin; [easy|]. simpl.
  destruct (Z.eqb y z) eqn:E.
  - apply Z.eqb_eq in E. subst. exists 0.
    split; [lia|]. split; [reflexivity|]. intros; lia.
  - apply Z.eqb_neq in E. destruct Hin as [-> | Hin]; [easy|].
    destruct (IH (i + 1)%Z Hin) as (k & Hk & Hn & Hfirst).
    exists (S k). split; [lia|]. split; [exact Hn|].
    intros [|j] Hj; simpl; [congruence | apply Hfirst; lia].
Qed.

Lemma at_of_nat {A} (l : list A) (k : nat) : at_ l (Z.of_nat k) = nth_error l k.
Proof.
  unfold at_. destruct (Z.ltb_spec (Z.of_nat k) 0); [lia|].
  now rewrite Nat2Z.id.
Qed.

(** ** getSubmitResult *)

Lemma likenessCounts_eq cats s :
  likenessCounts cats s = map (fun c => likeness c s) cats.
Proof. reflexivity. Qed.

Lemma filter_length_bound {A} (f : A -> bool) (l : list A) :
  length (filter f l) <= length l.
Proof.
  induction l as [|a l IH]; simpl; [lia|]. destruct (f a); simpl; lia.
Qed.

Lemma likeness_bounds c s :
  (0 <= likeness c s <= Z.of_nat (length (selectedWords s)))%Z.
Proof.
  unfold likeness.
  pose proof (filter_length_bound
                (fun item => includesStr (items (val c)) (word (val item)))
                (selectedWords s)). lia.
Qed.

Lemma maxLikeness_bound cats s z :
  maxLikeness cats s = Num z -> (z <= Z.of_nat (length (selectedWords s)))%Z.
Proof.
  unfold maxLikeness. apply Math_max_upper. intros y Hy.
  rewrite likenessCounts_eq in Hy. apply in_map_iff in Hy.
  destruct Hy as (c & <- & _). apply likeness_bounds.
Qed.

(** A repeated guess: nothing is touched. *)
Lemma getSubmitResult_same cats s :
  sameGuess s = true -> getSubmitResult (Some cats) s = Some (mkResult same, s).
Proof. intros H. unfold getSubmitResult. now rewrite H. Qed.

(** A new guess that no category holds entirely goes to [getIncorrectResult]. *)
Lemma getSubmitResult_incorrect cats s :
  sameGuess s = false -> maxLikeness cats s <> Num 4%Z ->
  getSubmitResult (Some cats) s
  = Some (getIncorrectResult (maxLikeness cats s) (recorded s)).
Proof.
  intros Hs Hm. unfold getSubmitResult. rewrite Hs.
  apply number_eqb_neq in Hm. unfold maxLikeness in Hm. now rewrite Hm.
Qed.

(** A new guess with likeness 4 goes to [getCorrectResult] with the first
    category of likeness 4; the array access never fails. *)
Lemma getSubmitResult_correct cats s :
  sameGuess s = false -> maxLikeness cats s = Num 4%Z ->
  exists k c,
    nth_error cats k = Some c /\ likeness c s = 4%Z
    /\ (forall j c', j < k -> nth_error cats j = Some c' -> likeness c' s <> 4%Z)
    /\ getSubmitResult (Some cats) s = Some (getCorrectResult c (recorded s)).
Proof.
  intros Hs Hm. unfold getSubmitResult. rewrite Hs.
  unfold maxLikeness in Hm. rewrite Hm. simpl number_eqb. cbv iota.
  pose proof (Math_max_in _ _ Hm) as Hin.
  destruct (indexOfFrom_found _ _ 0%Z Hin) as (k & Hk & Hn & Hfirst).
  unfold indexOf. rewrite Hk. simpl Z.add. rewrite at_of_nat.
  rewrite likenessCounts_eq in Hn, Hfirst.
  rewrite nth_error_map in Hn.
  destruct (nth_error cats k) as [c|] eqn:Hc; [|discriminate].
  simpl in Hn. inversion Hn as [Hl].
  exists k, c. repeat split; trivial.
  intros j c' Hj Hc' E. apply (Hfirst j Hj).
  rewrite nth_error_map, Hc'. simpl. now rewrite E.
Qed.

(** [getSubmitResult] always returns. *)
Lemma getSubmitResult_returns puzzle s :
  exists r s', getSubmitResult puzzle s = Some (r, s').
Proof.
  destruct puzzle as [cats|]; [|now exists (mkResult incorrect), s].
  destruct (sameGuess s) eqn:Hs.
  - exists (mkResult same), s. now apply getSubmitResult_same.
  - destruct (number_eqb (maxLikeness cats s) (Num 4%Z)) eqn:Hm.
    + apply number_eqb_eq in Hm.
      destruct (getSubmitResult_correct cats s Hs Hm) as (k & c & _ & _ & _ & E).
      rewrite E. destruct (getCorrectResult c (recorded s)) as [r s']. eauto.
    + apply number_eqb_neq in Hm. rewrite (getSubmitResult_incorrect cats s Hs Hm).
      destruct (getIncorrectResult _ (recorded s)) as [r s']. eauto.
Qed.

(** When the selection holds every tile object of a recorded guess, the
    guess is a repeat. *)
Lemma sameGuess_of_sameObjects s guess :
  In guess (guessHistoryRef s) -> sameObjects guess (selectedWords s) ->
  sameGuess s = true.
Proof.
  intros Hin Hsame. unfold sameGuess. apply existsb_exists.
  exists guess. split; trivial. apply forallb_forall. intros w Hw.
  apply includes_true_iff. destruct (Hsame w Hw) as (w' & Hw' & E). eauto.
Qed.

Lemma getIncorrectResult_state m s :
  snd (getIncorrectResult m s) = setMistakesRemaning (mistakesRemaining s - 1) s.
Proof.
  unfold getIncorrectResult.
  destruct (mistakesRemaining s =? 1)%Z; [reflexivity|].
  destruct (number_eqb m (Num 3%Z)); reflexivity.
Qed.

Lemma getIncorrectResult_result m s :
  result (fst (getIncorrectResult m s))
  = if (mistakesRemaining s =? 1)%Z then loss
    else if number_eqb m (Num 3%Z) then one_away else incorrect.
Proof.
  unfold getIncorrectResult.
  destruct (mistakesRemaining s =? 1)%Z; [reflexivity|].
  destruct (number_eqb m (Num 3%Z)); reflexivity.
Qed.


(** ** Claims about [getSubmitResult] alone *)

(** C9: with no puzzle loaded ([puzzleCategories] is null) [getSubmitResult]
    returns the tag "incorrect" and hands back the very state it was given:
    guess history, mistakes remaining, cleared categories and board are all
    unchanged. *)
Theorem submit_without_puzzle (s : State) :
  getSubmitResult None s = Some (mkResult incorrect, s).
Proof. reflexivity. Qed.

(** C10: [getIncorrectResult] returns "loss" exactly when one mistake was
    left at entry; and a new, non-matching four-word guess submitted with
    zero mistakes left takes the counter to -1 and is answered "one-away" or
    "incorrect", not "loss". *)
Theorem loss_iff_one_mistake_left (m : number) (cats : list (object Category))
        (s : State) :
  (result (fst (getIncorrectResult m s)) = loss <-> mistakesRemaining s = 1%Z)
  /\ (length (selectedWords s) = 4 -> sameGuess s = false ->
      maxLikeness cats s <> Num 4%Z -> mistakesRemaining s = 0%Z ->
      exists r s',
        getSubmitResult (Some cats) s = Some (r, s')
        /\ mistakesRemaining s' = (-1)%Z
        /\ (result r = one_away \/ result r = incorrect)
        /\ result r <> loss).
Proof.
  split.
  - rewrite getIncorrectResult_result.
    destruct (Z.eqb_spec (mistakesRemaining s) 1); [tauto|].
    destruct (number_eqb m (Num 3%Z)); split; intros; congruence.
  - intros _ Hs Hm H0. rewrite (getSubmitResult_incorrect cats s Hs Hm).
    destruct (getIncorrectResult (maxLikeness cats s) (recorded s))
      as [r s'] eqn:E.
    exists r, s'. split; [reflexivity|].
    pose proof (getIncorrectResult_state (maxLikeness cats s) (recorded s)) as St.
    pose proof (getIncorrectResult_result (maxLikeness cats s) (recorded s)) as Re.
    rewrite E in St, Re. simpl in St, Re. subst s'. simpl. rewrite H0 in *.
    simpl in Re. split; [reflexivity|].
    destruct (number_eqb (maxLikeness cats s) (Num 3%Z)); rewrite Re;
      split; auto; discriminate.
Qed.

Lemma loss_iff_one_mistake_left_witness :
  exists r s',
    getSubmitResult (Some Examples.puzzle) Examples.exhausted = Some (r, s')
    /\ mistakesRemaining s' = (-1)%Z
    /\ (result r = one_away \/ result r = incorrect)
    /\ result r <> loss.
Proof.
  apply (proj2 (loss_iff_one_mistake_left NegInfinity Examples.puzzle
                                          Examples.exhausted)).
  - reflexivity.
  - reflexivity.
  - vm_compute. discriminate.
  - reflexivity.
Defined.



Lemma fewer_than_four_not_correct cats s :
  length (selectedWords s) < 4 -> maxLikeness cats s <> Num 4%Z.
Proof.
  intros Hlen E. apply maxLikeness_bound in E. lia.
Qed.

(** C1, as stated, fails: right after a puzzle has loaded, with nothing
    selected, [getSubmitResult] is not rejected; it records the empty
    selection and charges a mistake. *)
Lemma submit_without_selection_counterexample :
  puzzleCategories Examples.started = Some Examples.puzzle
  /\ length (selectedWords (game Examples.started)) = 0
  /\ exists s',
      getSubmitResult (Some Examples.puzzle) (game Examples.started)
      = Some (mkResult incorrect, s')
      /\ length (guessHistoryRef s')
         = S (length (guessHistoryRef (game Examples.started)))
      /\ mistakesRemaining (game Examples.started) = 4%Z
      /\ mistakesRemaining s' = 3%Z
      /\ s' <> game Examples.started.
Proof.
  split; [reflexivity|]. split; [reflexivity|].
  eexists. split; [vm_compute; reflexivity|].
  repeat split. intros E. discriminate E.
Qed.

(** C1, amended: with fewer than four words selected the size check is the
    page's, not the engine's.  The Submit button is unclickable and a click on
    it leaves the page, hence all engine state, unchanged.  [getSubmitResult]
    itself has no such check: called all the same it leaves the board and the
    cleared categories untouched and never answers "correct" or "win"; when a
    recorded guess lies within the selection it answers "same" with the state
    unchanged, and otherwise it records the selection, takes one mistake off
    and answers "loss", "one-away" or "incorrect" as [getIncorrectResult]
    decides. *)
Theorem submit_fewer_than_four (p : Page) (cats : list (object Category)) :
  puzzleCategories p = Some cats ->
  length (selectedWords (game p)) < 4 ->
  submitUnclickable p = true
  /\ clickSubmit p = Some p
  /\ exists r s',
      getSubmitResult (Some cats) (game p) = Some (r, s')
      /\ gameWords s' = gameWords (game p)
      /\ clearedCategories s' = clearedCategories (game p)
      /\ if sameGuess (game p)
         then result r = same /\ s' = game p
         else guessHistoryRef s'
              = guessHistoryRef (game p) ++ [selectedWords (game p)]
              /\ mistakesRemaining s' = (mistakesRemaining (game p) - 1)%Z
              /\ result r
                 = (if (mistakesRemaining (game p) =? 1)%Z then loss
                    else if number_eqb (maxLikeness cats (game p)) (Num 3%Z)
                         then one_away else incorrect).
Proof.
  intros Hp Hlen.
  assert (Hun : submitUnclickable p = true).
  { unfold submitUnclickable.
    destruct (Nat.eqb_spec (length (selectedWords (game p))) 4); [lia|].
    reflexivity. }
  split; [exact Hun|]. split.
  { unfold clickSubmit. rewrite Hun. simpl. now rewrite andb_false_r. }
  destruct (sameGuess (game p)) eqn:Hs.
  - exists (mkResult same), (game p).
    rewrite (getSubmitResult_same cats _ Hs). auto.
  - pose proof (fewer_than_four_not_correct cats _ Hlen) as Hm.
    rewrite (getSubmitResult_incorrect cats _ Hs Hm).
    destruct (getIncorrectResult (maxLikeness cats (game p)) (recorded (game p)))
      as [r s'] eqn:E.
    exists r, s'. split; [reflexivity|].
    pose proof (getIncorrectResult_state (maxLikeness cats (game p))
                                         (recorded (game p))) as St.
    pose proof (getIncorrectResult_result (maxLikeness cats (game p))
                                          (recorded (game p))) as Re.
    rewrite E in St, Re. simpl in St, Re. subst s'. simpl. auto.
Qed.

Lemma submit_fewer_than_four_witness :
  submitUnclickable Examples.started = true
  /\ clickSubmit Examples.started = Some Examples.started
  /\ exists r s',
      getSubmitResult (Some Examples.puzzle) (game Examples.started)
      = Some (r, s')
      /\ gameWords s' = gameWords (game Examples.started)
      /\ clearedCategories s' = clearedCategories (game Examples.started)
      /\ if sameGuess (game Examples.started)
         then result r = same /\ s' = game Examples.started
         else guessHistoryRef s'
              = guessHistoryRef (game Examples.started)
                  ++ [selectedWords (game Examples.started)]
              /\ mistakesRemaining s'
                 = (mistakesRemaining (game Examples.started) - 1)%Z
              /\ result r
                 = (if (mistakesRemaining (game Examples.started) =? 1)%Z
                    then loss
                    else if number_eqb
                              (maxLikeness Examples.puzzle
                                           (game Examples.started))
                              (Num 3%Z)
                         then one_away else incorrect).
Proof.
  apply (submit_fewer_than_four Examples.started Examples.puzzle).
  - reflexivity.
  - vm_compute. lia.
Defined.

(** C2 fails on the code: the repeat check compares tile objects, and
    [selectWord] replaces the object of every tile it toggles.  After a first
    guess of APPLE, PEAR, PLUM, RED (one away), deselecting RED and selecting
    it again gives the same four words, yet the second submission is not
    answered "same": it is recorded again and costs a second mistake. *)
Theorem reselected_guess_not_same :
  reachable Examples.repicked
  /\ puzzleCategories Examples.repicked = Some Examples.puzzle
  /\ guessHistoryRef (game Examples.repicked)
     = [selectedWords (game Examples.picked)]
  /\ map view (selectedWords (game Examples.repicked))
     = map view (selectedWords (game Examples.picked))
  /\ mistakesRemaining (game Examples.repicked) = 3%Z
  /\ exists s',
      getSubmitResult (Some Examples.puzzle) (game Examples.repicked)
      = Some (mkResult one_away, s')
      /\ length (guessHistoryRef s') = 2
      /\ mistakesRemaining s' = 2%Z.
Proof.
  split.
  { unfold Examples.repicked, Examples.clicks.
    do 2 apply reach_click.
    unfold Examples.guessedOnce, Examples.submit.
    apply reach_submit with (p := Examples.picked); [|reflexivity].
    unfold Examples.picked, Examples.clicks. do 4 apply reach_click.
    unfold Examples.started. apply reach_loadOk.
    - apply reach_loadStart, reach_mount.
    - intros l. apply Permutation_refl.
    - split.
      + repeat constructor; simpl; intuition discriminate.
      + split; [reflexivity|]. split.
        * repeat constructor.
        * repeat constructor; simpl; intuition discriminate. }
  split; [reflexivity|]. split; [reflexivity|]. split; [reflexivity|].
  split; [reflexivity|].
  eexists. split; [vm_compute; reflexivity|]. split; reflexivity.
Qed.

(** ** selectWord, deselectAllWords, shuffleWords *)

Lemma selectWord_unfold w s :
  selectWord w s
  = setHeapNext
      (snd (mapAlloc (toggle w (length (selectedWords s))) (heapNext s)
                     (gameWords s)))
      (setGameWords
         (fst (mapAlloc (toggle w (length (selectedWords s))) (heapNext s)
                        (gameWords s))) s).
Proof.
  unfold selectWord. fold (toggle w (length (selectedWords s))).
  now destruct (mapAlloc _ _ _).
Qed.

Lemma deselectAllWords_unfold s :
  deselectAllWords s
  = setHeapNext (snd (deselectAll (heapNext s) (gameWords s)))
                (setGameWords (fst (deselectAll (heapNext s) (gameWords s))) s).
Proof. unfold deselectAllWords. now destruct (deselectAll _ _). Qed.

Lemma mapAlloc_Forall2 {A} (f : object A -> option A) (R : object A -> object A -> Prop) :
  (forall item, f item = None -> R item item) ->
  (forall item v a, f item = Some v -> R item (Obj a v)) ->
  forall l next, Forall2 R l (fst (mapAlloc f next l)).
Proof.
  intros Hnone Hsome. induction l as [|item l IH]; intros next; simpl.
  - constructor.
  - destruct (f item) as [v|] eqn:E.
    + specialize (IH (S next)). destruct (mapAlloc f (S next) l). simpl in *.
      constructor; auto.
    + specialize (IH next). destruct (mapAlloc f next l). simpl in *.
      constructor; auto.
Qed.

Lemma mapAlloc_none {A} (f : object A -> option A) l next :
  (forall item, In item l -> f item = None) -> mapAlloc f next l = (l, next).
Proof.
  induction l as [|item l IH]; intros H; simpl; [reflexivity|].
  rewrite (H item (or_introl eq_refl)). rewrite IH; [reflexivity|].
  intros; apply H; now right.
Qed.

Lemma toggle_toggled w n :
  forall l next, Forall2 (toggled w n) l (fst (mapAlloc (toggle w n) next l)).
Proof.
  apply mapAlloc_Forall2.
  - intros item E. unfold toggle in E.
    destruct (String.eqb_spec (word w) (word (val item))); [discriminate|].
    unfold toggled. intuition congruence.
  - intros item v a E. unfold toggle in E.
    destruct (String.eqb_spec (word w) (word (val item))) as [Ew|]; [|discriminate].
    inversion E; subst v; clear E. unfold toggled. simpl.
    repeat split; trivial; [congruence|]. intros _.
    now destruct (Nat.ltb n 4), (truthy (selected (val item))).
Qed.

Lemma selectWord_toggled w s :
  Forall2 (toggled w (length (selectedWords s)))
          (gameWords s) (gameWords (selectWord w s)).
Proof. rewrite selectWord_unfold. simpl. apply toggle_toggled. Qed.

Lemma Forall2_texts (R : object Word -> object Word -> Prop) l l' :
  (forall a b, R a b -> wordOf b = wordOf a) ->
  Forall2 R l l' -> texts l' = texts l.
Proof.
  intros HR H. induction H; simpl; [reflexivity|]. f_equal; auto.
Qed.

Lemma selectWord_texts w s :
  texts (gameWords (selectWord w s)) = texts (gameWords s).
Proof.
  apply Forall2_texts with (R := toggled w (length (selectedWords s))).
  - intros a b (H & _). exact H.
  - apply selectWord_toggled.
Qed.

Lemma selectWord_frame w s :
  clearedCategories (selectWord w s) = clearedCategories s
  /\ isWon (selectWord w s) = isWon s
  /\ isLost (selectWord w s) = isLost s
  /\ mistakesRemaining (selectWord w s) = mistakesRemaining s
  /\ guessHistoryRef (selectWord w s) = guessHistoryRef s.
Proof. rewrite selectWord_unfold. simpl. auto. Qed.

(** On a board without repeated texts a toggle changes at most one tile, so
    the selection grows by at most one, and not at all once four words are
    selected. *)
Lemma toggle_count w n l next :
  NoDup (texts l) ->
  length (selectedOf (fst (mapAlloc (toggle w n) next l)))
  <= length (selectedOf l) + (if Nat.ltb n 4 then 1 else 0).
Proof.
  revert next. induction l as [|item l IH]; intros next Hnd; simpl; [lia|].
  inversion Hnd as [|x xs Hnotin Hnd']; subst.
  unfold toggle at 1.
  destruct (String.eqb_spec (word w) (word (val item))) as [Ew|Ew].
  - rewrite mapAlloc_none.
    + simpl. destruct (Nat.ltb n 4); simpl.
      * destruct (truthy (selected (val item))); simpl; lia.
      * destruct (truthy (selected (val item))); simpl; lia.
    + intros item' Hin. unfold toggle.
      destruct (String.eqb_spec (word w) (word (val item'))) as [Ew'|]; trivial.
      elim Hnotin. unfold texts. apply in_map_iff. exists item'.
      split; trivial. unfold wordOf. congruence.
  - specialize (IH next Hnd'). destruct (mapAlloc (toggle w n) next l).
    simpl in *. destruct (truthy (selected (val item))); simpl; lia.
Qed.

Lemma selectWord_capped w s :
  NoDup (texts (gameWords s)) -> length (selectedWords s) <= 4 ->
  length (selectedWords (selectWord w s)) <= 4.
Proof.
  intros Hnd Hlen. rewrite selectWord_unfold. unfold selectedWords at 1. simpl.
  pose proof (toggle_count w (length (selectedWords s)) (gameWords s)
                           (heapNext s) Hnd) as H.
  fold (selectedWords s) in H.
  destruct (Nat.ltb_spec (length (selectedWords s)) 4); lia.
Qed.

Lemma unselectedOn_spec w l item :
  unselectedOn w l = true -> In item l -> word (val item) = word w ->
  truthy (selected (val item)) = false.
Proof.
  unfold unselectedOn. rewrite forallb_forall. intros H Hin Hw.
  specialize (H item Hin). unfold wordOf in H. rewrite Hw, String.eqb_refl in H.
  simpl in H. now apply negb_true_iff in H.
Qed.

(** A toggle that leaves every tile's selected state as it was leaves the
    selection (the very same objects) as it was. *)
Lemma toggled_noop w l l' :
  unselectedOn w l = true -> Forall2 (toggled w 4) l l' ->
  selectedOf l' = selectedOf l /\ map view l' = map view l.
Proof.
  intros Hun H. induction H as [|a b l l' Hab H IH]; [now split|].
  simpl in Hun. apply andb_true_iff in Hun. destruct Hun as [Ha Hl].
  destruct (IH Hl) as [IH1 IH2]. destruct Hab as (Hw & Hlv & Hne & Heq).
  simpl. unfold wordOf in Ha.
  destruct (String.eqb_spec (word w) (word (val a))) as [Ew|Ew]; simpl in Ha.
  - apply negb_true_iff in Ha. symmetry in Ew. specialize (Heq Ew).
    simpl in Heq. rewrite Heq, Ha. split; [exact IH1|].
    unfold view at 1 3. rewrite Hw, Hlv, Heq, Ha. now f_equal.
  - assert (b = a) by (apply Hne; congruence). subst b.
    split; [now rewrite IH1 | now f_equal].
Qed.

Lemma toggled_ge4 w n a b :
  4 <= n -> toggled w n a b -> toggled w 4 a b.
Proof.
  intros Hn (H1 & H2 & H3 & H4). repeat split; trivial.
  intros E. rewrite (H4 E). destruct (Nat.ltb_spec n 4); [lia|reflexivity].
Qed.

Lemma selectWord_noop w s :
  4 <= length (selectedWords s) -> unselectedOn w (gameWords s) = true ->
  selectedWords (selectWord w s) = selectedWords s
  /\ map view (gameWords (selectWord w s)) = map view (gameWords s).
Proof.
  intros Hn Hun. apply (toggled_noop w); trivial.
  eapply Forall2_impl; [|apply selectWord_toggled].
  intros a b. now apply toggled_ge4.
Qed.

Lemma selectWord_empty w s : gameWords s = [] -> selectWord w s = s.
Proof.
  intros E. rewrite selectWord_unfold. rewrite E. simpl.
  destruct s; simpl in *. now subst.
Qed.

Lemma deselectAll_texts next l : texts (fst (deselectAll next l)) = texts l.
Proof.
  apply Forall2_texts with (R := fun a b => wordOf b = wordOf a); trivial.
  unfold deselectAll. apply mapAlloc_Forall2; [discriminate|].
  intros item v a E. inversion E. reflexivity.
Qed.

Lemma deselectAll_unselected next l :
  Forall (fun item => selected (val item) = Some false) (fst (deselectAll next l)).
Proof.
  unfold deselectAll. revert next.
  induction l as [|item l IH]; intros next; simpl; [constructor|].
  specialize (IH (S next)).
  destruct (mapAlloc _ (S next) l). simpl in *. now constructor.
Qed.

Lemma selectedOf_unselected l :
  Forall (fun item => selected (val item) = Some false) l -> selectedOf l = [].
Proof.
  induction 1 as [|a l Ha _ IH]; simpl; [reflexivity|]. now rewrite Ha.
Qed.

Lemma selectedOf_perm l l' :
  Permutation l l' -> Permutation (selectedOf l) (selectedOf l').
Proof.
  unfold selectedOf. induction 1; simpl.
  - constructor.
  - destruct (truthy (selected (val x))); auto.
  - destruct (truthy (selected (val x))), (truthy (selected (val y)));
      auto using perm_swap.
  - eauto using Permutation_trans.
Qed.

(** ** What a loaded puzzle guarantees *)

Lemma NoDup_map_inj {A B} (f : A -> B) (l : list A) a b :
  NoDup (map f l) -> In a l -> In b l -> f a = f b -> a = b.
Proof.
  induction l as [|c l IH]; simpl; intros Hnd Ha Hb E; [easy|].
  inversion Hnd as [|x xs Hnotin Hnd']; subst.
  destruct Ha as [-> | Ha], Hb as [-> | Hb]; trivial.
  - elim Hnotin. rewrite E. now apply in_map.
  - elim Hnotin. rewrite <- E. now apply in_map.
  - now apply IH.
Qed.

Lemma NoDup_app_disjoint {A} (l1 l2 : list A) x :
  NoDup (l1 ++ l2) -> In x l1 -> In x l2 -> False.
Proof.
  induction l1 as [|a l1 IH]; simpl; intros Hnd H1 H2; [easy|].
  inversion Hnd as [|y ys Hnotin Hnd']; subst.
  destruct H1 as [-> | H1]; [|now apply IH].
  apply Hnotin, in_or_app. now right.
Qed.

Lemma NoDup_flat_map_disjoint {A B} (f : A -> list B) (l : list A) a b x :
  NoDup (flat_map f l) -> In a l -> In b l -> In x (f a) -> In x (f b) -> a = b.
Proof.
  induction l as [|c l IH]; simpl; intros Hnd Ha Hb Hxa Hxb; [easy|].
  destruct Ha as [-> | Ha], Hb as [-> | Hb]; trivial.
  - exfalso. apply (NoDup_app_disjoint _ _ x Hnd Hxa).
    apply in_flat_map. eauto.
  - exfalso. apply (NoDup_app_disjoint _ _ x Hnd Hxb).
    apply in_flat_map. eauto.
  - apply IH; trivial. now apply NoDup_app_remove_l in Hnd.
Qed.

Lemma flat_map_map {A B C} (g : A -> B) (f : B -> list C) (l : list A) :
  flat_map f (map g l) = flat_map (fun a => f (g a)) l.
Proof. induction l as [|a l IH]; simpl; [reflexivity|]. now rewrite IH. Qed.

Section LoadedPuzzle.
Variable cats : list (object Category).
Hypothesis Hloaded : loadedPuzzle cats.

Lemma loaded_length : length cats = 4.
Proof.
  destruct Hloaded as (_ & Hlv & _).
  apply (f_equal (@length Z)) in Hlv. now rewrite !length_map in Hlv.
Qed.

Lemma loaded_ref_inj a b : In a cats -> In b cats -> ref a = ref b -> a = b.
Proof. destruct Hloaded as (Hnd & _). now apply NoDup_map_inj. Qed.

Lemma loaded_items_nodup : NoDup (flat_map (fun c => items (val c)) cats).
Proof.
  destruct Hloaded as (_ & _ & _ & Hnd). now rewrite flat_map_map in Hnd.
Qed.

Lemma loaded_items_disjoint a b x :
  In a cats -> In b cats ->
  In x (items (val a)) -> In x (items (val b)) -> a = b.
Proof.
  intros Ha Hb.
  exact (NoDup_flat_map_disjoint (fun c => items (val c)) cats a b x
                                 loaded_items_nodup Ha Hb).
Qed.

Lemma loaded_items_length c : In c cats -> length (items (val c)) = 4.
Proof.
  intros Hc. destruct Hloaded as (_ & _ & Hall & _).
  rewrite Forall_forall in Hall. apply Hall. now apply in_map.
Qed.

Lemma loaded_includes_self (cleared : list (object Category)) c :
  In c cleared -> includes cleared c = true.
Proof. intros Hc. apply includes_true_iff. eauto. Qed.

(** Among the categories of the puzzle, [includes] decides membership. *)
Lemma loaded_includes cleared c :
  (forall c', In c' cleared -> In c' cats) -> In c cats ->
  (includes cleared c = true <-> In c cleared).
Proof.
  intros Hsub Hc. split; [|apply loaded_includes_self].
  intros H. apply includes_true_iff in H. destruct H as (y & Hy & E).
  assert (y = c) by (apply loaded_ref_inj; auto). now subst.
Qed.

End LoadedPuzzle.

(** ** The round invariant *)

(** The invariant only reads the texts on the board, the selection and the
    cleared categories. *)
Lemma boardInv_board cats s s' :
  boardInv cats s ->
  Permutation (texts (gameWords s)) (texts (gameWords s')) ->
  clearedCategories s' = clearedCategories s ->
  length (selectedWords s') <= 4 ->
  boardInv cats s'.
Proof.
  intros [Hnd Hsound Hcomp Hin Hcl Hsel] Hperm Ecl Hsel'.
  constructor; rewrite ?Ecl; trivial.
  - eapply Permutation_NoDup; eauto.
  - intros x Hx. apply Hsound. eapply Permutation_in; [|exact Hx].
    now apply Permutation_sym.
  - intros c x Hc Hi Hx. eapply Permutation_in; [exact Hperm|]. eauto.
Qed.

Lemma boardInv_selectWord cats w s :
  boardInv cats s -> boardInv cats (selectWord w s).
Proof.
  intros H. apply boardInv_board with (s := s); trivial.
  - rewrite selectWord_texts. apply Permutation_refl.
  - apply selectWord_frame.
  - apply selectWord_capped; apply H.
Qed.

Lemma boardInv_shuffleWords cats sh s :
  shuffles sh -> boardInv cats s -> boardInv cats (shuffleWords sh s).
Proof.
  intros Hsh H. apply boardInv_board with (s := s); trivial.
  - simpl. apply Permutation_map, Permutation_sym, Hsh.
  - unfold selectedWords. simpl.
    rewrite (Permutation_length (selectedOf_perm _ _ (Hsh (gameWords s)))).
    apply H.
Qed.

Lemma boardInv_deselectAllWords cats s :
  boardInv cats s -> boardInv cats (deselectAllWords s).
Proof.
  intros H. apply boardInv_board with (s := s); trivial.
  - rewrite deselectAllWords_unfold. simpl. rewrite deselectAll_texts.
    apply Permutation_refl.
  - rewrite deselectAllWords_unfold. reflexivity.
  - rewrite deselectAllWords_unfold. unfold selectedWords. simpl.
    rewrite selectedOf_unselected; [simpl; lia|]. apply deselectAll_unselected.
Qed.

Lemma boardInv_recorded cats s : boardInv cats s -> boardInv cats (recorded s).
Proof.
  intros H. apply boardInv_board with (s := s); trivial;
    try apply Permutation_refl; apply H.
Qed.

Lemma boardInv_mistakes cats m s :
  boardInv cats s -> boardInv cats (setMistakesRemaning m s).
Proof.
  intros H. apply boardInv_board with (s := s); trivial;
    try apply Permutation_refl; apply H.
Qed.

Lemma boardInv_flags cats s :
  boardInv cats s ->
  boardInv cats (setIsWon true s) /\ boardInv cats (setIsLost true s).
Proof.
  intros H. split; apply boardInv_board with (s := s); trivial;
    try apply Permutation_refl; apply H.
Qed.

Lemma allocAll_val {A} (l : list A) next : map val (fst (allocAll next l)) = l.
Proof.
  revert next. induction l as [|a l IH]; intros next; simpl; [reflexivity|].
  specialize (IH (S next)). destruct (allocAll (S next) l). simpl in *.
  now rewrite IH.
Qed.

Lemma puzzleWords_texts cats :
  map word (puzzleWords cats) = flat_map (fun c => items (val c)) cats.
Proof.
  unfold puzzleWords. induction cats as [|c cats IH]; simpl; [reflexivity|].
  rewrite map_app, IH, map_map. simpl. now rewrite map_id.
Qed.

Lemma puzzleWords_unselected cats :
  Forall (fun w => selected w = None) (puzzleWords cats).
Proof.
  unfold puzzleWords. apply Forall_flat_map. apply Forall_forall. intros c _.
  apply Forall_map. apply Forall_forall. intros w _. reflexivity.
Qed.

Lemma selectedOf_none l :
  Forall (fun item => truthy (selected (val item)) = false) l ->
  selectedOf l = [].
Proof.
  induction 1 as [|a l Ha _ IH]; simpl; [reflexivity|]. now rewrite Ha.
Qed.

Lemma puzzleEffect_unfold sh cats s :
  cats <> [] ->
  puzzleEffect sh (Some cats) s
  = mkState (sh (fst (allocAll (heapNext s) (puzzleWords cats))))
            [] false false 4 []
            (snd (allocAll (heapNext s) (puzzleWords cats))).
Proof.
  intros Hne. unfold puzzleEffect. destruct cats as [|c cats]; [easy|].
  now destruct (allocAll (heapNext s) (puzzleWords (c :: cats))).
Qed.

(** The puzzle effect starts a round that satisfies the invariant. *)
Lemma boardInv_puzzleEffect sh cats s :
  loadedPuzzle cats -> shuffles sh ->
  boardInv cats (puzzleEffect sh (Some cats) s).
Proof.
  intros Hl Hsh.
  assert (Hne : cats <> []).
  { intros ->. pose proof (loaded_length _ Hl). discriminate. }
  rewrite (puzzleEffect_unfold sh cats s Hne).
  set (words := fst (allocAll (heapNext s) (puzzleWords cats))).
  assert (Htexts : Permutation (texts (sh words))
                               (flat_map (fun c => items (val c)) cats)).
  { eapply Permutation_trans; [apply Permutation_map, Hsh|].
    unfold texts, wordOf. rewrite <- (map_map val word).
    unfold words. rewrite allocAll_val, puzzleWords_texts.
    apply Permutation_refl. }
  constructor; simpl.
  - eapply Permutation_NoDup; [apply Permutation_sym, Htexts|].
    now apply loaded_items_nodup.
  - intros x Hx. apply (Permutation_in _ Htexts) in Hx.
    apply in_flat_map in Hx. destruct Hx as (c & Hc & Hx). eauto.
  - intros c x Hc _ Hx. apply (Permutation_in _ (Permutation_sym Htexts)).
    apply in_flat_map. eauto.
  - easy.
  - constructor.
  - unfold selectedWords. simpl.
    rewrite (Permutation_length (selectedOf_perm _ _ (Hsh words))).
    rewrite selectedOf_none; [simpl; lia|].
    apply Forall_forall. intros item Hitem.
    pose proof (puzzleWords_unselected cats) as Hun.
    rewrite Forall_forall in Hun.
    assert (In (val item) (puzzleWords cats)) as Hin.
    { rewrite <- (allocAll_val (puzzleWords cats) (heapNext s)).
      now apply in_map. }
    now rewrite (Hun _ Hin).
Qed.

Lemma NoDup_texts_filter (f : object Word -> bool) l :
  NoDup (texts l) -> NoDup (texts (filter f l)).
Proof.
  induction l as [|a l IH]; simpl; intros Hnd; [constructor|].
  inversion Hnd as [|x xs Hnotin Hnd']; subst.
  destruct (f a); simpl; auto. constructor; auto.
  intros Hin. apply Hnotin. unfold texts in *. apply in_map_iff in Hin.
  destruct Hin as (b & Eb & Hb). apply filter_In in Hb.
  apply in_map_iff. exists b. tauto.
Qed.

Lemma selectedOf_filter_le (f : object Word -> bool) l :
  length (selectedOf (filter f l)) <= length (selectedOf l).
Proof.
  induction l as [|a l IH]; simpl; [lia|].
  destruct (f a); simpl; destruct (truthy (selected (val a))); simpl; lia.
Qed.

(** The board filter of [getCorrectResult] and of the reveal loop. *)
Lemma in_texts_filter c l x :
  In x (texts (filter (fun item => negb (includesStr (items (val c))
                                                     (word (val item)))) l))
  <-> In x (texts l) /\ ~ In x (items (val c)).
Proof.
  unfold texts. rewrite !in_map_iff. split.
  - intros (item & E & Hin). apply filter_In in Hin. destruct Hin as (Hin & Hf).
    apply negb_true_iff, includesStr_false_iff in Hf. unfold wordOf in E.
    subst x. split; [exists item; now split | exact Hf].
  - intros ((item & E & Hin) & Hx). exists item. split; trivial.
    apply filter_In. split; trivial.
    apply negb_true_iff, includesStr_false_iff. unfold wordOf in E. now subst x.
Qed.

Lemma includes_snoc_false (cleared : list (object Category)) c c0 :
  includes (cleared ++ [c]) c0 = false
  <-> includes cleared c0 = false /\ ref c <> ref c0.
Proof.
  rewrite includes_app, orb_false_iff. unfold includes at 2. simpl.
  rewrite orb_false_r. unfold sameObject. rewrite Nat.eqb_neq.
  intuition congruence.
Qed.

(** Clearing a category that is still on the board keeps the invariant. *)
Lemma boardInv_reveal cats c s :
  loadedPuzzle cats -> boardInv cats s -> In c cats ->
  includes (clearedCategories s) c = false ->
  boardInv cats (revealCategory c s).
Proof.
  intros Hl [Hnd Hsound Hcomp Hin Hcl Hsel] Hc Hunc.
  constructor; simpl.
  - now apply NoDup_texts_filter.
  - intros x Hx. apply in_texts_filter in Hx. destruct Hx as (Hx & Hnot).
    destruct (Hsound x Hx) as (c0 & Hc0 & Hunc0 & Hx0).
    exists c0. repeat split; trivial. apply includes_snoc_false.
    split; trivial. intros E.
    assert (c = c0) by (apply (loaded_ref_inj cats); auto). now subst.
  - intros c0 x Hc0 Hunc0 Hx0. apply includes_snoc_false in Hunc0.
    destruct Hunc0 as (Hunc0 & Hne). apply in_texts_filter. split; eauto.
    intros Hx. elim Hne. f_equal.
    apply (loaded_items_disjoint cats Hl c c0 x); auto.
  - intros c' Hc'. apply in_app_or in Hc'. destruct Hc' as [Hc' | [<- | []]]; auto.
  - rewrite map_app. simpl. apply NoDup_app; trivial.
    + repeat constructor. easy.
    + intros r Hr [<- | []]. apply in_map_iff in Hr.
      destruct Hr as (y & E & Hy).
      rewrite includes_false_iff in Hunc. now apply (Hunc y Hy).
  - unfold selectedWords. simpl.
    etransitivity; [apply selectedOf_filter_le | exact Hsel].
Qed.

Lemma getCorrectResult_state c s :
  snd (getCorrectResult c s) = revealCategory c s.
Proof.
  unfold getCorrectResult.
  now destruct (Nat.eqb (length (clearedCategories s)) 3).
Qed.

Lemma getCorrectResult_result c s :
  result (fst (getCorrectResult c s))
  = if Nat.eqb (length (clearedCategories s)) 3 then win else correct.
Proof.
  unfold getCorrectResult.
  now destruct (Nat.eqb (length (clearedCategories s)) 3).
Qed.

Lemma selected_on_board s item :
  In item (selectedWords s) -> In (wordOf item) (texts (gameWords s)).
Proof.
  intros H. apply filter_In in H. apply in_map. tauto.
Qed.

Lemma likeness_witness c s :
  (0 < likeness c s)%Z ->
  exists item, In item (selectedWords s) /\ In (wordOf item) (items (val c)).
Proof.
  unfold likeness. intros H.
  destruct (filter _ (selectedWords s)) as [|item l] eqn:E; [simpl in H; lia|].
  assert (In item (item :: l)) as Hin by now left. rewrite <- E in Hin.
  apply filter_In in Hin. destruct Hin as (Hin & Hf).
  apply includesStr_true_iff in Hf. eauto.
Qed.

Lemma likeness_full c s :
  likeness c s = Z.of_nat (length (selectedWords s)) -> matches c s.
Proof.
  unfold likeness, matches. intros H. apply Nat2Z.inj in H.
  now apply filter_length_forallb in H.
Qed.

Lemma matches_likeness c s :
  matches c s -> likeness c s = Z.of_nat (length (selectedWords s)).
Proof.
  intros H. unfold likeness. now rewrite forallb_filter_id.
Qed.

(** A category that holds a selected word has not been cleared. *)
Lemma likeness_uncleared cats c s :
  loadedPuzzle cats -> boardInv cats s -> In c cats -> (0 < likeness c s)%Z ->
  includes (clearedCategories s) c = false.
Proof.
  intros Hl Hinv Hc Hpos.
  destruct (likeness_witness c s Hpos) as (item & Hsel & Hx).
  destruct (inv_sound Hinv _ (selected_on_board s item Hsel))
    as (c0 & Hc0 & Hunc & Hx0).
  assert (c0 = c) by (apply (loaded_items_disjoint cats Hl c0 c (wordOf item)); auto).
  now subst.
Qed.

(** Once four categories are cleared the board is empty. *)
Lemma all_cleared_board_empty cats s :
  loadedPuzzle cats -> boardInv cats s ->
  length (clearedCategories s) = 4 -> gameWords s = [].
Proof.
  intros Hl Hinv Hlen.
  destruct (gameWords s) as [|item l] eqn:E; [reflexivity|]. exfalso.
  destruct (inv_sound Hinv (wordOf item)) as (c & Hc & Hunc & _).
  { rewrite E. now left. }
  assert (incl (map ref cats) (map ref (clearedCategories s))) as Hincl.
  { apply NoDup_length_incl.
    - apply (inv_cleared_nodup Hinv).
    - rewrite !length_map, Hlen, (loaded_length cats Hl). lia.
    - intros r Hr. apply in_map_iff in Hr. destruct Hr as (y & <- & Hy).
      apply in_map. now apply (inv_cleared_in Hinv). }
  assert (In (ref c) (map ref (clearedCategories s))) as Hr
      by (apply Hincl; now apply in_map).
  apply in_map_iff in Hr. destruct Hr as (y & E' & Hy).
  rewrite includes_false_iff in Hunc. now apply (Hunc y Hy).
Qed.

(** ** handleLoss *)

Lemma last_cons {A} (a : A) l d : last (a :: l) d = last l a.
Proof.
  revert a d. induction l as [|b l IH]; intros a d; [reflexivity|].
  change (last (a :: b :: l) d) with (last (b :: l) d).
  now rewrite !IH.
Qed.

Lemma filter_filter {A} (f g : A -> bool) l :
  filter f (filter g l) = filter (fun x => g x && f x) l.
Proof.
  induction l as [|a l IH]; simpl; [reflexivity|].
  destruct (g a); simpl; [destruct (f a)|]; now rewrite IH.
Qed.

Lemma without_cons c cs ws :
  without cs (filter (fun item => negb (includesStr (items (val c))
                                                    (word (val item)))) ws)
  = without (c :: cs) ws.
Proof.
  unfold without. rewrite filter_filter. apply filter_ext. intros item. simpl.
  now rewrite negb_orb.
Qed.

Lemma without_nil ws : without [] ws = ws.
Proof. unfold without. simpl. apply filter_true. Qed.

Lemma remaining_spec cats cleared c :
  In c (remainingCategories cats cleared)
  <-> In c cats /\ includes cleared c = false.
Proof.
  unfold remainingCategories. rewrite filter_In, negb_true_iff. tauto.
Qed.



(** The state after the whole loop. *)
Lemma revealAll_last rem s :
  clearedCategories (last (revealAll rem s) s) = clearedCategories s ++ rem
  /\ gameWords (last (revealAll rem s) s) = without rem (gameWords s)
  /\ isWon (last (revealAll rem s) s) = isWon s
  /\ isLost (last (revealAll rem s) s) = isLost s
  /\ mistakesRemaining (last (revealAll rem s) s) = mistakesRemaining s
  /\ guessHistoryRef (last (revealAll rem s) s) = guessHistoryRef s.
Proof.
  revert s. induction rem as [|c rem IH]; intros s.
  - simpl. rewrite app_nil_r, without_nil. auto 10.
  - simpl revealAll. rewrite last_cons.
    destruct (IH (revealCategory c s)) as (Hc & Hg & Hw & Hl & Hm & Hh).
    rewrite Hc, Hg, Hw, Hl, Hm, Hh.
    cbn [clearedCategories gameWords isWon isLost mistakesRemaining
         guessHistoryRef revealCategory setGameWords setClearedCategories].
    rewrite <- app_assoc, without_cons. auto 10.
Qed.

Lemma boardInv_revealAll cats rem :
  loadedPuzzle cats -> NoDup (map ref rem) ->
  forall s,
    (forall c, In c rem -> In c cats /\ includes (clearedCategories s) c = false) ->
    boardInv cats s -> boardInv cats (last (revealAll rem s) s).
Proof.
  intros Hl. induction rem as [|c rem IH]; intros Hnd s Hrem Hinv; [exact Hinv|].
  simpl revealAll. rewrite last_cons.
  inversion Hnd as [|x xs Hnotin Hnd']; subst.
  destruct (Hrem c (or_introl eq_refl)) as (Hc & Hunc).
  apply IH; trivial.
  - intros c' Hc'. destruct (Hrem c' (or_intror Hc')) as (Hin & Hunc').
    split; trivial. simpl. apply includes_snoc_false. split; trivial.
    intros E. apply Hnotin. rewrite E. now apply in_map.
  - now apply boardInv_reveal.
Qed.

Lemma filter_nil_iff {A} (f : A -> bool) l :
  (forall x, In x l -> f x = false) -> filter f l = [].
Proof.
  induction l as [|a l IH]; intros H; simpl; [reflexivity|].
  rewrite (H a (or_introl eq_refl)). apply IH. intros; apply H; now right.
Qed.

Lemma NoDup_map_filter {A B} (f : A -> B) (p : A -> bool) l :
  NoDup (map f l) -> NoDup (map f (filter p l)).
Proof.
  induction l as [|a l IH]; simpl; intros Hnd; [constructor|].
  inversion Hnd as [|x xs Hnotin Hnd']; subst.
  destruct (p a); simpl; auto. constructor; auto.
  intros Hin. apply Hnotin. apply in_map_iff in Hin.
  destruct Hin as (b & Eb & Hb). apply filter_In in Hb.
  apply in_map_iff. exists b. tauto.
Qed.

Lemma handleLoss_unfold cats cl s :
  handleLoss (Some cats) cl s
  = let s1 := setHeapNext (snd (deselectAll (heapNext s) (gameWords cl)))
                (setGameWords (fst (deselectAll (heapNext s) (gameWords cl))) s) in
    let reveals := revealAll (remainingCategories cats (clearedCategories cl)) s1 in
    s1 :: reveals ++ [setIsLost true (last reveals s1)].
Proof. unfold handleLoss. now destruct (deselectAll _ _). Qed.

(** Where [handleLoss] ends when it runs on the state its closure saw (up to
    the counters [getIncorrectResult] has just written). *)
Lemma handleLoss_final cats cl s :
  loadedPuzzle cats -> boardInv cats s ->
  gameWords cl = gameWords s -> clearedCategories cl = clearedCategories s ->
  let sf := last (handleLoss (Some cats) cl s) s in
  boardInv cats sf /\ gameWords sf = [] /\ isLost sf = true
  /\ isWon sf = isWon s
  /\ clearedCategories sf
     = clearedCategories s ++ remainingCategories cats (clearedCategories s)
  /\ mistakesRemaining sf = mistakesRemaining s
  /\ guessHistoryRef sf = guessHistoryRef s.
Proof.
  intros Hl Hinv Eg Ec. rewrite handleLoss_unfold. cbv zeta.
  set (s1 := setHeapNext _ _).
  set (rem := remainingCategories cats (clearedCategories cl)).
  rewrite last_cons, last_last.
  assert (Hinv1 : boardInv cats s1).
  { apply boardInv_board with (s := s); trivial.
    - unfold s1. simpl. rewrite deselectAll_texts, Eg. apply Permutation_refl.
    - unfold s1, selectedWords. simpl.
      rewrite selectedOf_unselected; [simpl; lia|]. apply deselectAll_unselected. }
  assert (Hrem : forall c, In c rem ->
                           In c cats /\ includes (clearedCategories s1) c = false).
  { intros c Hc. apply remaining_spec in Hc. now rewrite Ec in Hc. }
  assert (Hnd : NoDup (map ref rem)).
  { apply NoDup_map_filter. apply Hl. }
  pose proof (boardInv_revealAll cats rem Hl Hnd s1 Hrem Hinv1) as Hinvl.
  destruct (revealAll_last rem s1) as (Hc & Hg & Hw & Hlo & Hm & Hh).
  assert (Hempty : gameWords (last (revealAll rem s1) s1) = []).
  { rewrite Hg. apply filter_nil_iff. intros item Hitem.
    apply negb_false_iff, existsb_exists.
    destruct (inv_sound Hinv1 (wordOf item)) as (c & Hin & Hunc & Hx).
    { now apply in_map. }
    exists c. split.
    - apply remaining_spec. rewrite Ec. now split.
    - now apply includesStr_true_iff. }
  split; [apply boardInv_flags, Hinvl|].
  simpl. rewrite Hempty, Hw, Hc, Hm, Hh. unfold rem. rewrite Ec.
  unfold s1. simpl. auto 10.
Qed.

(** ** Every reachable page satisfies the invariant *)

Lemma Some_inj {A} (a b : A) : Some a = Some b -> a = b.
Proof. congruence. Qed.

(** The three ways [getSubmitResult] returns on a loaded puzzle. *)
Lemma getSubmitResult_cases cats s r s' :
  getSubmitResult (Some cats) s = Some (r, s') ->
  (sameGuess s = true /\ r = mkResult same /\ s' = s)
  \/ (sameGuess s = false /\ maxLikeness cats s <> Num 4%Z
      /\ (r, s') = getIncorrectResult (maxLikeness cats s) (recorded s))
  \/ (sameGuess s = false /\ maxLikeness cats s = Num 4%Z
      /\ exists c, In c cats /\ likeness c s = 4%Z
                   /\ (r, s') = getCorrectResult c (recorded s)).
Proof.
  intros H. destruct (sameGuess s) eqn:Hs.
  - rewrite (getSubmitResult_same cats s Hs) in H. inversion H. auto.
  - destruct (number_eqb (maxLikeness cats s) (Num 4%Z)) eqn:Hm.
    + apply number_eqb_eq in Hm.
      destruct (getSubmitResult_correct cats s Hs Hm) as (k & c & Hk & Hl & _ & E).
      rewrite E in H. inversion H as [E']. right. right.
      repeat split; trivial. exists c. repeat split; trivial.
      eapply nth_error_In; eauto.
    + apply number_eqb_neq in Hm.
      rewrite (getSubmitResult_incorrect cats s Hs Hm) in H. inversion H as [E'].
      right. left. auto.
Qed.

Lemma controlsDisabled_none p :
  puzzleCategories p = None -> controlsDisabled p = true.
Proof.
  intros E. unfold controlsDisabled. rewrite E. apply orb_true_r.
Qed.

Lemma controlsEnabled_puzzle p :
  controlsDisabled p = false ->
  exists cats, puzzleCategories p = Some cats /\ length cats = 4.
Proof.
  unfold controlsDisabled. intros H. apply orb_false_iff in H.
  destruct H as (_ & H). destruct (puzzleCategories p) as [cats|]; [|discriminate].
  exists cats. split; trivial. apply negb_false_iff in H.
  now apply Nat.eqb_eq.
Qed.

Lemma inProgressButtons_flags p :
  inProgressButtons p = true ->
  isWon (game p) = false /\ isLost (game p) = false.
Proof.
  unfold inProgressButtons. intros H. apply andb_true_iff in H.
  destruct H as (H1 & H2). now apply negb_true_iff in H1, H2.
Qed.

Lemma pageInv_setGame p g :
  (forall cats,
      puzzleCategories p = Some cats -> loadedPuzzle cats ->
      boardInv cats (game p) ->
      boardInv cats g
      /\ (isWon g = true -> gameWords g = [])
      /\ (isLost g = true -> gameWords g = [])
      /\ (isLost g = true -> mistakesRemaining g = 0%Z)) ->
  (puzzleCategories p = None -> g = initialState) ->
  pageInv p -> pageInv (setGame g p).
Proof.
  unfold pageInv. simpl. intros Hsome Hnone Hinv.
  destruct (puzzleCategories p) as [cats|].
  - destruct Hinv as (Hl & Hb & _). split; trivial. now apply Hsome.
  - now apply Hnone.
Qed.

(** [handleSubmit] on a page whose controls are enabled and whose round is
    still open. *)
Lemma pageInv_handleSubmit p p' :
  pageInv p -> inProgressButtons p = true ->
  handleSubmit p = Some p' -> pageInv p'.
Proof.
  intros Hinv Hprog H. unfold handleSubmit in H.
  destruct (controlsDisabled p) eqn:Hcd; [inversion H; now subst|].
  destruct (controlsEnabled_puzzle p Hcd) as (cats & Hp & Hlen).
  destruct (inProgressButtons_flags p Hprog) as (Hwon & Hlost).
  rewrite Hp in H.
  destruct (getSubmitResult (Some cats) (game p)) as [[r g']|] eqn:Hres;
    [|discriminate].
  assert (Hinv' := Hinv). unfold pageInv in Hinv'. rewrite Hp in Hinv'.
  destruct Hinv' as (Hl & Hb & _).
  apply getSubmitResult_cases in Hres.
  destruct Hres as [(_ & -> & ->) | [(_ & _ & E) | (_ & _ & c & Hc & Hlk & E)]].
  - simpl in H. apply Some_inj in H. subst p'. apply pageInv_setGame; trivial.
    + intros cats' Hp' _ Hb'. split; trivial. rewrite Hwon, Hlost.
      split; [|split]; discriminate.
    + intros Hn. congruence.
  - pose proof (getIncorrectResult_state (maxLikeness cats (game p))
                                         (recorded (game p))) as St.
    rewrite <- E in St. simpl in St.
    assert (Hb' : boardInv cats g').
    { subst g'. apply boardInv_mistakes, boardInv_recorded, Hb. }
    assert (Hflags : isWon g' = false /\ isLost g' = false).
    { subst g'. simpl. now split. }
    assert (Hkeep : pageInv (setGame g' p)).
    { apply pageInv_setGame; trivial; [|congruence].
      intros cats' Hp' _ _. assert (cats' = cats) by congruence. subst cats'.
      split; trivial. destruct Hflags as (-> & ->).
      split; [|split]; discriminate. }
    pose proof (getIncorrectResult_result (maxLikeness cats (game p))
                                          (recorded (game p))) as Re.
    rewrite <- E in Re. simpl in Re.
    destruct (result r) eqn:Hr; apply Some_inj in H; subst p'; trivial.
    + apply pageInv_setGame; trivial; [|congruence].
      intros cats' Hp' _ _. assert (cats' = cats) by congruence. subst cats'.
      destruct (handleLoss_final cats (game p) g' Hl Hb')
        as (Hf & Hempty & _ & _ & _ & Hmist & _); [now subst g' | now subst g' |].
      split; trivial. split; [intros _; exact Hempty|].
      split; [intros _; exact Hempty|]. intros _. rewrite Hmist. subst g'.
      simpl. destruct (Z.eqb_spec (mistakesRemaining (game p)) 1); [lia|].
      destruct (number_eqb _ _); discriminate.
    + destruct (mistakesRemaining (game p) =? 1)%Z; [discriminate|].
      destruct (number_eqb _ _); discriminate.
  - pose proof (getCorrectResult_state c (recorded (game p))) as St.
    pose proof (getCorrectResult_result c (recorded (game p))) as Re.
    rewrite <- E in St, Re. simpl in St, Re.
    assert (Hb' : boardInv cats g').
    { subst g'. apply boardInv_reveal; trivial.
      - apply boardInv_recorded, Hb.
      - apply (likeness_uncleared cats c (game p)); trivial. lia. }
    assert (Hflags : isWon g' = false /\ isLost g' = false).
    { subst g'. simpl. now split. }
    assert (Hkeep : pageInv (setGame g' p)).
    { apply pageInv_setGame; trivial; [|congruence].
      intros cats' Hp' _ _. assert (cats' = cats) by congruence. subst cats'.
      split; trivial. destruct Hflags as (-> & ->).
      split; [|split]; discriminate. }
    destruct (result r) eqn:Hr; apply Some_inj in H; subst p'; trivial.
    + (* loss cannot come out of getCorrectResult *)
      destruct (Nat.eqb (length (clearedCategories (game p))) 3); discriminate.
    + (* win *)
      apply pageInv_setGame; trivial; [|congruence].
      intros cats' Hp' _ _. assert (cats' = cats) by congruence. subst cats'.
      destruct (Nat.eqb_spec (length (clearedCategories (game p))) 3) as [E3|];
        [|discriminate].
      assert (Hempty : gameWords g' = []).
      { apply (all_cleared_board_empty cats); trivial.
        subst g'. simpl. rewrite length_app, E3. reflexivity. }
      split; [apply boardInv_flags, Hb'|]. simpl.
      split; [intros _; exact Hempty|]. destruct Hflags as (_ & ->).
      split; discriminate.
Qed.

Theorem reachable_inv p : reachable p -> pageInv p.
Proof.
  induction 1 as [ | p Hr IH | p msg Hr IH | p sh cats Hr IH Hsh Hl
                   | p w Hr IH | p sh Hr IH Hsh | p Hr IH | p p' Hr IH Hs ].
  - reflexivity.
  - exact IH.
  - exact IH.
  - assert (Hne : cats <> []).
    { intros ->. pose proof (loaded_length _ Hl). discriminate. }
    unfold pageInv, loadPuzzleOk. cbn [puzzleCategories game].
    split; trivial. split; [now apply boardInv_puzzleEffect|].
    rewrite (puzzleEffect_unfold sh cats (game p) Hne). simpl.
    split; [|split]; discriminate.
  - unfold onClickCell. destruct (controlsDisabled p); trivial.
    apply pageInv_setGame; trivial.
    + intros cats Hp Hl Hb. split; [now apply boardInv_selectWord|].
      unfold pageInv in IH. rewrite Hp in IH.
      destruct IH as (_ & _ & Hw & Hlo & Hm).
      destruct (selectWord_frame w (game p)) as (_ & Ew & El & Em & _).
      rewrite Ew, El, Em.
      split; [|split]; intros Hflag; rewrite ?selectWord_empty; auto.
    + intros Hp. unfold pageInv in IH. rewrite Hp in IH. rewrite IH.
      now apply selectWord_empty.
  - unfold clickShuffle.
    destruct (inProgressButtons p && negb (shuffleUnclickable p)) eqn:Hc; trivial.
    apply andb_true_iff in Hc. destruct Hc as (Hprog & Hcl).
    apply negb_true_iff in Hcl. unfold shuffleUnclickable in Hcl.
    apply orb_false_iff in Hcl. destruct Hcl as (_ & Hcd).
    destruct (controlsEnabled_puzzle p Hcd) as (cats & Hp & _).
    destruct (inProgressButtons_flags p Hprog) as (Hwon & Hlost).
    apply pageInv_setGame; trivial; [|congruence].
    intros cats' Hp' Hl Hb. split; [now apply boardInv_shuffleWords|].
    simpl. rewrite Hwon, Hlost. split; [|split]; discriminate.
  - unfold clickDeselectAll.
    destruct (inProgressButtons p && negb (deselectUnclickable p)) eqn:Hc; trivial.
    apply andb_true_iff in Hc. destruct Hc as (Hprog & Hcl).
    apply negb_true_iff in Hcl. unfold deselectUnclickable in Hcl.
    apply orb_false_iff in Hcl. destruct Hcl as (_ & Hcd).
    destruct (controlsEnabled_puzzle p Hcd) as (cats & Hp & _).
    destruct (inProgressButtons_flags p Hprog) as (Hwon & Hlost).
    apply pageInv_setGame; trivial; [|congruence].
    intros cats' Hp' Hl Hb. split; [now apply boardInv_deselectAllWords|].
    rewrite deselectAllWords_unfold. simpl. rewrite Hwon, Hlost.
    split; [|split]; discriminate.
  - unfold clickSubmit in Hs.
    destruct (inProgressButtons p && negb (submitUnclickable p)) eqn:Hc.
    + apply andb_true_iff in Hc. destruct Hc as (Hprog & _).
      now apply (pageInv_handleSubmit p p').
    + inversion Hs. now subst.
Qed.

(** ** The concrete session is reachable *)

Lemma example_puzzle_loaded : loadedPuzzle Examples.puzzle.
Proof.
  split.
  - repeat constructor; simpl; intuition discriminate.
  - split; [reflexivity|]. split.
    + repeat constructor.
    + repeat constructor; simpl; intuition discriminate.
Qed.

Lemma reachable_clicks ws p : reachable p -> reachable (Examples.clicks ws p).
Proof.
  revert p. induction ws as [|w ws IH]; intros p H; simpl; trivial.
  apply IH. now apply reach_click.
Qed.

Lemma reachable_submit p : reachable p -> reachable (Examples.submit p).
Proof.
  intros H. unfold Examples.submit.
  destruct (clickSubmit p) as [p'|] eqn:E; trivial.
  now apply reach_submit with (p := p).
Qed.

Lemma reachable_started : reachable Examples.started.
Proof.
  apply reach_loadOk.
  - apply reach_loadStart, reach_mount.
  - intros l. apply Permutation_refl.
  - apply example_puzzle_loaded.
Qed.

Lemma reachable_picked : reachable Examples.picked.
Proof. apply reachable_clicks, reachable_started. Qed.

Lemma reachable_pickedFruit : reachable Examples.pickedFruit.
Proof. apply reachable_clicks, reachable_started. Qed.

Lemma reachable_lastChance : reachable Examples.lastChance.
Proof.
  apply reachable_clicks, reachable_submit, reachable_clicks, reachable_submit,
    reachable_clicks, reachable_submit, reachable_picked.
Qed.

Lemma reachable_lost : reachable Examples.lost.
Proof. apply reachable_submit, reachable_lastChance. Qed.

(** ** Claims about selection *)

Lemma Forall2_In_r {A B} (R : A -> B -> Prop) l l' b :
  Forall2 R l l' -> In b l' -> exists a, In a l /\ R a b.
Proof.
  induction 1 as [|x y l l' Hxy _ IH]; simpl; [easy|].
  intros [<- | Hb]; [eauto|]. destruct (IH Hb) as (a & Ha & Hab). eauto.
Qed.

Lemma unselectedOn_iff w l :
  unselectedOn w l = true
  <-> forall item, In item l -> word (val item) = word w ->
                   truthy (selected (val item)) = false.
Proof.
  split; [intros H item; now apply unselectedOn_spec|].
  intros H. unfold unselectedOn. apply forallb_forall. intros item Hin.
  unfold wordOf.
  destruct (String.eqb_spec (word w) (word (val item))) as [E|]; trivial.
  simpl. rewrite (H item Hin); auto.
Qed.

Lemma selectedOn_iff w l :
  selectedOn w l = true
  <-> forall item, In item l -> word (val item) = word w ->
                   truthy (selected (val item)) = true.
Proof.
  unfold selectedOn. rewrite forallb_forall. unfold wordOf.
  split; intros H item Hin.
  - intros E. specialize (H item Hin). rewrite E, String.eqb_refl in H.
    exact H.
  - destruct (String.eqb_spec (word w) (word (val item))) as [E|]; trivial.
    simpl. auto.
Qed.

(** A toggle deselects every selected tile that carries the word, whatever
    the size of the selection, and touches no other tile. *)
Lemma selectWord_deselects w s :
  Forall2 (fun item item' =>
             wordOf item' = wordOf item
             /\ (wordOf item <> word w -> item' = item)
             /\ (wordOf item = word w ->
                 truthy (selected (val item)) = true ->
                 truthy (selected (val item')) = false))
          (gameWords s) (gameWords (selectWord w s)).
Proof.
  eapply Forall2_impl; [|apply selectWord_toggled].
  intros a b (Hw & _ & Hne & Heq). unfold wordOf. repeat split; trivial.
  intros E Hsel. rewrite (Heq E), Hsel.
  now destruct (Nat.ltb (length (selectedWords s)) 4).
Qed.

(** With fewer than four words selected a toggle selects the unselected
    word. *)
Lemma selectWord_selects w s :
  length (selectedWords s) < 4 -> unselectedOn w (gameWords s) = true ->
  selectedOn w (gameWords (selectWord w s)) = true.
Proof.
  intros Hn Hun. apply selectedOn_iff. intros item' Hin' Ew'.
  destruct (Forall2_In_r _ _ _ _ (selectWord_toggled w s) Hin')
    as (item & Hin & Hw & _ & _ & Heq).
  rewrite Heq by congruence.
  rewrite (unselectedOn_spec w _ item Hun Hin) by congruence.
  destruct (Nat.ltb_spec (length (selectedWords s)) 4); [reflexivity | lia].
Qed.

(** Two toggles in a row on an unselected word leave it unselected. *)
Lemma selectWord_twice w s :
  unselectedOn w (gameWords s) = true ->
  unselectedOn w (gameWords (selectWord w (selectWord w s))) = true.
Proof.
  intros Hun. apply unselectedOn_iff. intros item2 Hin2 Ew2.
  destruct (Forall2_In_r _ _ _ _ (selectWord_toggled w (selectWord w s)) Hin2)
    as (item1 & Hin1 & Hw1 & _ & _ & Heq1).
  destruct (Forall2_In_r _ _ _ _ (selectWord_toggled w s) Hin1)
    as (item0 & Hin0 & Hw0 & _ & _ & Heq0).
  assert (E1 : word (val item1) = word w) by congruence.
  assert (E0 : word (val item0) = word w) by congruence.
  rewrite (Heq1 E1), (Heq0 E0).
  rewrite (unselectedOn_spec w _ item0 Hun Hin0 E0).
  destruct (Nat.ltb_spec (length (selectedWords s)) 4) as [Hlt | Hge].
  - simpl. now destruct (Nat.ltb _ 4).
  - destruct (selectWord_noop w s Hge Hun) as (Esel & _). rewrite Esel.
    destruct (Nat.ltb_spec (length (selectedWords s)) 4); [lia | reflexivity].
Qed.

Lemma pageInv_capped p : pageInv p -> length (selectedWords (game p)) <= 4.
Proof.
  unfold pageInv. destruct (puzzleCategories p) as [cats|].
  - intros (_ & Hb & _). apply Hb.
  - intros ->. simpl. lia.
Qed.

(** C5: on every reachable page the selection holds at most four words, also
    after one more toggle (through the grid or directly); a toggle deselects
    the word when it is selected, whatever the size of the selection, and
    leaves every other tile alone; toggling an unselected word twice in a row
    leaves it unselected (selected in between when fewer than four words were
    selected); and with four words selected a toggle of an unselected word
    changes nothing: the selection is the same list of tiles, every tile shows
    the same text, level and selected state, and the rest of the engine state
    is untouched. *)
Theorem selection_capped (p : Page) (w : Word) :
  reachable p ->
  length (selectedWords (game p)) <= 4
  /\ length (selectedWords (game (onClickCell w p))) <= 4
  /\ length (selectedWords (selectWord w (game p))) <= 4
  /\ Forall2 (fun item item' =>
                wordOf item' = wordOf item
                /\ (wordOf item <> word w -> item' = item)
                /\ (wordOf item = word w ->
                    truthy (selected (val item)) = true ->
                    truthy (selected (val item')) = false))
             (gameWords (game p)) (gameWords (selectWord w (game p)))
  /\ (unselectedOn w (gameWords (game p)) = true ->
      (length (selectedWords (game p)) < 4 ->
       selectedOn w (gameWords (selectWord w (game p))) = true)
      /\ unselectedOn w (gameWords (selectWord w (selectWord w (game p))))
         = true)
  /\ (length (selectedWords (game p)) = 4 ->
      unselectedOn w (gameWords (game p)) = true ->
      selectedWords (selectWord w (game p)) = selectedWords (game p)
      /\ map view (gameWords (selectWord w (game p)))
         = map view (gameWords (game p))
      /\ clearedCategories (selectWord w (game p)) = clearedCategories (game p)
      /\ mistakesRemaining (selectWord w (game p)) = mistakesRemaining (game p)
      /\ guessHistoryRef (selectWord w (game p)) = guessHistoryRef (game p)
      /\ isWon (selectWord w (game p)) = isWon (game p)
      /\ isLost (selectWord w (game p)) = isLost (game p)).
Proof.
  intros Hr.
  pose proof (pageInv_capped p (reachable_inv p Hr)) as H0.
  pose proof (pageInv_capped _ (reachable_inv _ (@reach_click p w Hr))) as H1.
  assert (H2 : length (selectedWords (selectWord w (game p))) <= 4).
  { pose proof (reachable_inv p Hr) as Hinv. unfold pageInv in Hinv.
    destruct (puzzleCategories p) as [cats|].
    - destruct Hinv as (_ & Hb & _). apply (boardInv_selectWord cats w) in Hb.
      apply Hb.
    - rewrite Hinv. simpl. lia. }
  split; [exact H0|]. split; [exact H1|]. split; [exact H2|].
  split; [apply selectWord_deselects|]. split.
  - intros Hun. split.
    + intros Hlt. now apply selectWord_selects.
    + now apply selectWord_twice.
  - intros H4 Hun.
    destruct (selectWord_noop w (game p)) as (Esel & Eview); trivial; [lia|].
    destruct (selectWord_frame w (game p)) as (Ec & Ew & El & Em & Eh).
    auto 10.
Qed.

Lemma selection_capped_witness :
  length (selectedWords (game Examples.picked)) <= 4
  /\ selectedOn (Examples.tile "KIWI")
                (gameWords (selectWord (Examples.tile "KIWI")
                                       (game Examples.started))) = true
  /\ unselectedOn (Examples.tile "KIWI")
                  (gameWords (selectWord (Examples.tile "KIWI")
                                (selectWord (Examples.tile "KIWI")
                                            (game Examples.started)))) = true
  /\ selectedWords (selectWord (Examples.tile "KIWI") (game Examples.picked))
     = selectedWords (game Examples.picked).
Proof.
  destruct (selection_capped Examples.picked (Examples.tile "KIWI")
                             reachable_picked) as (H0 & _ & _ & _ & _ & H5).
  destruct (selection_capped Examples.started (Examples.tile "KIWI")
                             reachable_started) as (_ & _ & _ & _ & H4 & _).
  split; [exact H0|].
  destruct (H4 eq_refl) as (Hsel & Htwice).
  split; [apply Hsel; vm_compute; lia|]. split; [exact Htwice|].
  apply H5; reflexivity.
Defined.

(** ** Claims about the loss reveal *)




(** Under the invariant the cleared categories and those still to reveal
    make up the puzzle. *)
Lemma cleared_and_remaining cats s :
  loadedPuzzle cats -> boardInv cats s ->
  (forall c, In c cats ->
             In c (clearedCategories s
                     ++ remainingCategories cats (clearedCategories s)))
  /\ length (clearedCategories s
               ++ remainingCategories cats (clearedCategories s)) = 4.
Proof.
  intros Hl Hinv.
  set (rem := remainingCategories cats (clearedCategories s)).
  assert (Hall : forall c, In c cats -> In c (clearedCategories s ++ rem)).
  { intros c Hc. apply in_or_app.
    destruct (includes (clearedCategories s) c) eqn:E.
    - left. apply (loaded_includes cats Hl (clearedCategories s) c); trivial.
      apply (inv_cleared_in Hinv).
    - right. apply remaining_spec. now split. }
  split; trivial.
  assert (Hin : forall c, In c (clearedCategories s ++ rem) -> In c cats).
  { intros c Hc. apply in_app_or in Hc. destruct Hc as [Hc | Hc].
    - now apply (inv_cleared_in Hinv).
    - now apply remaining_spec in Hc. }
  assert (Hnd : NoDup (map ref (clearedCategories s ++ rem))).
  { rewrite map_app. apply NoDup_app.
    - apply (inv_cleared_nodup Hinv).
    - apply NoDup_map_filter. apply Hl.
    - intros r Hr1 Hr2. apply in_map_iff in Hr1, Hr2.
      destruct Hr1 as (a & Ea & Ha). destruct Hr2 as (b & Eb & Hb).
      apply remaining_spec in Hb. destruct Hb as (_ & Hb).
      rewrite includes_false_iff in Hb. apply (Hb a Ha). congruence. }
  apply Nat.le_antisymm.
  - rewrite <- (loaded_length cats Hl), <- (length_map ref),
      <- (length_map ref cats).
    apply NoDup_incl_length; trivial.
    intros r Hr. apply in_map_iff in Hr. destruct Hr as (a & <- & Ha).
    apply in_map. auto.
  - rewrite <- (loaded_length cats Hl), <- (length_map ref),
      <- (length_map ref (clearedCategories s ++ rem)).
    apply NoDup_incl_length; [apply Hl|].
    intros r Hr. apply in_map_iff in Hr. destruct Hr as (a & <- & Ha).
    apply in_map. auto.
Qed.



(** ** Claims about a correct guess *)

Lemma fold_max_ge_in (l : list Z) (a y : Z) :
  In y l -> (y <= fold_left Z.max l a)%Z.
Proof.
  revert a. induction l as [|x l IH]; intros a Hy; [easy|]. simpl.
  destruct Hy as [-> | Hy]; [|now apply IH].
  pose proof (fold_max_ge l (Z.max a y)). lia.
Qed.

Lemma Math_max_ge (l : list Z) (y : Z) :
  In y l -> exists z, Math_max l = Num z /\ (y <= z)%Z.
Proof.
  destruct l as [|x r]; [easy|]. intros Hy. simpl. eexists. split; [reflexivity|].
  destruct Hy as [-> | Hy]; [apply fold_max_ge | now apply fold_max_ge_in].
Qed.

(** Four selected words that all lie in one category give likeness 4. *)
Lemma maxLikeness_of_match cats c s :
  In c cats -> length (selectedWords s) = 4 -> matches c s ->
  maxLikeness cats s = Num 4%Z.
Proof.
  intros Hc Hlen Hm.
  pose proof (matches_likeness c s Hm) as Hlk. rewrite Hlen in Hlk.
  destruct (Math_max_ge (likenessCounts cats s) 4%Z) as (z & Ez & Hz).
  { rewrite likenessCounts_eq. apply in_map_iff. exists c. split; trivial. }
  pose proof (maxLikeness_bound cats s z Ez) as Hub. rewrite Hlen in Hub.
  unfold maxLikeness. rewrite Ez. f_equal. lia.
Qed.

Lemma filter_length_le_impl {A} (f g : A -> bool) l :
  (forall x, f x = true -> g x = true) ->
  length (filter f l) <= length (filter g l).
Proof.
  intros H. induction l as [|a l IH]; simpl; [lia|].
  destruct (f a) eqn:E.
  - rewrite (H a E). simpl. lia.
  - destruct (g a); simpl; lia.
Qed.

(** On a board without repeated texts, a category that holds four selected
    words holds exactly four tiles. *)
Lemma board_shrinks_by_four c s :
  NoDup (texts (gameWords s)) -> length (items (val c)) = 4 ->
  likeness c s = 4%Z ->
  length (filter (fun item => negb (includesStr (items (val c))
                                                (word (val item))))
                 (gameWords s)) + 4
  = length (gameWords s).
Proof.
  intros Hnd Hitems Hlk.
  set (f := fun item : object Word =>
              includesStr (items (val c)) (word (val item))).
  pose proof (filter_length f (gameWords s)) as Hsplit.
  assert (Hge : 4 <= length (filter f (gameWords s))).
  { unfold likeness in Hlk. fold f in Hlk.
    unfold selectedWords, selectedOf in Hlk. rewrite filter_filter in Hlk.
    assert (length (filter (fun x => truthy (selected (val x)) && f x)
                           (gameWords s)) = 4) as E by lia.
    rewrite <- E. apply filter_length_le_impl.
    intros x Hx. now apply andb_true_iff in Hx. }
  assert (Hle : length (filter f (gameWords s)) <= 4).
  { rewrite <- Hitems, <- (length_map wordOf).
    apply NoDup_incl_length; [now apply NoDup_texts_filter|].
    intros x Hx. apply in_map_iff in Hx. destruct Hx as (item & <- & Hin).
    apply filter_In in Hin. destruct Hin as (_ & Hf).
    now apply includesStr_true_iff. }
  change (length (filter (fun x => negb (f x)) (gameWords s)) + 4
          = length (gameWords s)).
  lia.
Qed.

Lemma cleared_at_most_four cats s :
  loadedPuzzle cats -> boardInv cats s -> length (clearedCategories s) <= 4.
Proof.
  intros Hl Hinv.
  rewrite <- (loaded_length cats Hl), <- (length_map ref),
    <- (length_map ref cats).
  apply NoDup_incl_length; [apply (inv_cleared_nodup Hinv)|].
  intros r Hr. apply in_map_iff in Hr. destruct Hr as (a & <- & Ha).
  apply in_map. now apply (inv_cleared_in Hinv).
Qed.

(** An empty board means that all four categories are cleared. *)
Lemma board_empty_all_cleared cats s :
  loadedPuzzle cats -> boardInv cats s -> gameWords s = [] ->
  length (clearedCategories s) = 4.
Proof.
  intros Hl Hinv Hempty. apply Nat.le_antisymm;
    [now apply (cleared_at_most_four cats)|].
  rewrite <- (loaded_length cats Hl), <- (length_map ref),
    <- (length_map ref (clearedCategories s)).
  apply NoDup_incl_length; [apply Hl|].
  intros r Hr. apply in_map_iff in Hr. destruct Hr as (c & <- & Hc).
  destruct (includes (clearedCategories s) c) eqn:E.
  - apply includes_true_iff in E. destruct E as (y & Hy & <-). now apply in_map.
  - exfalso. pose proof (loaded_items_length cats Hl c Hc) as Hlen.
    destruct (items (val c)) as [|x xs] eqn:Ei; [discriminate|].
    assert (In x (texts (gameWords s))) as Hx.
    { apply (inv_complete Hinv c x Hc E). rewrite Ei. now left. }
    now rewrite Hempty in Hx.
Qed.

(** C4: on a reachable page, a new guess of four words that all belong to
    the category [c] of the puzzle (with four selected words on a board of
    distinct words: exactly the items of [c]) is answered by appending [c]
    to the cleared categories, which grow by one, and filtering its words off
    the board, which shrinks by four; the mistake counter is untouched; the
    answer is "win" when three categories were cleared before and "correct"
    otherwise, and it is "win" exactly when the board becomes empty. *)
Theorem correct_guess (p : Page) (cats : list (object Category))
        (c : object Category) :
  reachable p -> puzzleCategories p = Some cats -> In c cats ->
  length (selectedWords (game p)) = 4 -> sameGuess (game p) = false ->
  matches c (game p) ->
  exists r s',
    getSubmitResult (Some cats) (game p) = Some (r, s')
    /\ clearedCategories s' = clearedCategories (game p) ++ [c]
    /\ length (clearedCategories s') = S (length (clearedCategories (game p)))
    /\ gameWords s'
       = filter (fun item => negb (includesStr (items (val c))
                                               (word (val item))))
                (gameWords (game p))
    /\ length (gameWords s') + 4 = length (gameWords (game p))
    /\ (forall x, In x (texts (selectedWords (game p)))
                  <-> In x (items (val c)))
    /\ mistakesRemaining s' = mistakesRemaining (game p)
    /\ result r = (if Nat.eqb (length (clearedCategories (game p))) 3
                   then win else correct)
    /\ (result r = win <-> gameWords s' = []).
Proof.
  intros Hr Hp Hc Hlen Hsame Hmatch.
  pose proof (reachable_inv p Hr) as Hinv. unfold pageInv in Hinv.
  rewrite Hp in Hinv. destruct Hinv as (Hl & Hb & _).
  pose proof (maxLikeness_of_match cats c (game p) Hc Hlen Hmatch) as Hmax.
  destruct (getSubmitResult_correct cats (game p) Hsame Hmax)
    as (k & c' & Hk & Hlk' & _ & E).
  assert (Hc' : In c' cats) by (eapply nth_error_In; eauto).
  assert (c' = c) as ->.
  { assert (Hm' : matches c' (game p)).
    { apply likeness_full. now rewrite Hlen. }
    destruct (selectedWords (game p)) as [|item sel] eqn:Esel; [discriminate|].
    unfold matches in Hmatch, Hm'. rewrite Esel in Hmatch, Hm'.
    simpl in Hmatch, Hm'. apply andb_true_iff in Hmatch, Hm'.
    destruct Hmatch as (Hx & _). destruct Hm' as (Hx' & _).
    apply includesStr_true_iff in Hx, Hx'.
    apply (loaded_items_disjoint cats Hl c' c (word (val item))); auto. }
  pose proof (getCorrectResult_state c (recorded (game p))) as St.
  pose proof (getCorrectResult_result c (recorded (game p))) as Re.
  destruct (getCorrectResult c (recorded (game p))) as [r s'].
  simpl in St, Re. exists r, s'. split; [exact E|]. subst s'. simpl.
  assert (Hunc : includes (clearedCategories (game p)) c = false).
  { apply (likeness_uncleared cats c (game p)); trivial. lia. }
  assert (Hb' : boardInv cats (revealCategory c (recorded (game p)))).
  { apply boardInv_reveal; trivial. apply boardInv_recorded, Hb. }
  split; [reflexivity|]. split; [rewrite length_app; simpl; lia|].
  split; [reflexivity|]. split.
  { apply board_shrinks_by_four; trivial; [apply Hb|].
    now apply (loaded_items_length cats Hl). }
  split.
  { intros x. split.
    - intros Hx. apply in_map_iff in Hx. destruct Hx as (item & <- & Hin).
      unfold matches in Hmatch. rewrite forallb_forall in Hmatch.
      apply includesStr_true_iff. now apply Hmatch.
    - apply NoDup_length_incl.
      + apply NoDup_texts_filter, Hb.
      + unfold texts. rewrite length_map.
        fold (selectedWords (game p)). rewrite Hlen.
        now rewrite (loaded_items_length cats Hl c Hc).
      + intros y Hy. apply in_map_iff in Hy. destruct Hy as (item & <- & Hin).
        unfold matches in Hmatch. rewrite forallb_forall in Hmatch.
        apply includesStr_true_iff. now apply Hmatch. }
  split; [reflexivity|]. split; [exact Re|]. rewrite Re.
  destruct (Nat.eqb_spec (length (clearedCategories (game p))) 3) as [E3 | N3].
  - split; trivial. intros _.
    apply (all_cleared_board_empty cats _ Hl Hb'). simpl.
    rewrite length_app, E3. reflexivity.
  - split; [discriminate|]. intros Hempty. exfalso. apply N3.
    pose proof (board_empty_all_cleared cats _ Hl Hb' Hempty) as H4.
    simpl in H4. rewrite length_app in H4. simpl in H4. lia.
Qed.

Lemma correct_guess_witness :
  exists r s',
    getSubmitResult (Some Examples.puzzle) (game Examples.pickedFruit)
    = Some (r, s')
    /\ clearedCategories s' = [Examples.fruit]
    /\ length (gameWords s') + 4 = length (gameWords (game Examples.pickedFruit))
    /\ mistakesRemaining s' = 4%Z
    /\ result r = correct.
Proof.
  destruct (correct_guess Examples.pickedFruit Examples.puzzle Examples.fruit)
    as (r & s' & Hres & Hcl & _ & _ & Hlen & _ & Hm & Hr & _).
  - exact reachable_pickedFruit.
  - reflexivity.
  - left. reflexivity.
  - reflexivity.
  - reflexivity.
  - reflexivity.
  - exists r, s'. repeat split; trivial.
Defined.

(* ------------------------------------------------------------------------- *)
(** ** The puzzle provider *)

Import Route.

Lemma mapSet_keys {V} (k : string) (v : V) m k' :
  In k' (mapKeys (mapSet k v m)) -> k' = k \/ In k' (mapKeys m).
Proof.
  unfold mapKeys. induction m as [|[k0 v0] m IH]; simpl.
  - intros [<- | []]. now left.
  - destruct (String.eqb k k0); simpl.
    + intros [<- | H]; auto.
    + intros [<- | H]; auto. destruct (IH H); auto.
Qed.

Lemma mapGet_In {V} (k : string) (m : list (string * V)) v :
  mapGet k m = Some v -> In k (mapKeys m).
Proof.
  unfold mapKeys. induction m as [|[k0 v0] m IH]; simpl; [discriminate|].
  destruct (String.eqb_spec k k0); auto.
Qed.

Lemma insertBy_perm {A} (cmp : A -> A -> Z) x l :
  Permutation (insertBy cmp x l) (x :: l).
Proof.
  induction l as [|y l IH]; simpl; [apply Permutation_refl|].
  destruct (cmp x y <=? 0)%Z; [apply Permutation_refl|].
  eapply Permutation_trans; [apply perm_skip, IH | apply perm_swap].
Qed.

Lemma sortBy_perm {A} (cmp : A -> A -> Z) l : Permutation (sortBy cmp l) l.
Proof.
  unfold sortBy. induction l as [|x l IH]; simpl; [constructor|].
  eapply Permutation_trans; [apply insertBy_perm | now apply perm_skip].
Qed.

Lemma sortBy_In {A} (cmp : A -> A -> Z) l x : In x (sortBy cmp l) <-> In x l.
Proof.
  split; apply Permutation_in;
    [apply sortBy_perm | apply Permutation_sym, sortBy_perm].
Qed.

Section Provider.
Variables toLowerCase toUpperCase trim : string -> string.
Variable toNumber : string -> option Z.
Variable localeCompare : string -> string -> Z.
Variable todayNz : string.

Lemma buildPuzzles1_keys header rows puzzles k :
  In k (mapKeys (buildPuzzles1 toNumber todayNz header rows puzzles)) ->
  In k (mapKeys puzzles) \/ servable todayNz k.
Proof.
  revert puzzles. induction rows as [|row rows IH]; intros puzzles; simpl;
    [now left|].
  destruct (at_ row (indexOfStr header "date")) as [d|] eqn:Ed; simpl.
  - destruct (isIsoDate d) eqn:Hiso; simpl; [|apply IH].
    destruct (gtStr d todayNz) eqn:Hgt; [apply IH|].
    intros H. apply IH in H. destruct H as [H | H]; [|now right].
    apply mapSet_keys in H. destruct H as [-> | H]; [right | now left].
    now split.
  - apply IH.
Qed.

Lemma buildPuzzles1_filter header rows puzzles :
  buildPuzzles1 toNumber todayNz header rows puzzles
  = buildPuzzles1 toNumber todayNz header
      (filter (fun row => negb (futureRow1 todayNz header row)) rows) puzzles.
Proof.
  revert puzzles. induction rows as [|row rows IH]; intros puzzles;
    [reflexivity|].
  simpl. unfold futureRow1.
  destruct (at_ row (indexOfStr header "date")) as [d|] eqn:Ed; simpl.
  - destruct (isIsoDate d) eqn:Hiso; simpl.
    + destruct (gtStr d todayNz) eqn:Hgt; simpl; [apply IH|].
      rewrite Ed. simpl. rewrite Hiso, Hgt. simpl. apply IH.
    + rewrite Ed. simpl. rewrite Hiso. simpl. apply IH.
  - rewrite Ed. simpl. apply IH.
Qed.

Lemma buildPuzzles2_keys iDate iLevel iCategory iW1 iW2 iW3 iW4 rows puzzles k :
  In k (mapKeys (buildPuzzles2 toUpperCase trim toNumber todayNz iDate iLevel
                               iCategory iW1 iW2 iW3 iW4 rows puzzles)) ->
  In k (mapKeys puzzles) \/ servable todayNz k.
Proof.
  revert puzzles. induction rows as [|row rows IH]; intros puzzles; simpl;
    [now left|].
  destruct (isIsoDate (trim (orEmpty (at_ row iDate)))) eqn:Hiso; simpl;
    [|apply IH].
  destruct (gtStr (trim (orEmpty (at_ row iDate))) todayNz) eqn:Hgt;
    [apply IH|].
  destruct (isLevel _); simpl; [|apply IH].
  destruct (nonEmpty _); simpl; [|apply IH].
  destruct (Nat.eqb _ 4); simpl; [|apply IH].
  intros H. apply IH in H. destruct H as [H | H]; [|now right].
  apply mapSet_keys in H. destruct H as [-> | H]; [right | now left].
  now split.
Qed.

Lemma buildPuzzles2_filter iDate iLevel iCategory iW1 iW2 iW3 iW4 rows puzzles :
  buildPuzzles2 toUpperCase trim toNumber todayNz iDate iLevel iCategory
                iW1 iW2 iW3 iW4 rows puzzles
  = buildPuzzles2 toUpperCase trim toNumber todayNz iDate iLevel iCategory
      iW1 iW2 iW3 iW4
      (filter (fun row => negb (futureRow2 trim todayNz iDate row)) rows)
      puzzles.
Proof.
  revert puzzles. induction rows as [|row rows IH]; intros puzzles;
    [reflexivity|].
  simpl. unfold futureRow2.
  destruct (isIsoDate (trim (orEmpty (at_ row iDate)))) eqn:Hiso; simpl.
  - destruct (gtStr (trim (orEmpty (at_ row iDate))) todayNz) eqn:Hgt; simpl;
      [apply IH|].
    rewrite Hiso, Hgt. simpl.
    destruct (isLevel _); simpl; [|apply IH].
    destruct (nonEmpty _); simpl; [|apply IH].
    destruct (Nat.eqb _ 4); simpl; apply IH.
  - rewrite Hiso. simpl. apply IH.
Qed.

End Provider.

Section ProviderResponses.
Variables toLowerCase toUpperCase trim : string -> string.
Variable toNumber : string -> option Z.
Variable localeCompare : string -> string -> Z.
Variables (spreadsheetId : option string) (todayNz : string)
          (dateQuery : option string) (fetched : Fetched).

Abbreviation GET1 := (GET1 toLowerCase toNumber spreadsheetId todayNz dateQuery
                       fetched).
Abbreviation GET2 := (GET2 toLowerCase toUpperCase trim toNumber localeCompare
                       spreadsheetId todayNz dateQuery fetched).

(** First revision: a request for a date after today is answered 403,
    or 500 when the sheet id is not configured. *)
Lemma GET1_future :
  gtStr (requestedDate1 todayNz dateQuery) todayNz = true ->
  exists message,
    GET1 = ErrorResponse (if match spreadsheetId with
                             | None | Some EmptyString => true
                             | _ => false
                             end then 500 else 403)%Z
                         (mkError message None None).
Proof.
  intros Hgt. unfold Route.GET1.
  destruct spreadsheetId as [[|c sid]|]; try (eexists; reflexivity).
  rewrite Hgt, orb_true_r. eexists; reflexivity.
Qed.

(** Second revision: 403 for a well-formed date after today, 400 for a
    malformed one, 500 when the sheet id is not configured. *)
Lemma GET2_future :
  gtStr (requestedDateOf trim todayNz dateQuery) todayNz = true ->
  exists message,
    GET2 = ErrorResponse
             (if match spreadsheetId with
                 | None | Some EmptyString => true
                 | _ => false
                 end then 500
              else if isIsoDate (requestedDateOf trim todayNz dateQuery)
                   then 403 else 400)%Z
             (mkError message None None).
Proof.
  intros Hgt. unfold Route.GET2.
  destruct spreadsheetId as [[|c sid]|]; try (eexists; reflexivity).
  destruct (isIsoDate (requestedDateOf trim todayNz dateQuery)); simpl;
    [rewrite Hgt|]; eexists; reflexivity.
Qed.

(** What the first revision returns on success. *)
Lemma GET1_ok date today availableDates categories :
  GET1 = PuzzleResponse date today availableDates categories ->
  exists row0 rows,
    fetched = Values (Some (row0 :: rows))
    /\ date = requestedDate1 todayNz dateQuery /\ today = todayNz
    /\ servable todayNz date
    /\ availableDates
       = rev (sortBy defaultCompare
                (mapKeys (buildPuzzles1 toNumber todayNz
                                        (map toLowerCase row0) rows [])))
    /\ categories
       = mapGet date (buildPuzzles1 toNumber todayNz (map toLowerCase row0)
                                    rows []).
Proof.
  unfold Route.GET1.
  destruct spreadsheetId as [[|c sid]|]; try discriminate.
  destruct (isIsoDate (requestedDate1 todayNz dateQuery)) eqn:Hiso;
    [|discriminate]. simpl.
  destruct (gtStr (requestedDate1 todayNz dateQuery) todayNz) eqn:Hgt;
    [discriminate|].
  destruct fetched as [message | [[|row0 rows]|]]; try discriminate.
  intros E. inversion E; subst. exists row0, rows.
  repeat split; trivial.
Qed.

(** What the second revision returns: on success, and in the error bodies
    that list the available dates. *)
Lemma GET2_dates :
  forall availableDates,
    (exists date today categories,
        GET2 = PuzzleResponse date today availableDates categories)
    \/ (exists status body,
           GET2 = ErrorResponse status body
           /\ errorAvailableDates body = Some availableDates) ->
    exists row0 rows,
      fetched = Values (Some (row0 :: rows))
      /\ availableDates
         = sortBy (fun a b => localeCompare b a)
             (mapKeys
                (let idx := indexOfStr
                              (map (fun h => toLowerCase (trim h)) row0) in
                 buildPuzzles2 toUpperCase trim toNumber todayNz
                   (idx "date"%string) (idx "level"%string) (idx "category"%string)
                   (idx "word1"%string) (idx "word2"%string) (idx "word3"%string)
                   (idx "word4"%string) rows [])).
Proof.
  intros avail H. unfold Route.GET2 in H.
  destruct spreadsheetId as [[|c sid]|];
    try (destruct H as [(? & ? & ? & H) | (? & ? & H & H')];
         [discriminate | inversion H; subst; discriminate]).
  destruct (isIsoDate (requestedDateOf trim todayNz dateQuery));
    try (destruct H as [(? & ? & ? & H) | (? & ? & H & H')];
         [discriminate | inversion H; subst; discriminate]).
  simpl in H.
  destruct (gtStr (requestedDateOf trim todayNz dateQuery) todayNz);
    try (destruct H as [(? & ? & ? & H) | (? & ? & H & H')];
         [discriminate | inversion H; subst; discriminate]).
  destruct fetched as [message | [[|row0 [|row1 rows]]|]];
    try (destruct H as [(? & ? & ? & H) | (? & ? & H & H')];
         [discriminate | inversion H; subst; discriminate]).
  exists row0, (row1 :: rows). split; [reflexivity|].
  destruct (missingColumns _);
    try (destruct H as [(? & ? & ? & H) | (? & ? & H & H')];
         [discriminate | inversion H; subst; discriminate]).
  cbv zeta in *.
  repeat match type of H with
         | context [if ?b then _ else _] => destruct b
         end;
    destruct H as [(? & ? & ? & H) | (? & ? & H & H')];
    try discriminate; inversion H; subst; simpl in *;
      try discriminate; congruence.
Qed.

End ProviderResponses.

(** ** String order on ISO dates is calendar order *)

Lemma digit_bounds c : isDigit c = true -> (0 <= digitVal c <= 9)%Z.
Proof.
  unfold isDigit, digitVal. intros H. apply andb_true_iff in H.
  destruct H as (H1 & H2). apply Nat.leb_le in H1, H2. lia.
Qed.

Lemma digit_compare c1 c2 :
  isDigit c1 = true -> isDigit c2 = true ->
  Ascii.compare c1 c2 = Z.compare (digitVal c1) (digitVal c2).
Proof.
  unfold isDigit, digitVal, Ascii.compare, nat_of_ascii. intros H1 H2.
  apply andb_true_iff in H1, H2. destruct H1 as (A1 & B1), H2 as (A2 & B2).
  apply Nat.leb_le in A1, B1, A2, B2.
  rewrite <- N2Z.inj_compare.
  destruct (Z.compare_spec (Z.of_N (N_of_ascii c1)) (Z.of_N (N_of_ascii c2)));
    symmetry; [apply Z.compare_eq_iff | apply Z.compare_lt_iff
               | apply Z.compare_gt_iff]; lia.
Qed.

Lemma isIsoDate_chars s :
  isIsoDate s = true ->
  exists y1 y2 y3 y4 m1 m2 d1 d2,
    s = String y1 (String y2 (String y3 (String y4 (String "-"
          (String m1 (String m2 (String "-" (String d1 (String d2
             EmptyString)))))))))
    /\ isDigit y1 = true /\ isDigit y2 = true /\ isDigit y3 = true
    /\ isDigit y4 = true /\ isDigit m1 = true /\ isDigit m2 = true
    /\ isDigit d1 = true /\ isDigit d2 = true.
Proof.
  unfold isIsoDate. intros H.
  rewrite <- (string_of_list_ascii_of_string s).
  destruct (list_ascii_of_string s)
    as [|y1 [|y2 [|y3 [|y4 [|h1 [|m1 [|m2 [|h2 [|d1 [|d2 [|x l]]]]]]]]]]];
    try discriminate.
  repeat (apply andb_true_iff in H; destruct H as (H & ?)).
  unfold isHyphen in *.
  repeat match goal with
         | E : Ascii.eqb _ _ = true |- _ => apply Ascii.eqb_eq in E; subst
         end.
  assert (isDigit y1 = true)
    by (unfold isDigit; apply andb_true_iff; split; assumption).
  exists y1, y2, y3, y4, m1, m2, d1, d2. simpl. auto 12.
Qed.

(** On well-formed dates, [a > b] as strings says that [a] is a later day. *)
Lemma iso_order a b :
  isIsoDate a = true -> isIsoDate b = true ->
  (gtStr a b = true <-> laterDay (calendarOf a) (calendarOf b)).
Proof.
  intros Ha Hb.
  destruct (isIsoDate_chars a Ha)
    as (a1 & a2 & a3 & a4 & a5 & a6 & a7 & a8 & -> & A1 & A2 & A3 & A4 & A5
        & A6 & A7 & A8).
  destruct (isIsoDate_chars b Hb)
    as (b1 & b2 & b3 & b4 & b5 & b6 & b7 & b8 & -> & B1 & B2 & B3 & B4 & B5
        & B6 & B7 & B8).
  unfold gtStr, String.ltb, calendarOf, laterDay.
  cbn [String.compare list_ascii_of_string].
  change (Ascii.compare "-" "-") with Eq. cbv iota.
  rewrite !digit_compare by assumption.
  pose proof (digit_bounds a1 A1). pose proof (digit_bounds a2 A2).
  pose proof (digit_bounds a3 A3). pose proof (digit_bounds a4 A4).
  pose proof (digit_bounds a5 A5). pose proof (digit_bounds a6 A6).
  pose proof (digit_bounds a7 A7). pose proof (digit_bounds a8 A8).
  pose proof (digit_bounds b1 B1). pose proof (digit_bounds b2 B2).
  pose proof (digit_bounds b3 B3). pose proof (digit_bounds b4 B4).
  pose proof (digit_bounds b5 B5). pose proof (digit_bounds b6 B6).
  pose proof (digit_bounds b7 B7). pose proof (digit_bounds b8 B8).
  repeat match goal with
         | |- context [Z.compare ?x ?y] =>
             destruct (Z.compare_spec x y)
         end;
    (split; [intros E; try discriminate E; lia | intros E; try reflexivity; lia]).
Qed.

(** A servable date is never a later day than today. *)
Lemma servable_not_later todayNz d :
  isIsoDate todayNz = true -> servable todayNz d ->
  ~ laterDay (calendarOf d) (calendarOf todayNz).
Proof.
  intros Ht (Hd & Hgt) Hlater. apply (iso_order d todayNz Hd Ht) in Hlater.
  congruence.
Qed.

Section ProviderDates.
Variables toLowerCase toUpperCase trim : string -> string.
Variable toNumber : string -> option Z.
Variable localeCompare : string -> string -> Z.
Variables (spreadsheetId : option string) (todayNz : string)
          (dateQuery : option string) (fetched : Fetched).

Abbreviation get1 := (GET1 toLowerCase toNumber spreadsheetId todayNz dateQuery
                           fetched).
Abbreviation get2 := (GET2 toLowerCase toUpperCase trim toNumber localeCompare
                           spreadsheetId todayNz dateQuery fetched).

Lemma GET1_served date today availableDates categories :
  get1 = PuzzleResponse date today availableDates categories ->
  today = todayNz /\ servable todayNz date
  /\ Forall (servable todayNz) availableDates.
Proof.
  intros H. apply GET1_ok in H.
  destruct H as (row0 & rows & _ & _ & Ht & Hd & Ha & _).
  repeat split; trivial; try apply Hd.
  apply Forall_forall. intros d Hin. subst availableDates.
  apply in_rev, sortBy_In in Hin.
  apply buildPuzzles1_keys in Hin. destruct Hin as [[] | Hin]. exact Hin.
Qed.

Lemma GET2_available availableDates :
  (exists date today categories,
      get2 = PuzzleResponse date today availableDates categories)
  \/ (exists status body,
         get2 = ErrorResponse status body
         /\ errorAvailableDates body = Some availableDates) ->
  Forall (servable todayNz) availableDates.
Proof.
  intros H. apply GET2_dates in H. destruct H as (row0 & rows & _ & ->).
  apply Forall_forall. intros d Hin. apply sortBy_In in Hin.
  apply buildPuzzles2_keys in Hin. destruct Hin as [[] | Hin]. exact Hin.
Qed.

(** What the second revision returns on success. *)
Lemma GET2_ok date today availableDates categories :
  get2 = PuzzleResponse date today availableDates categories ->
  exists row0 rows puzzlesByDate,
    fetched = Values (Some (row0 :: rows))
    /\ puzzlesByDate
       = (let idx := indexOfStr (map (fun h => toLowerCase (trim h)) row0) in
          buildPuzzles2 toUpperCase trim toNumber todayNz
            (idx "date"%string) (idx "level"%string) (idx "category"%string)
            (idx "word1"%string) (idx "word2"%string) (idx "word3"%string)
            (idx "word4"%string) rows [])
    /\ today = todayNz
    /\ servable todayNz (requestedDateOf trim todayNz dateQuery)
    /\ availableDates
       = sortBy (fun a b => localeCompare b a) (mapKeys puzzlesByDate)
    /\ date
       = match dateParamOf trim dateQuery,
               mapHas (requestedDateOf trim todayNz dateQuery) puzzlesByDate,
               availableDates with
         | None, false, latest :: _ => latest
         | _, _, _ => requestedDateOf trim todayNz dateQuery
         end
    /\ categories
       = sortBy (fun a b => (level a - level b)%Z)
           (match mapGet date puzzlesByDate with Some cs => cs | None => [] end)
    /\ length categories = 4
    /\ setSizeZ (map level categories) = 4
    /\ setSizeStr (flat_map items categories) = 16.
Proof.
  unfold Route.GET2. intros H.
  destruct spreadsheetId as [[|c sid]|]; try discriminate H.
  destruct (isIsoDate (requestedDateOf trim todayNz dateQuery)) eqn:Hiso;
    [change (negb true) with false in H | discriminate H].
  cbv beta iota zeta in H.
  destruct (gtStr (requestedDateOf trim todayNz dateQuery) todayNz) eqn:Hgt;
    try discriminate H.
  destruct fetched as [message | [[|row0 [|row1 rows]]|]]; try discriminate H.
  destruct (missingColumns _); try discriminate H.
  match type of H with
  | context [buildPuzzles2 ?a ?b ?c ?d ?e ?f ?g ?h ?i ?j ?k ?l ?m] =>
      remember (buildPuzzles2 a b c d e f g h i j k l m) as M eqn:EM
  end.
  exists row0, (row1 :: rows), M. split; [reflexivity|]. split; [exact EM|].
  match type of H with
  | (if ?b1 then _ else if ?b2 then _ else if ?b3 then _ else _) = _ =>
      destruct b1 eqn:E1; [discriminate H|];
      destruct b2 eqn:E2; [discriminate H|];
      destruct b3 eqn:E3; [discriminate H|]
  end.
  inversion H; subst date today availableDates categories; clear H.
  apply negb_false_iff, Nat.eqb_eq in E1, E2, E3.
  repeat split; trivial.
Qed.

Lemma GET2_served date today availableDates categories :
  get2 = PuzzleResponse date today availableDates categories ->
  today = todayNz /\ servable todayNz date
  /\ Forall (servable todayNz) availableDates.
Proof.
  intros H.
  assert (Hav : Forall (servable todayNz) availableDates).
  { apply GET2_available. left. eauto. }
  apply GET2_ok in H.
  destruct H as (row0 & rows & M & _ & _ & Ht & Hreq & Ea & Ed & _).
  repeat split; trivial; subst date.
  - destruct (dateParamOf trim dateQuery); [apply Hreq|].
    destruct (mapHas _ M); [apply Hreq|].
    destruct availableDates as [|latest rest]; [apply Hreq|].
    inversion Hav; subst. now destruct H1.
  - destruct (dateParamOf trim dateQuery); [apply Hreq|].
    destruct (mapHas _ M); [apply Hreq|].
    destruct availableDates as [|latest rest]; [apply Hreq|].
    inversion Hav; subst. now destruct H1.
Qed.

End ProviderDates.

(** C8: in both revisions of the route, for every request: a requested date
    that is greater than today's NZ date is answered by an error response (403;
    400 in the second revision when it is malformed; 500 when no sheet id is
    configured); the puzzle map is the one built from the rows that are not
    dated after today, and all its keys are well-formed dates not after today;
    a puzzle response carries today's date as given, a date that is
    well formed and not after today, and only such dates in availableDates, as
    do the error bodies of the second revision that list them; and when
    today's date is well formed, no such date is a later calendar day than
    today. *)
Theorem never_a_future_puzzle
        (toLowerCase toUpperCase trim : string -> string)
        (toNumber : string -> option Z) (localeCompare : string -> string -> Z)
        (spreadsheetId : option string) (todayNz : string)
        (dateQuery : option string) (fetched : Fetched) :
  let get1 := GET1 toLowerCase toNumber spreadsheetId todayNz dateQuery fetched in
  let get2 := GET2 toLowerCase toUpperCase trim toNumber localeCompare
                   spreadsheetId todayNz dateQuery fetched in
  let unconfigured :=
    match spreadsheetId with None | Some EmptyString => true | _ => false end in
  (gtStr (requestedDate1 todayNz dateQuery) todayNz = true ->
   exists message,
     get1 = ErrorResponse (if unconfigured then 500 else 403)%Z
                          (mkError message None None))
  /\ (gtStr (requestedDateOf trim todayNz dateQuery) todayNz = true ->
      exists message,
        get2 = ErrorResponse
                 (if unconfigured then 500
                  else if isIsoDate (requestedDateOf trim todayNz dateQuery)
                       then 403 else 400)%Z
                 (mkError message None None))
  /\ (forall header rows,
         buildPuzzles1 toNumber todayNz header rows []
         = buildPuzzles1 toNumber todayNz header
             (filter (fun row => negb (futureRow1 todayNz header row)) rows) []
         /\ Forall (servable todayNz)
                   (mapKeys (buildPuzzles1 toNumber todayNz header rows [])))
  /\ (forall iDate iLevel iCategory iW1 iW2 iW3 iW4 rows,
         buildPuzzles2 toUpperCase trim toNumber todayNz iDate iLevel iCategory
                       iW1 iW2 iW3 iW4 rows []
         = buildPuzzles2 toUpperCase trim toNumber todayNz iDate iLevel
             iCategory iW1 iW2 iW3 iW4
             (filter (fun row => negb (futureRow2 trim todayNz iDate row)) rows)
             []
         /\ Forall (servable todayNz)
                   (mapKeys (buildPuzzles2 toUpperCase trim toNumber todayNz
                               iDate iLevel iCategory iW1 iW2 iW3 iW4 rows [])))
  /\ (forall date today availableDates categories,
         get1 = PuzzleResponse date today availableDates categories ->
         today = todayNz /\ servable todayNz date
         /\ Forall (servable todayNz) availableDates)
  /\ (forall date today availableDates categories,
         get2 = PuzzleResponse date today availableDates categories ->
         today = todayNz /\ servable todayNz date
         /\ Forall (servable todayNz) availableDates)
  /\ (forall status body availableDates,
         get2 = ErrorResponse status body ->
         errorAvailableDates body = Some availableDates ->
         Forall (servable todayNz) availableDates)
  /\ (isIsoDate todayNz = true ->
      forall d, servable todayNz d ->
                ~ laterDay (calendarOf d) (calendarOf todayNz)).
Proof.
  cbv zeta. split; [apply GET1_future|]. split; [apply GET2_future|].
  split.
  { intros header rows. split; [apply buildPuzzles1_filter|].
    apply Forall_forall. intros d Hd. apply buildPuzzles1_keys in Hd.
    now destruct Hd as [[] | Hd]. }
  split.
  { intros iDate iLevel iCategory iW1 iW2 iW3 iW4 rows.
    split; [apply buildPuzzles2_filter|].
    apply Forall_forall. intros d Hd. apply buildPuzzles2_keys in Hd.
    now destruct Hd as [[] | Hd]. }
  split; [apply GET1_served|]. split; [apply GET2_served|].
  split.
  { intros status body availableDates H1 H2.
    eapply GET2_available. right. eauto. }
  intros Ht d. now apply servable_not_later.
Qed.

Lemma never_a_future_puzzle_witness :
  (exists message,
      Examples.sheetGET1 (Some "2099-01-01"%string)
      = ErrorResponse 403%Z (mkError message None None))
  /\ (exists message,
         Examples.sheetGET2 (Some "2099-01-01"%string)
         = ErrorResponse 403%Z (mkError message None None))
  /\ (exists categories,
         Examples.sheetGET2 None
         = PuzzleResponse "2024-01-01"%string Examples.today
                          ["2024-01-01"%string] categories)
  /\ servable Examples.today "2024-01-01"%string
  /\ ~ laterDay (calendarOf "2024-01-01"%string) (calendarOf Examples.today).
Proof.
  pose proof (never_a_future_puzzle
                Examples.asIs Examples.asIs Examples.asIs Examples.levelNumber
                defaultCompare (Some "sheet-id"%string) Examples.today
                (Some "2099-01-01"%string) (Values (Some Examples.sheet)))
    as (H1 & H2 & _).
  pose proof (never_a_future_puzzle
                Examples.asIs Examples.asIs Examples.asIs Examples.levelNumber
                defaultCompare (Some "sheet-id"%string) Examples.today
                None (Values (Some Examples.sheet)))
    as (_ & _ & _ & _ & _ & H6 & _ & H8).
  split; [apply H1; reflexivity|]. split; [apply H2; reflexivity|].
  split; [eexists; vm_compute; reflexivity|].
  destruct (H6 "2024-01-01"%string Examples.today ["2024-01-01"%string]
               (map (@val Category)
                    [Examples.fruit; Examples.color; Examples.metal;
                     Examples.tool]))
    as (_ & Hserved & _); [vm_compute; reflexivity|].
  split; [exact Hserved|]. apply H8; [reflexivity | exact Hserved].
Defined.

(** ** A puzzle response of the second revision is a provided puzzle *)

Lemma mapSet_In {V} (k : string) (v : V) m k' v' :
  In (k', v') (mapSet k v m) -> (k' = k /\ v' = v) \/ In (k', v') m.
Proof.
  induction m as [|[k0 v0] m IH]; simpl.
  - intros [E | []]. inversion E. now left.
  - destruct (String.eqb k k0); simpl.
    + intros [E | H]; [inversion E; now left | now right; right].
    + intros [E | H]; [now right; left|]. destruct (IH H); auto.
Qed.

Lemma mapGet_value {V} (k : string) (m : list (string * V)) v :
  mapGet k m = Some v -> exists k', In (k', v) m.
Proof.
  induction m as [|[k0 v0] m IH]; simpl; [discriminate|].
  destruct (String.eqb k k0).
  - intros E. inversion E; subst. eauto.
  - intros H. destruct (IH H) as (k' & Hk'). eauto.
Qed.

Lemma isLevel_bounds n :
  isLevel n = true -> exists z, n = Some z /\ (1 <= z <= 4)%Z.
Proof.
  destruct n as [z|]; simpl; [|discriminate]. intros H. exists z.
  split; trivial. rewrite !orb_true_iff, !Z.eqb_eq in H. lia.
Qed.

Lemma buildPuzzles2_values toUpperCase trim toNumber todayNz
      iDate iLevel iCategory iW1 iW2 iW3 iW4 rows puzzles :
  (forall k cs, In (k, cs) puzzles -> Forall wellFormedRow cs) ->
  forall k cs,
    In (k, cs) (buildPuzzles2 toUpperCase trim toNumber todayNz iDate iLevel
                              iCategory iW1 iW2 iW3 iW4 rows puzzles) ->
    Forall wellFormedRow cs.
Proof.
  revert puzzles. induction rows as [|row rows IH]; intros puzzles Hp; simpl;
    [exact Hp|].
  destruct (isIsoDate _); simpl; [|now apply IH].
  destruct (gtStr _ todayNz); [now apply IH|].
  destruct (isLevel _) eqn:Hlv; simpl; [|now apply IH].
  destruct (nonEmpty _); simpl; [|now apply IH].
  destruct (Nat.eqb _ 4) eqn:Hlen; simpl; [|now apply IH].
  apply IH. intros k cs Hin. apply mapSet_In in Hin.
  destruct Hin as [(_ & ->) | Hin]; [|now apply (Hp k)].
  apply Forall_app. split.
  - destruct (mapGet _ puzzles) as [old|] eqn:Eg; [|constructor].
    destruct (mapGet_value _ _ _ Eg) as (k' & Hk'). now apply (Hp k').
  - constructor; [|constructor]. apply isLevel_bounds in Hlv.
    destruct Hlv as (z & -> & Hz). apply Nat.eqb_eq in Hlen.
    split; simpl; trivial.
Qed.

Lemma insertBy_sorted (l : list Category) x :
  StronglySorted (fun a b => (level a <= level b)%Z) l ->
  StronglySorted (fun a b => (level a <= level b)%Z)
                 (insertBy (fun a b => (level a - level b)%Z) x l).
Proof.
  induction 1 as [|y l Hs IH Hall]; simpl; [repeat constructor|].
  destruct (Z.leb_spec (level x - level y) 0).
  - constructor; [now constructor|]. constructor; [lia|].
    rewrite Forall_forall in *. intros z Hz. specialize (Hall z Hz). lia.
  - constructor; trivial. rewrite Forall_forall in *. intros z Hz.
    apply (Permutation_in _ (insertBy_perm _ x l)) in Hz.
    destruct Hz as [<- | Hz]; [lia | now apply Hall].
Qed.

Lemma sortBy_level_sorted (l : list Category) :
  StronglySorted (fun a b => (level a <= level b)%Z)
                 (sortBy (fun a b => (level a - level b)%Z) l).
Proof.
  unfold sortBy. induction l as [|x l IH]; simpl; [constructor|].
  now apply insertBy_sorted.
Qed.

Lemma nodup_length_le {A} (dec : forall x y : A, {x = y} + {x <> y}) l :
  length (nodup dec l) <= length l.
Proof.
  induction l as [|a l IH]; simpl; [lia|].
  destruct (in_dec dec a l); simpl; lia.
Qed.

Lemma nodup_full {A} (dec : forall x y : A, {x = y} + {x <> y}) l :
  length (nodup dec l) = length l -> NoDup l.
Proof.
  induction l as [|a l IH]; simpl; [constructor|].
  destruct (in_dec dec a l) as [Hin | Hnot]; simpl; intros H.
  - pose proof (nodup_length_le dec l). lia.
  - constructor; trivial. apply IH. lia.
Qed.

Lemma flat_map_length_const {A B} (f : A -> list B) n l :
  Forall (fun a => length (f a) = n) l -> length (flat_map f l) = length l * n.
Proof.
  induction 1 as [|a l Ha _ IH]; simpl; [reflexivity|].
  rewrite length_app, Ha, IH. lia.
Qed.

(** Four distinct levels between 1 and 4 in ascending order are 1, 2, 3, 4. *)
Lemma levels_one_to_four (cs : list Category) :
  length cs = 4 -> Forall wellFormedRow cs -> NoDup (map level cs) ->
  StronglySorted (fun a b => (level a <= level b)%Z) cs ->
  map level cs = [1; 2; 3; 4]%Z.
Proof.
  destruct cs as [|a [|b [|c [|d [|e cs]]]]]; try discriminate. intros _ Hwf Hnd Hs.
  inversion Hwf as [|? ? (Ha & _) Hwf1]; subst.
  inversion Hwf1 as [|? ? (Hb & _) Hwf2]; subst.
  inversion Hwf2 as [|? ? (Hc & _) Hwf3]; subst.
  inversion Hwf3 as [|? ? (Hd & _) _]; subst.
  inversion Hs as [|? ? Hs1 Hab]; subst.
  inversion Hs1 as [|? ? Hs2 Hbc]; subst.
  inversion Hs2 as [|? ? _ Hcd]; subst.
  inversion Hab as [|? ? Hab' _]; subst.
  inversion Hbc as [|? ? Hbc' _]; subst.
  inversion Hcd as [|? ? Hcd' _]; subst.
  simpl in Hnd.
  inversion Hnd as [|? ? Na Hnd1]; subst.
  inversion Hnd1 as [|? ? Nb Hnd2]; subst.
  inversion Hnd2 as [|? ? Nc _]; subst.
  simpl in Na, Nb, Nc.
  simpl. repeat f_equal; lia.
Qed.

(** The validation of the second revision: a puzzle response carries four
    categories in level order 1..4, four items each, sixteen distinct words. *)
Lemma GET2_provides toLowerCase toUpperCase trim toNumber localeCompare
      spreadsheetId todayNz dateQuery fetched
      date today availableDates categories :
  GET2 toLowerCase toUpperCase trim toNumber localeCompare spreadsheetId todayNz
       dateQuery fetched
  = PuzzleResponse date today availableDates categories ->
  providedPuzzle categories.
Proof.
  intros H. apply GET2_ok in H.
  destruct H as (row0 & rows & M & _ & EM & _ & _ & _ & _ & Ecats & Hlen
                 & Hlevels & Hwords).
  assert (Hwf : Forall wellFormedRow categories).
  { subst categories. apply Forall_forall. intros c Hc. apply sortBy_In in Hc.
    destruct (mapGet date M) as [cs|] eqn:Eg; [|easy].
    destruct (mapGet_value _ _ _ Eg) as (k' & Hk'). subst M. cbv zeta in Hk'.
    apply buildPuzzles2_values in Hk'; [|easy].
    rewrite Forall_forall in Hk'. now apply Hk'. }
  assert (Hitems : Forall (fun c => length (items c) = 4) categories).
  { eapply Forall_impl; [|exact Hwf]. now intros c (_ & Hc). }
  split; [|split; trivial].
  - apply levels_one_to_four; trivial.
    + apply (nodup_full Z.eq_dec). unfold setSizeZ in Hlevels.
      now rewrite Hlevels, length_map.
    + subst categories. apply sortBy_level_sorted.
  - apply (nodup_full string_dec). unfold setSizeStr in Hwords.
    rewrite Hwords, (flat_map_length_const items 4 categories Hitems), Hlen.
    reflexivity.
Qed.

(* ------------------------------------------------------------------------- *)
(** * Further properties of the hook *)

Import Sheet Loading Accounting.

Lemma allocAll_refs {A} (l : list A) next :
  map ref (fst (allocAll next l)) = seq next (length l)
  /\ snd (allocAll next l) = next + length l.
Proof.
  revert next. induction l as [|a l IH]; intros next; simpl; [split; auto|].
  destruct (IH (S next)) as (IH1 & IH2). destruct (allocAll (S next) l).
  simpl in *. rewrite IH1, IH2. split; [reflexivity | lia].
Qed.

Lemma Permutation_nil_eq {A} (l : list A) : Permutation l [] -> l = [].
Proof. intros H. apply Permutation_sym in H. now apply Permutation_nil. Qed.

(** X1: the puzzle effect leaves the state alone when there is no puzzle or an
    empty one; on any other puzzle, whatever the state before, it sets the
    mistake counter to 4, empties guess history and cleared categories,
    unsets both end flags and installs a board that is a permutation of one
    fresh tile per item of each category, carrying that category's level,
    none of them selected, all of them distinct new objects. *)
Theorem puzzle_effect_resets
        (sh : list (object Word) -> list (object Word))
        (cats : list (object Category)) (s : State) :
  puzzleEffect sh None s = s
  /\ puzzleEffect sh (Some []) s = s
  /\ (shuffles sh -> cats <> [] ->
      mistakesRemaining (puzzleEffect sh (Some cats) s) = 4%Z
      /\ guessHistoryRef (puzzleEffect sh (Some cats) s) = []
      /\ clearedCategories (puzzleEffect sh (Some cats) s) = []
      /\ isWon (puzzleEffect sh (Some cats) s) = false
      /\ isLost (puzzleEffect sh (Some cats) s) = false
      /\ Permutation (map val (gameWords (puzzleEffect sh (Some cats) s)))
                     (puzzleWords cats)
      /\ selectedWords (puzzleEffect sh (Some cats) s) = []
      /\ NoDup (map ref (gameWords (puzzleEffect sh (Some cats) s)))
      /\ forall item,
          In item (gameWords (puzzleEffect sh (Some cats) s)) ->
          heapNext s <= ref item
          < heapNext (puzzleEffect sh (Some cats) s)).
Proof.
  split; [reflexivity|]. split; [reflexivity|]. intros Hsh Hne.
  rewrite (puzzleEffect_unfold sh cats s Hne). simpl.
  set (words := fst (allocAll (heapNext s) (puzzleWords cats))).
  destruct (allocAll_refs (puzzleWords cats) (heapNext s)) as (Hrefs & Hnext).
  fold words in Hrefs.
  repeat (split; [reflexivity|]). split.
  { eapply Permutation_trans; [apply Permutation_map, Hsh|].
    unfold words. rewrite allocAll_val. apply Permutation_refl. }
  split.
  { unfold selectedWords. simpl. apply Permutation_nil_eq.
    eapply Permutation_trans; [apply selectedOf_perm, Hsh|].
    rewrite selectedOf_none; [constructor|].
    apply Forall_forall. intros item Hitem.
    pose proof (puzzleWords_unselected cats) as Hun.
    rewrite Forall_forall in Hun.
    assert (In (val item) (puzzleWords cats)) as Hin.
    { rewrite <- (allocAll_val (puzzleWords cats) (heapNext s)).
      now apply in_map. }
    now rewrite (Hun _ Hin). }
  split.
  { eapply Permutation_NoDup;
      [apply Permutation_sym, Permutation_map, Hsh|].
    rewrite Hrefs. apply seq_NoDup. }
  intros item Hitem. rewrite Hnext.
  assert (In (ref item) (map ref words)) as Hin.
  { apply in_map. eapply Permutation_in; [apply Hsh | exact Hitem]. }
  rewrite Hrefs in Hin. apply in_seq in Hin. lia.
Qed.

Lemma puzzle_effect_resets_witness :
  mistakesRemaining (puzzleEffect Examples.keepOrder (Some Examples.puzzle)
                                  (game Examples.lost)) = 4%Z
  /\ guessHistoryRef (puzzleEffect Examples.keepOrder (Some Examples.puzzle)
                                   (game Examples.lost)) = []
  /\ isLost (puzzleEffect Examples.keepOrder (Some Examples.puzzle)
                          (game Examples.lost)) = false
  /\ length (gameWords (puzzleEffect Examples.keepOrder (Some Examples.puzzle)
                                     (game Examples.lost))) = 16.
Proof.
  destruct (puzzle_effect_resets Examples.keepOrder Examples.puzzle
                                 (game Examples.lost))
    as (_ & _ & H).
  destruct H as (Hm & Hh & _ & _ & Hl & Hperm & _).
  - intros l. apply Permutation_refl.
  - discriminate.
  - repeat split; trivial.
Defined.

Lemma filter_perm {A} (f : A -> bool) l l' :
  Permutation l l' -> Permutation (filter f l) (filter f l').
Proof.
  induction 1; simpl.
  - constructor.
  - destruct (f x); auto.
  - destruct (f x), (f y); auto using perm_swap.
  - eauto using Permutation_trans.
Qed.

Lemma includes_perm {A} (l l' : list (object A)) x :
  Permutation l l' -> includes l x = includes l' x.
Proof.
  intros H. destruct (includes l' x) eqn:E.
  - apply includes_true_iff in E. destruct E as (y & Hy & E).
    apply includes_true_iff. exists y. split; trivial.
    eapply Permutation_in; [apply Permutation_sym, H | exact Hy].
  - rewrite includes_false_iff in E. apply includes_false_iff.
    intros y Hy. apply E. eapply Permutation_in; eauto.
Qed.

Lemma existsb_pointwise {A} (f g : A -> bool) l :
  (forall x, f x = g x) -> existsb f l = existsb g l.
Proof.
  intros H. induction l as [|a l IH]; simpl; [reflexivity|].
  now rewrite H, IH.
Qed.

Lemma forallb_pointwise {A} (f g : A -> bool) l :
  (forall x, f x = g x) -> forallb f l = forallb g l.
Proof.
  intros H. induction l as [|a l IH]; simpl; [reflexivity|].
  now rewrite H, IH.
Qed.

Lemma shuffle_selected sh s :
  shuffles sh ->
  Permutation (selectedWords (shuffleWords sh s)) (selectedWords s).
Proof. intros Hsh. apply selectedOf_perm, Hsh. Qed.

Lemma shuffle_sameGuess sh s :
  shuffles sh -> sameGuess (shuffleWords sh s) = sameGuess s.
Proof.
  intros Hsh. unfold sameGuess. simpl guessHistoryRef.
  apply existsb_pointwise. intros guess. apply forallb_pointwise. intros w.
  apply includes_perm. now apply shuffle_selected.
Qed.

Lemma shuffle_likenessCounts sh cats s :
  shuffles sh ->
  likenessCounts cats (shuffleWords sh s) = likenessCounts cats s.
Proof.
  intros Hsh. unfold likenessCounts. apply map_ext. intros c. f_equal.
  apply Permutation_length, filter_perm. now apply shuffle_selected.
Qed.

(** X2: [shuffleWords] only reorders the board.  The tiles are the same
    objects and the selection is the same set of tiles; cleared categories,
    mistakes, guess history and end flags are untouched; and the answer
    [getSubmitResult] gives is the same as without the shuffle (a repeated
    guess is still recognised, the likeness counts are the same). *)
Theorem shuffle_is_display_only
        (sh : list (object Word) -> list (object Word))
        (puzzle : option (list (object Category))) (s : State) :
  shuffles sh ->
  Permutation (gameWords (shuffleWords sh s)) (gameWords s)
  /\ Permutation (selectedWords (shuffleWords sh s)) (selectedWords s)
  /\ clearedCategories (shuffleWords sh s) = clearedCategories s
  /\ mistakesRemaining (shuffleWords sh s) = mistakesRemaining s
  /\ guessHistoryRef (shuffleWords sh s) = guessHistoryRef s
  /\ isWon (shuffleWords sh s) = isWon s
  /\ isLost (shuffleWords sh s) = isLost s
  /\ sameGuess (shuffleWords sh s) = sameGuess s
  /\ option_map (fun x => result (fst x))
                (getSubmitResult puzzle (shuffleWords sh s))
     = option_map (fun x => result (fst x)) (getSubmitResult puzzle s).
Proof.
  intros Hsh. split; [apply Hsh|]. split; [now apply shuffle_selected|].
  repeat (split; [reflexivity|]). split; [now apply shuffle_sameGuess|].
  destruct puzzle as [cats|]; [|reflexivity]. unfold getSubmitResult.
  rewrite (shuffle_sameGuess sh s Hsh), (shuffle_likenessCounts sh cats s Hsh).
  destruct (sameGuess s); [reflexivity|]. cbv zeta.
  destruct (number_eqb (Math_max (likenessCounts cats s)) (Num 4%Z)).
  - destruct (at_ cats _) as [c|]; [|reflexivity]. simpl option_map.
    now rewrite !getCorrectResult_result.
  - simpl option_map. now rewrite !getIncorrectResult_result.
Qed.

Lemma shuffle_is_display_only_witness :
  Permutation (gameWords (shuffleWords (@rev (object Word))
                                       (game Examples.picked)))
              (gameWords (game Examples.picked))
  /\ option_map (fun x => result (fst x))
                (getSubmitResult (Some Examples.puzzle)
                   (shuffleWords (@rev (object Word)) (game Examples.picked)))
     = Some one_away.
Proof.
  destruct (shuffle_is_display_only (@rev (object Word)) (Some Examples.puzzle)
                                    (game Examples.picked))
    as (H1 & _ & _ & _ & _ & _ & _ & _ & H9).
  - intros l. apply Permutation_sym, Permutation_rev.
  - split; [exact H1|]. rewrite H9. reflexivity.
Defined.

(** X3: [deselectAllWords] leaves no word selected and sets every tile's flag
    to false, keeps the words and their levels in board order, and touches
    neither cleared categories, mistakes, guess history nor the end flags;
    a toggle right after it selects the word it is given. *)
Theorem deselect_all_clears_selection (w : Word) (s : State) :
  selectedWords (deselectAllWords s) = []
  /\ Forall (fun item => selected (val item) = Some false)
            (gameWords (deselectAllWords s))
  /\ map (fun item => (word (val item), wlevel (val item)))
         (gameWords (deselectAllWords s))
     = map (fun item => (word (val item), wlevel (val item))) (gameWords s)
  /\ clearedCategories (deselectAllWords s) = clearedCategories s
  /\ mistakesRemaining (deselectAllWords s) = mistakesRemaining s
  /\ guessHistoryRef (deselectAllWords s) = guessHistoryRef s
  /\ isWon (deselectAllWords s) = isWon s
  /\ isLost (deselectAllWords s) = isLost s
  /\ selectedOn w (gameWords (selectWord w (deselectAllWords s))) = true.
Proof.
  assert (Hnone : selectedWords (deselectAllWords s) = []).
  { rewrite deselectAllWords_unfold. unfold selectedWords. simpl.
    apply selectedOf_unselected, deselectAll_unselected. }
  split; [exact Hnone|]. rewrite deselectAllWords_unfold at 1 2 3 4 5 6 7.
  simpl. split; [apply deselectAll_unselected|]. split.
  { unfold deselectAll. generalize (heapNext s).
    induction (gameWords s) as [|item l IH]; intros next; simpl; [reflexivity|].
    specialize (IH (S next)). destruct (mapAlloc _ (S next) l).
    simpl in *. now rewrite IH. }
  repeat (split; [reflexivity|]).
  apply selectWord_selects.
  - rewrite Hnone. simpl. lia.
  - apply unselectedOn_iff. intros item Hin _.
    pose proof (deselectAll_unselected (heapNext s) (gameWords s)) as Hun.
    rewrite Forall_forall in Hun. rewrite deselectAllWords_unfold in Hin.
    simpl in Hin. now rewrite (Hun item Hin).
Qed.

(** X4: [getSubmitResult] always returns (the category it looks up is always
    there) and never touches the end flags, and its answer tells what it did.
    "same": nothing, the guess was a repeat.  "incorrect": nothing when no
    puzzle is loaded; otherwise, as for "one-away" and "loss", the guess was
    recorded and one mistake taken off, with "loss" exactly when one mistake
    was left and "one-away" only when the best likeness is 3.  "correct" and
    "win": the guess was recorded and a category of the puzzle with likeness
    4 was cleared, the mistake counter being untouched, with "win" exactly
    when three categories had been cleared before. *)
Theorem submit_result_reading (puzzle : option (list (object Category)))
        (s : State) :
  exists r s',
    getSubmitResult puzzle s = Some (r, s')
    /\ isWon s' = isWon s /\ isLost s' = isLost s
    /\ match result r with
       | same => s' = s /\ sameGuess s = true
       | incorrect =>
           (puzzle = None /\ s' = s)
           \/ (exists cats,
                  puzzle = Some cats /\ sameGuess s = false
                  /\ s' = setMistakesRemaning (mistakesRemaining s - 1)
                                              (recorded s)
                  /\ mistakesRemaining s <> 1%Z
                  /\ maxLikeness cats s <> Num 3%Z
                  /\ maxLikeness cats s <> Num 4%Z)
       | one_away =>
           exists cats,
             puzzle = Some cats /\ sameGuess s = false
             /\ s' = setMistakesRemaning (mistakesRemaining s - 1) (recorded s)
             /\ mistakesRemaining s <> 1%Z
             /\ maxLikeness cats s = Num 3%Z
       | loss =>
           exists cats,
             puzzle = Some cats /\ sameGuess s = false
             /\ s' = setMistakesRemaning (mistakesRemaining s - 1) (recorded s)
             /\ mistakesRemaining s = 1%Z
             /\ maxLikeness cats s <> Num 4%Z
       | correct =>
           exists cats c,
             puzzle = Some cats /\ sameGuess s = false /\ In c cats
             /\ likeness c s = 4%Z
             /\ s' = revealCategory c (recorded s)
             /\ mistakesRemaining s' = mistakesRemaining s
             /\ length (clearedCategories s) <> 3
       | win =>
           exists cats c,
             puzzle = Some cats /\ sameGuess s = false /\ In c cats
             /\ likeness c s = 4%Z
             /\ s' = revealCategory c (recorded s)
             /\ mistakesRemaining s' = mistakesRemaining s
             /\ length (clearedCategories s) = 3
       end.
Proof.
  destruct (getSubmitResult_returns puzzle s) as (r & s' & H).
  exists r, s'. split; [exact H|].
  destruct puzzle as [cats|].
  - apply getSubmitResult_cases in H.
    destruct H as [(Hs & -> & ->) | [(Hs & Hm & E) | (Hs & Hm & c & Hc & Hl & E)]].
    + simpl. auto.
    + pose proof (getIncorrectResult_state (maxLikeness cats s) (recorded s)) as St.
      pose proof (getIncorrectResult_result (maxLikeness cats s) (recorded s)) as Re.
      rewrite <- E in St, Re. simpl in St, Re. subst s'.
      split; [reflexivity|]. split; [reflexivity|]. rewrite Re.
      destruct (Z.eqb_spec (mistakesRemaining s) 1) as [E1 | N1].
      * exists cats. auto.
      * destruct (number_eqb (maxLikeness cats s) (Num 3%Z)) eqn:E3.
        -- apply number_eqb_eq in E3. exists cats. auto.
        -- apply number_eqb_neq in E3. right. exists cats. auto 7.
    + pose proof (getCorrectResult_state c (recorded s)) as St.
      pose proof (getCorrectResult_result c (recorded s)) as Re.
      rewrite <- E in St, Re. simpl in St, Re. subst s'.
      split; [reflexivity|]. split; [reflexivity|]. rewrite Re.
      destruct (Nat.eqb_spec (length (clearedCategories s)) 3);
        exists cats, c; auto 8.
  - simpl in H. inversion H; subst. simpl. auto.
Qed.

(** ** Likeness *)







(* ------------------------------------------------------------------------- *)
(** * Further properties of the page *)

Lemma setGame_game p : setGame (game p) p = p.
Proof. now destruct p. Qed.

(** Projections of a state written with the setters. *)
Ltac fields :=
  cbn [game setGame mistakesRemaining guessHistoryRef clearedCategories isWon
       isLost gameWords heapNext setMistakesRemaning recorded setGuessHistory
       setGameWords setClearedCategories setIsWon setIsLost setHeapNext
       revealCategory handleWin] in *.

Lemma NoDup_flat_map_filter {A B} (f : A -> list B) (q : A -> bool) l :
  NoDup (flat_map f l) -> NoDup (flat_map f (filter q l)).
Proof.
  induction l as [|a l IH]; simpl; intros H; [constructor|].
  pose proof (NoDup_app_remove_l _ _ H) as Hl.
  destruct (q a); simpl; auto. apply NoDup_app.
  - now apply NoDup_app_remove_r in H.
  - auto.
  - intros x Hx Hx'. apply (NoDup_app_disjoint _ _ x H Hx).
    apply in_flat_map in Hx'. destruct Hx' as (b & Hb & Hxb).
    apply filter_In in Hb. apply in_flat_map. exists b. tauto.
Qed.

(** The board holds the four words of each category not yet cleared. *)
Lemma board_size cats s :
  loadedPuzzle cats -> boardInv cats s ->
  length (gameWords s) + 4 * length (clearedCategories s) = 16.
Proof.
  intros Hl Hb.
  set (rem := remainingCategories cats (clearedCategories s)).
  assert (Hperm : Permutation (texts (gameWords s))
                              (flat_map (fun c => items (val c)) rem)).
  { apply NoDup_Permutation.
    - apply Hb.
    - apply NoDup_flat_map_filter. now apply loaded_items_nodup.
    - intros x. split.
      + intros Hx. destruct (inv_sound Hb x Hx) as (c & Hc & Hunc & Hxc).
        apply in_flat_map. exists c. split; trivial.
        apply remaining_spec. now split.
      + intros Hx. apply in_flat_map in Hx. destruct Hx as (c & Hc & Hxc).
        apply remaining_spec in Hc. destruct Hc as (Hc & Hunc).
        now apply (inv_complete Hb c x). }
  apply Permutation_length in Hperm. unfold texts in Hperm.
  rewrite length_map in Hperm.
  rewrite (flat_map_length_const (fun c => items (val c)) 4 rem) in Hperm.
  - destruct (cleared_and_remaining cats s Hl Hb) as (_ & Hfour).
    fold rem in Hfour. rewrite length_app in Hfour. lia.
  - apply Forall_forall. intros c Hc. apply remaining_spec in Hc.
    now apply (loaded_items_length cats Hl).
Qed.



Lemma without_incl cs ws : incl (texts (without cs ws)) (texts ws).
Proof.
  intros x Hx. unfold texts in *. apply in_map_iff in Hx.
  destruct Hx as (item & E & Hin). apply filter_In in Hin.
  apply in_map_iff. exists item. tauto.
Qed.

Lemma extends_refl s : extends s s.
Proof.
  constructor; try (exists []; now rewrite app_nil_r); [lia | apply incl_refl].
Qed.

(** X9: a click on Submit never fails, whatever the page, and never takes
    anything back: the puzzle stays, cleared categories and guess history
    only get longer at the end, mistakes remaining never go up, and every
    word on the board afterwards was on the board before. *)
Theorem submit_only_extends (p : Page) :
  exists p',
    clickSubmit p = Some p'
    /\ puzzleCategories p' = puzzleCategories p
    /\ extends (game p) (game p').
Proof.
  unfold clickSubmit.
  destruct (inProgressButtons p && negb (submitUnclickable p));
    [|exists p; split; [reflexivity|]; split; [reflexivity | apply extends_refl]].
  unfold handleSubmit.
  destruct (controlsDisabled p);
    [exists p; split; [reflexivity|]; split; [reflexivity | apply extends_refl]|].
  destruct (getSubmitResult_returns (puzzleCategories p) (game p))
    as (r & g' & Hres).
  rewrite Hres.
  assert (Hext : extends (game p) g').
  { destruct (puzzleCategories p) as [cats|];
      [|simpl in Hres; inversion Hres; apply extends_refl].
    apply getSubmitResult_cases in Hres.
    destruct Hres as [(_ & _ & ->) | [(_ & _ & E) | (_ & _ & c & _ & _ & E)]].
    - apply extends_refl.
    - pose proof (getIncorrectResult_state (maxLikeness cats (game p))
                                           (recorded (game p))) as St.
      rewrite <- E in St. simpl in St. subst g'.
      constructor; fields;
        [exists []; now rewrite app_nil_r | eexists; reflexivity | lia
         | apply incl_refl].
    - pose proof (getCorrectResult_state c (recorded (game p))) as St.
      rewrite <- E in St. simpl in St. subst g'.
      constructor; fields;
        [eexists; reflexivity | eexists; reflexivity | lia|].
      intros x Hx. apply in_texts_filter in Hx. tauto. }
  destruct (result r) eqn:Hr;
    try (exists (setGame g' p); split; [reflexivity|];
         split; [reflexivity | exact Hext]).
  - (* loss *)
    eexists. split; [reflexivity|]. split; [reflexivity|]. fields.
    destruct (puzzleCategories p) as [cats|];
      [|simpl; exact Hext].
    rewrite handleLoss_unfold. cbv zeta. rewrite last_cons, last_last.
    set (s1 := setHeapNext _ _).
    destruct (revealAll_last
                (remainingCategories cats (clearedCategories (game p))) s1)
      as (Hc & Hg & _ & _ & Hm & Hh).
    destruct Hext as [(m1 & E1) (m2 & E2) Hle Hincl].
    constructor; fields.
    + rewrite Hc. unfold s1. fields. rewrite E1, <- app_assoc. eauto.
    + rewrite Hh. unfold s1. fields. eauto.
    + rewrite Hm. unfold s1. fields. exact Hle.
    + rewrite Hg. eapply incl_tran; [apply without_incl|].
      unfold s1. fields. rewrite deselectAll_texts. apply incl_refl.
  - (* win *)
    exists (setGame (handleWin g') p). split; [reflexivity|].
    split; [reflexivity|]. destruct Hext. constructor; fields; trivial.
Qed.

(* ------------------------------------------------------------------------- *)
(** * Further properties of the provider *)

Lemma mapGet_mapSet_same {V} (k : string) (v : V) m :
  mapGet k (mapSet k v m) = Some v.
Proof.
  induction m as [|[k0 v0] m IH]; simpl.
  - now rewrite String.eqb_refl.
  - destruct (String.eqb k k0) eqn:E; simpl.
    + now rewrite String.eqb_refl.
    + now rewrite E.
Qed.

Lemma mapGet_mapSet_other {V} (k k' : string) (v : V) m :
  k' <> k -> mapGet k' (mapSet k v m) = mapGet k' m.
Proof.
  intros Hne. induction m as [|[k0 v0] m IH]; simpl.
  - destruct (String.eqb_spec k' k); [contradiction | reflexivity].
  - destruct (String.eqb_spec k k0) as [-> | N]; simpl.
    + destruct (String.eqb_spec k' k0); [contradiction | reflexivity].
    + destruct (String.eqb k' k0); [reflexivity | exact IH].
Qed.

Lemma mapSet_keys_present {V} (k : string) (v : V) m :
  In k (mapKeys m) -> mapKeys (mapSet k v m) = mapKeys m.
Proof.
  unfold mapKeys. induction m as [|[k0 v0] m IH]; simpl; [easy|].
  destruct (String.eqb_spec k k0) as [-> | N]; [reflexivity|].
  intros [E | H]; [congruence|]. simpl. now rewrite IH.
Qed.

Lemma mapSet_keys_absent {V} (k : string) (v : V) m :
  ~ In k (mapKeys m) -> mapKeys (mapSet k v m) = mapKeys m ++ [k].
Proof.
  unfold mapKeys. induction m as [|[k0 v0] m IH]; simpl; [reflexivity|].
  intros H. destruct (String.eqb_spec k k0) as [-> | N]; [tauto|].
  simpl. rewrite IH; tauto.
Qed.

Section Grouping.
Context {R V : Type}.
Variable parse : R -> option (string * V).

(** After the loop the entry of a date holds what it held plus the
    categories of the rows given that date, in sheet order. *)
Lemma groupInto_get d rows m :
  mapGet d (groupInto parse rows m)
  = match categoriesFor parse d rows with
    | [] => mapGet d m
    | cs => Some ((match mapGet d m with Some old => old | None => [] end)
                    ++ cs)
    end.
Proof.
  revert m. induction rows as [|row rows IH]; intros m; simpl; [reflexivity|].
  destruct (parse row) as [[d' c]|]; [|apply IH].
  rewrite IH. destruct (String.eqb_spec d' d) as [-> | N].
  - rewrite mapGet_mapSet_same.
    destruct (categoriesFor parse d rows); [reflexivity|].
    now rewrite <- app_assoc.
  - rewrite mapGet_mapSet_other by congruence. reflexivity.
Qed.

Lemma datesOf_seen rows seen seen' :
  (forall x, In x seen <-> In x seen') ->
  datesOf parse rows seen = datesOf parse rows seen'.
Proof.
  revert seen seen'. induction rows as [|row rows IH]; intros seen seen' H;
    simpl; [reflexivity|].
  destruct (parse row) as [[d c]|]; [|now apply IH].
  assert (includesStr seen d = includesStr seen' d) as ->.
  { destruct (includesStr seen' d) eqn:E.
    - apply includesStr_true_iff. apply includesStr_true_iff in E. now apply H.
    - apply includesStr_false_iff. apply includesStr_false_iff in E.
      intros Hin. apply E. now apply H. }
  destruct (includesStr seen' d); [now apply IH|]. f_equal. apply IH.
  intros x. simpl. rewrite H. tauto.
Qed.

(** The keys after the loop: those there before, then the new dates in the
    order of their first row. *)
Lemma groupInto_keys rows m :
  mapKeys (groupInto parse rows m)
  = mapKeys m ++ datesOf parse rows (mapKeys m).
Proof.
  revert m. induction rows as [|row rows IH]; intros m; simpl;
    [now rewrite app_nil_r|].
  destruct (parse row) as [[d c]|]; [|apply IH].
  rewrite IH. destruct (includesStr (mapKeys m) d) eqn:E.
  - apply includesStr_true_iff in E. now rewrite mapSet_keys_present.
  - apply includesStr_false_iff in E. rewrite mapSet_keys_absent by trivial.
    rewrite <- app_assoc. simpl. do 2 f_equal. apply datesOf_seen.
    intros x. rewrite in_app_iff. simpl. tauto.
Qed.

Lemma datesOf_fresh rows seen d :
  In d (datesOf parse rows seen) -> ~ In d seen.
Proof.
  revert seen. induction rows as [|row rows IH]; intros seen; simpl; [easy|].
  destruct (parse row) as [[d' c]|]; [|apply IH].
  destruct (includesStr seen d') eqn:E; [apply IH|].
  apply includesStr_false_iff in E. intros [<- | H]; trivial.
  apply IH in H. intros Hin. apply H. now right.
Qed.

Lemma datesOf_NoDup rows seen : NoDup (datesOf parse rows seen).
Proof.
  revert seen. induction rows as [|row rows IH]; intros seen; simpl;
    [constructor|].
  destruct (parse row) as [[d c]|]; [|apply IH].
  destruct (includesStr seen d); [apply IH|]. constructor; [|apply IH].
  intros H. apply datesOf_fresh in H. apply H. now left.
Qed.

(** A date is listed when, and only when, some row is given it. *)
Lemma datesOf_In rows seen d :
  In d (datesOf parse rows seen)
  <-> categoriesFor parse d rows <> [] /\ ~ In d seen.
Proof.
  revert seen. induction rows as [|row rows IH]; intros seen; simpl;
    [tauto|].
  destruct (parse row) as [[d' c]|]; [|apply IH].
  destruct (String.eqb_spec d' d) as [-> | N].
  - destruct (includesStr seen d) eqn:E.
    + apply includesStr_true_iff in E. rewrite IH. split; [tauto|].
      intros (_ & H). contradiction.
    + apply includesStr_false_iff in E. split; [|now left].
      intros _. split; [discriminate | exact E].
  - destruct (includesStr seen d') eqn:E; [apply IH|].
    simpl. rewrite IH. simpl. split.
    + intros [Eq | (H1 & H2)]; [contradiction|]. tauto.
    + intros (H1 & H2). right. split; trivial. intros [Eq | H]; auto.
Qed.

End Grouping.

Section Loops.
Variables toUpperCase trim : string -> string.
Variable toNumber : string -> option Z.
Variable todayNz : string.

(** The two loops of route.ts are instances of the grouping. *)
Lemma buildPuzzles1_group header rows puzzles :
  buildPuzzles1 toNumber todayNz header rows puzzles
  = groupInto (acceptedRow1 toNumber todayNz header) rows puzzles.
Proof.
  revert puzzles. induction rows as [|row rows IH]; intros puzzles;
    [reflexivity|].
  simpl. unfold acceptedRow1.
  destruct (negb (isIsoDate (toStringCell (at_ row (indexOfStr header "date"))))
            || match at_ row (indexOfStr header "date") with
               | Some d => gtStr d todayNz
               | None => false
               end); apply IH.
Qed.

Lemma buildPuzzles2_group iDate iLevel iCategory iW1 iW2 iW3 iW4 rows puzzles :
  buildPuzzles2 toUpperCase trim toNumber todayNz iDate iLevel iCategory
                iW1 iW2 iW3 iW4 rows puzzles
  = groupInto (acceptedRow2 toUpperCase trim toNumber todayNz iDate iLevel
                            iCategory iW1 iW2 iW3 iW4) rows puzzles.
Proof.
  revert puzzles. induction rows as [|row rows IH]; intros puzzles;
    [reflexivity|].
  simpl. unfold acceptedRow2.
  destruct (isIsoDate (trim (orEmpty (at_ row iDate)))); simpl; [|apply IH].
  destruct (gtStr (trim (orEmpty (at_ row iDate))) todayNz); [apply IH|].
  destruct (isLevel _); simpl; [|apply IH].
  destruct (nonEmpty _); simpl; [|apply IH].
  destruct (Nat.eqb _ 4); simpl; apply IH.
Qed.

(** What a row must pass to be let in by the second revision. *)
Lemma acceptedRow2_valid iDate iLevel iCategory iW1 iW2 iW3 iW4 row d c :
  acceptedRow2 toUpperCase trim toNumber todayNz iDate iLevel iCategory
               iW1 iW2 iW3 iW4 row = Some (d, c) ->
  servable todayNz d /\ validatedRow c
  /\ d = trim (orEmpty (at_ row iDate)).
Proof.
  unfold acceptedRow2. cbv zeta.
  set (ws := filter nonEmpty _).
  destruct (isIsoDate (trim (orEmpty (at_ row iDate)))) eqn:Hiso; cbn [negb];
    [|discriminate].
  destruct (gtStr (trim (orEmpty (at_ row iDate))) todayNz) eqn:Hgt;
    [discriminate|].
  destruct (isLevel _) eqn:Hlv; cbn [negb]; [|discriminate].
  destruct (nonEmpty (trim (orEmpty (at_ row iCategory)))) eqn:Hname;
    cbn [negb]; [|discriminate].
  destruct (Nat.eqb (length ws) 4) eqn:Hlen; cbn [negb]; [|discriminate].
  intros E. inversion E; subst d c; clear E.
  apply isLevel_bounds in Hlv. destruct Hlv as (z & -> & Hz).
  apply Nat.eqb_eq in Hlen.
  split; [now split|]. split; [|reflexivity].
  unfold validatedRow. cbn [level category items].
  split; [exact Hz|]. split.
  { apply negb_true_iff, String.eqb_neq in Hname. exact Hname. }
  split; [exact Hlen|].
  apply Forall_forall. intros w Hw. unfold ws in Hw. apply filter_In in Hw.
  destruct Hw as (_ & Hw). now apply negb_true_iff, String.eqb_neq in Hw.
Qed.

Lemma categoriesFor_valid iDate iLevel iCategory iW1 iW2 iW3 iW4 d rows :
  Forall validatedRow
         (categoriesFor (acceptedRow2 toUpperCase trim toNumber todayNz iDate
                                      iLevel iCategory iW1 iW2 iW3 iW4)
                        d rows).
Proof.
  induction rows as [|row rows IH]; simpl; [constructor|].
  destruct (acceptedRow2 _ _ _ _ _ _ _ _ _ _ _ row) as [[d' c]|] eqn:E;
    trivial.
  destruct (String.eqb d' d); trivial. constructor; trivial.
  now apply acceptedRow2_valid in E.
Qed.

End Loops.

(** X10: in both revisions the loop over the rows groups them by date: after
    it, the map holds under a date exactly the categories built from the rows
    the loop accepts with that date, in sheet order, and nothing under a date
    no accepted row carries; its keys are the dates of the accepted rows,
    each once, in the order of their first row. *)
Theorem rows_grouped_by_date
        (toUpperCase trim : string -> string) (toNumber : string -> option Z)
        (todayNz : string) (header : list string)
        (iDate iLevel iCategory iW1 iW2 iW3 iW4 : Z)
        (rows : list (list string)) (d : string) :
  let accepted1 := acceptedRow1 toNumber todayNz header in
  let accepted2 := acceptedRow2 toUpperCase trim toNumber todayNz iDate iLevel
                                iCategory iW1 iW2 iW3 iW4 in
  let puzzles1 := buildPuzzles1 toNumber todayNz header rows [] in
  let puzzles2 := buildPuzzles2 toUpperCase trim toNumber todayNz iDate iLevel
                                iCategory iW1 iW2 iW3 iW4 rows [] in
  mapGet d puzzles1
  = match categoriesFor accepted1 d rows with [] => None | cs => Some cs end
  /\ mapGet d puzzles2
     = match categoriesFor accepted2 d rows with [] => None | cs => Some cs end
  /\ mapKeys puzzles1 = datesOf accepted1 rows []
  /\ mapKeys puzzles2 = datesOf accepted2 rows []
  /\ NoDup (mapKeys puzzles1) /\ NoDup (mapKeys puzzles2)
  /\ (mapHas d puzzles2 = true <-> categoriesFor accepted2 d rows <> []).
Proof.
  cbv zeta. rewrite buildPuzzles1_group, buildPuzzles2_group.
  rewrite !groupInto_get, !groupInto_keys. simpl mapGet. simpl mapKeys.
  simpl app. split; [reflexivity|]. split; [reflexivity|].
  split; [reflexivity|]. split; [reflexivity|].
  split; [apply datesOf_NoDup|]. split; [apply datesOf_NoDup|].
  unfold mapHas. rewrite groupInto_get. simpl mapGet.
  destruct (categoriesFor _ d rows); split; congruence.
Qed.

Section Available.
Variables toLowerCase toUpperCase trim : string -> string.
Variable toNumber : string -> option Z.
Variable localeCompare : string -> string -> Z.
Variables (spreadsheetId : option string) (todayNz : string)
          (dateQuery : option string) (fetched : Fetched).

Lemma GET1_available_exactly date today availableDates categories :
  GET1 toLowerCase toNumber spreadsheetId todayNz dateQuery fetched
  = PuzzleResponse date today availableDates categories ->
  exists row0 rows,
    fetched = Values (Some (row0 :: rows))
    /\ NoDup availableDates
    /\ (forall d,
           In d availableDates
           <-> categoriesFor
                 (acceptedRow1 toNumber todayNz (map toLowerCase row0)) d rows
               <> [])
    /\ categories
       = match categoriesFor
                 (acceptedRow1 toNumber todayNz (map toLowerCase row0))
                 date rows with
         | [] => None
         | cs => Some cs
         end.
Proof.
  intros H. apply GET1_ok in H.
  destruct H as (row0 & rows & Hf & _ & _ & _ & Ha & Hc).
  exists row0, rows. split; [exact Hf|].
  rewrite buildPuzzles1_group in Ha, Hc.
  rewrite groupInto_keys in Ha. simpl in Ha.
  rewrite groupInto_get in Hc. simpl mapGet in Hc.
  subst availableDates. split.
  - apply NoDup_rev. eapply Permutation_NoDup;
      [apply Permutation_sym, sortBy_perm | apply datesOf_NoDup].
  - split; [|exact Hc]. intros d. rewrite <- in_rev, sortBy_In, datesOf_In.
    simpl. tauto.
Qed.

Lemma GET2_available_exactly availableDates :
  (exists date today categories,
      GET2 toLowerCase toUpperCase trim toNumber localeCompare spreadsheetId
           todayNz dateQuery fetched
      = PuzzleResponse date today availableDates categories)
  \/ (exists status body,
         GET2 toLowerCase toUpperCase trim toNumber localeCompare
              spreadsheetId todayNz dateQuery fetched
         = ErrorResponse status body
         /\ errorAvailableDates body = Some availableDates) ->
  exists row0 rows,
    fetched = Values (Some (row0 :: rows))
    /\ NoDup availableDates
    /\ forall d,
        In d availableDates
        <-> categoriesFor
              (let idx := indexOfStr (map (fun h => toLowerCase (trim h)) row0) in
               acceptedRow2 toUpperCase trim toNumber todayNz
                 (idx "date"%string) (idx "level"%string)
                 (idx "category"%string) (idx "word1"%string)
                 (idx "word2"%string) (idx "word3"%string)
                 (idx "word4"%string)) d rows
            <> [].
Proof.
  intros H. apply GET2_dates in H. destruct H as (row0 & rows & Hf & Ha).
  exists row0, rows. split; [exact Hf|]. cbv zeta in *.
  rewrite buildPuzzles2_group, groupInto_keys in Ha. simpl in Ha.
  subst availableDates. split.
  - eapply Permutation_NoDup;
      [apply Permutation_sym, sortBy_perm | apply datesOf_NoDup].
  - intros d. rewrite sortBy_In, datesOf_In. simpl. tauto.
Qed.

End Available.

(** X11: the availableDates of a response, in both revisions and also in the
    error bodies of the second revision that carry them, list every date
    that at least one accepted row of the sheet carries, no other date, and
    no date twice. *)
Theorem available_dates_exact
        (toLowerCase toUpperCase trim : string -> string)
        (toNumber : string -> option Z) (localeCompare : string -> string -> Z)
        (spreadsheetId : option string) (todayNz : string)
        (dateQuery : option string) (fetched : Fetched)
        (availableDates : list string) :
  ((exists date today categories,
       GET1 toLowerCase toNumber spreadsheetId todayNz dateQuery fetched
       = PuzzleResponse date today availableDates categories) ->
   exists row0 rows,
     fetched = Values (Some (row0 :: rows))
     /\ NoDup availableDates
     /\ forall d,
         In d availableDates
         <-> categoriesFor
               (acceptedRow1 toNumber todayNz (map toLowerCase row0)) d rows
             <> [])
  /\ ((exists date today categories,
          GET2 toLowerCase toUpperCase trim toNumber localeCompare
               spreadsheetId todayNz dateQuery fetched
          = PuzzleResponse date today availableDates categories)
      \/ (exists status body,
             GET2 toLowerCase toUpperCase trim toNumber localeCompare
                  spreadsheetId todayNz dateQuery fetched
             = ErrorResponse status body
             /\ errorAvailableDates body = Some availableDates) ->
      exists row0 rows,
        fetched = Values (Some (row0 :: rows))
        /\ NoDup availableDates
        /\ forall d,
            In d availableDates
            <-> categoriesFor
                  (let idx :=
                     indexOfStr (map (fun h => toLowerCase (trim h)) row0) in
                   acceptedRow2 toUpperCase trim toNumber todayNz
                     (idx "date"%string) (idx "level"%string)
                     (idx "category"%string) (idx "word1"%string)
                     (idx "word2"%string) (idx "word3"%string)
                     (idx "word4"%string)) d rows
                <> []).
Proof.
  split.
  - intros (date & today & categories & H).
    apply (GET1_available_exactly toLowerCase toUpperCase trim toNumber
                                  localeCompare) in H.
    destruct H as (row0 & rows & Hf & Hnd & Hin & _).
    exists row0, rows. split; [exact Hf|]. split; [exact Hnd | exact Hin].
  - apply GET2_available_exactly.
Qed.

Lemma available_dates_exact_witness :
  NoDup ["2024-01-01"%string]
  /\ exists row0 rows,
      Values (Some Examples.sheet) = Values (Some (row0 :: rows))
      /\ length rows = 5.
Proof.
  destruct (available_dates_exact
              Examples.asIs Examples.asIs Examples.asIs Examples.levelNumber
              defaultCompare (Some "sheet-id"%string) Examples.today None
              (Values (Some Examples.sheet)) ["2024-01-01"%string])
    as (_ & H).
  destruct H as (row0 & rows & Hf & Hnd & _).
  - left. exists "2024-01-01"%string, Examples.today,
      (map val [Examples.fruit; Examples.color; Examples.metal; Examples.tool]).
    vm_compute. reflexivity.
  - split; [exact Hnd|]. exists row0, rows. split; [exact Hf|].
    inversion Hf. reflexivity.
Defined.

Lemma mapHas_false_keys {V} (k : string) (m : list (string * V)) :
  mapHas k m = false -> ~ In k (mapKeys m).
Proof.
  unfold mapHas, mapKeys. induction m as [|[k0 v0] m IH]; simpl; [tauto|].
  destruct (String.eqb_spec k k0) as [-> | N]; [discriminate|].
  intros H [E | Hin]; [congruence | now apply IH].
Qed.

(** X12: a puzzle response of the second revision is fully validated.  Its
    categories are the accepted rows carrying the served date, sorted by
    level: exactly four of them, with levels 1, 2, 3, 4 in this order, each
    with a non-empty name and four non-empty items, sixteen distinct words
    in all; and the served date is one of the availableDates. *)
Theorem puzzle_response_validated
        (toLowerCase toUpperCase trim : string -> string)
        (toNumber : string -> option Z) (localeCompare : string -> string -> Z)
        (spreadsheetId : option string) (todayNz : string)
        (dateQuery : option string) (fetched : Fetched)
        (date today : string) (availableDates : list string)
        (categories : list Category) :
  GET2 toLowerCase toUpperCase trim toNumber localeCompare spreadsheetId todayNz
       dateQuery fetched
  = PuzzleResponse date today availableDates categories ->
  providedPuzzle categories
  /\ Forall validatedRow categories
  /\ In date availableDates
  /\ exists row0 rows,
      fetched = Values (Some (row0 :: rows))
      /\ categories
         = sortBy (fun a b => (level a - level b)%Z)
             (categoriesFor
                (let idx :=
                   indexOfStr (map (fun h => toLowerCase (trim h)) row0) in
                 acceptedRow2 toUpperCase trim toNumber todayNz
                   (idx "date"%string) (idx "level"%string)
                   (idx "category"%string) (idx "word1"%string)
                   (idx "word2"%string) (idx "word3"%string)
                   (idx "word4"%string)) date rows).
Proof.
  intros H. split; [now apply GET2_provides in H|].
  apply GET2_ok in H.
  destruct H as (row0 & rows & M & Hf & EM & _ & _ & Ea & _ & Ec & Hlen & _).
  cbv zeta in EM. rewrite buildPuzzles2_group in EM.
  assert (Eget : match mapGet date M with Some cs => cs | None => [] end
                 = categoriesFor
                     (acceptedRow2 toUpperCase trim toNumber todayNz
                        (indexOfStr (map (fun h => toLowerCase (trim h)) row0)
                                    "date")
                        (indexOfStr (map (fun h => toLowerCase (trim h)) row0)
                                    "level")
                        (indexOfStr (map (fun h => toLowerCase (trim h)) row0)
                                    "category")
                        (indexOfStr (map (fun h => toLowerCase (trim h)) row0)
                                    "word1")
                        (indexOfStr (map (fun h => toLowerCase (trim h)) row0)
                                    "word2")
                        (indexOfStr (map (fun h => toLowerCase (trim h)) row0)
                                    "word3")
                        (indexOfStr (map (fun h => toLowerCase (trim h)) row0)
                                    "word4"))
                     date rows).
  { rewrite EM, groupInto_get. simpl mapGet.
    now destruct (categoriesFor _ date rows). }
  rewrite Eget in Ec. split; [|split].
  - subst categories. apply Forall_forall. intros c Hc. apply sortBy_In in Hc.
    pose proof (categoriesFor_valid toUpperCase trim toNumber todayNz
                  (indexOfStr (map (fun h => toLowerCase (trim h)) row0) "date")
                  (indexOfStr (map (fun h => toLowerCase (trim h)) row0) "level")
                  (indexOfStr (map (fun h => toLowerCase (trim h)) row0)
                              "category")
                  (indexOfStr (map (fun h => toLowerCase (trim h)) row0) "word1")
                  (indexOfStr (map (fun h => toLowerCase (trim h)) row0) "word2")
                  (indexOfStr (map (fun h => toLowerCase (trim h)) row0) "word3")
                  (indexOfStr (map (fun h => toLowerCase (trim h)) row0) "word4")
                  date rows) as Hv.
    rewrite Forall_forall in Hv. now apply Hv.
  - subst availableDates. apply sortBy_In. rewrite EM, groupInto_keys.
    simpl. apply datesOf_In. split; [|easy]. intros Enil.
    rewrite Enil in Ec. subst categories. discriminate.
  - exists row0, rows. split; [exact Hf | exact Ec].
Qed.

Lemma puzzle_response_validated_witness :
  providedPuzzle
    (map val [Examples.fruit; Examples.color; Examples.metal; Examples.tool])
  /\ In "2024-01-01"%string ["2024-01-01"%string].
Proof.
  destruct (puzzle_response_validated
              Examples.asIs Examples.asIs Examples.asIs Examples.levelNumber
              defaultCompare (Some "sheet-id"%string) Examples.today None
              (Values (Some Examples.sheet)) "2024-01-01"%string Examples.today
              ["2024-01-01"%string]
              (map val [Examples.fruit; Examples.color; Examples.metal;
                        Examples.tool]))
    as (H1 & _ & H3 & _).
  - vm_compute. reflexivity.
  - split; [exact H1 | exact H3].
Defined.

(** X13: which date a puzzle response is about.  The first revision serves
    the requested date as it is, or today's when none is given.  The second
    revision serves an explicitly requested date (trimmed) and never another
    one in its place; without a date (or with a blank one) it serves today's
    puzzle, or else, when no accepted row carries today's date, the first of
    the availableDates. *)
Theorem served_date
        (toLowerCase toUpperCase trim : string -> string)
        (toNumber : string -> option Z) (localeCompare : string -> string -> Z)
        (spreadsheetId : option string) (todayNz : string)
        (dateQuery : option string) (fetched : Fetched)
        (date today : string) (availableDates : list string) :
  (forall categories,
      GET1 toLowerCase toNumber spreadsheetId todayNz dateQuery fetched
      = PuzzleResponse date today availableDates categories ->
      date = requestedDate1 todayNz dateQuery)
  /\ (forall categories,
         GET2 toLowerCase toUpperCase trim toNumber localeCompare spreadsheetId
              todayNz dateQuery fetched
         = PuzzleResponse date today availableDates categories ->
         match dateParamOf trim dateQuery with
         | Some d => date = d
         | None =>
             (date = todayNz /\ In todayNz availableDates)
             \/ (hd_error availableDates = Some date
                 /\ ~ In todayNz availableDates)
         end).
Proof.
  split.
  - intros categories H. apply GET1_ok in H.
    now destruct H as (_ & _ & _ & -> & _).
  - intros categories H.
    apply GET2_ok in H.
    destruct H as (row0 & rows & M & _ & _ & _ & _ & Ea & Ed & Ec & Hlen & _).
    unfold requestedDateOf in Ed.
    destruct (dateParamOf trim dateQuery) as [d|]; [exact Ed|].
    destruct (mapHas todayNz M) eqn:Hhas.
    + left. split; [exact Ed|]. subst date availableDates.
      apply sortBy_In. unfold mapHas in Hhas.
      destruct (mapGet todayNz M) eqn:Eg; [|discriminate].
      now apply mapGet_In in Eg.
    + assert (Hnot : ~ In todayNz availableDates).
      { subst availableDates. rewrite sortBy_In.
        now apply mapHas_false_keys. }
      destruct availableDates as [|latest rest].
      * exfalso. subst date.
        assert (mapGet todayNz M = None) as Eg.
        { destruct (mapGet todayNz M) eqn:Eg; trivial.
          apply mapGet_In in Eg. now apply mapHas_false_keys in Hhas. }
        rewrite Eg in Ec. subst categories. discriminate.
      * right. split; [now subst date | exact Hnot].
Qed.

Lemma served_date_witness :
  hd_error ["2024-01-01"%string] = Some "2024-01-01"%string
  /\ ~ In Examples.today ["2024-01-01"%string].
Proof.
  destruct (served_date
              Examples.asIs Examples.asIs Examples.asIs Examples.levelNumber
              defaultCompare (Some "sheet-id"%string) Examples.today None
              (Values (Some Examples.sheet)) "2024-01-01"%string Examples.today
              ["2024-01-01"%string]) as (_ & H).
  specialize (H (map val [Examples.fruit; Examples.color; Examples.metal;
                          Examples.tool])).
  destruct H as [(E & _) | H].
  - vm_compute. reflexivity.
  - discriminate E.
  - exact H.
Defined.

(** X14: the second revision answers 404, with today's date and the
    availableDates in the body, exactly when the explicitly requested date
    (well formed, not after today, sheet readable with all its columns) does
    not have four accepted rows: none at all, too few or too many. *)
Theorem incomplete_date_is_404
        (toLowerCase toUpperCase trim : string -> string)
        (toNumber : string -> option Z) (localeCompare : string -> string -> Z)
        (sheetId todayNz : string) (dateQuery : option string) (d : string)
        (row0 row1 : list string) (rows : list (list string)) :
  sheetId <> EmptyString ->
  dateParamOf trim dateQuery = Some d ->
  isIsoDate d = true -> gtStr d todayNz = false ->
  missingColumns (map (fun h => toLowerCase (trim h)) row0) = [] ->
  let idx := indexOfStr (map (fun h => toLowerCase (trim h)) row0) in
  let found :=
    categoriesFor
      (acceptedRow2 toUpperCase trim toNumber todayNz
         (idx "date"%string) (idx "level"%string) (idx "category"%string)
         (idx "word1"%string) (idx "word2"%string) (idx "word3"%string)
         (idx "word4"%string)) d (row1 :: rows) in
  let response :=
    GET2 toLowerCase toUpperCase trim toNumber localeCompare (Some sheetId)
         todayNz dateQuery (Values (Some (row0 :: row1 :: rows))) in
  (length found <> 4 ->
   exists message availableDates,
     response = ErrorResponse 404 (mkError message (Some todayNz)
                                           (Some availableDates)))
  /\ (length found = 4 -> forall body, response <> ErrorResponse 404 body).
Proof.
  intros Hid Hparam Hiso Hgt Hcols idx found response.
  assert (Hreq : requestedDateOf trim todayNz dateQuery = d).
  { unfold requestedDateOf. now rewrite Hparam. }
  unfold response, Route.GET2.
  destruct sheetId as [|ch sid]; [contradiction|].
  rewrite Hreq, Hiso, Hgt, Hparam. change (negb true) with false.
  cbv beta iota zeta. rewrite Hcols.
  match goal with
  | |- context [buildPuzzles2 ?a ?b ?c ?e ?f ?g ?h ?i ?j ?k ?l ?m ?n] =>
      remember (buildPuzzles2 a b c e f g h i j k l m n) as M eqn:EM
  end.
  assert (Eget : match mapGet d M with Some cs => cs | None => [] end = found).
  { rewrite EM, buildPuzzles2_group, groupInto_get. simpl mapGet.
    unfold found, idx. now destruct (categoriesFor _ d (row1 :: rows)). }
  rewrite Eget.
  assert (Hlen : length (sortBy (fun a b => (level a - level b)%Z) found)
                 = length found)
    by apply Permutation_length, sortBy_perm.
  rewrite Hlen. split.
  - intros Hne. destruct (Nat.eqb_spec (length found) 4); [contradiction|].
    simpl negb. cbv iota. eauto.
  - intros H4 body. rewrite H4. simpl negb. cbv iota.
    repeat match goal with
           | |- context [if ?b then _ else _] => destruct b
           end; discriminate.
Qed.

Lemma incomplete_date_is_404_witness :
  exists message availableDates,
    Examples.sheetGET2 (Some "2023-12-31"%string)
    = ErrorResponse 404 (mkError message (Some Examples.today)
                                 (Some availableDates)).
Proof.
  destruct (incomplete_date_is_404
              Examples.asIs Examples.asIs Examples.asIs Examples.levelNumber
              defaultCompare "sheet-id" Examples.today
              (Some "2023-12-31"%string) "2023-12-31"
              ["date"; "level"; "category"; "word1"; "word2"; "word3";
               "word4"]%string
              ["2024-01-01"; "2"; "COLOR"; "RED"; "BLUE"; "GREEN"; "GOLD"]%string
              (tl (tl Examples.sheet)))
    as (H & _).
  - discriminate.
  - reflexivity.
  - reflexivity.
  - reflexivity.
  - reflexivity.
  - apply H. vm_compute. discriminate.
Defined.

(* ------------------------------------------------------------------------- *)
(** * From the route to the page *)

(** The error responses of the second revision are never ok. *)
Lemma GET2_error_status toLowerCase toUpperCase trim toNumber localeCompare
      spreadsheetId todayNz dateQuery fetched status body :
  GET2 toLowerCase toUpperCase trim toNumber localeCompare spreadsheetId todayNz
       dateQuery fetched
  = ErrorResponse status body ->
  okStatus status = false.
Proof.
  unfold Route.GET2. intros H.
  destruct spreadsheetId as [[|c sid]|];
    try (inversion H; subst; reflexivity).
  destruct (isIsoDate (requestedDateOf trim todayNz dateQuery));
    [change (negb true) with false in H
    | inversion H; subst; reflexivity].
  cbv beta iota zeta in H.
  destruct (gtStr (requestedDateOf trim todayNz dateQuery) todayNz);
    [inversion H; subst; reflexivity|].
  destruct fetched as [message | [[|row0 [|row1 rows]]|]];
    try (inversion H; subst; reflexivity).
  destruct (missingColumns _); [|inversion H; subst; reflexivity].
  match type of H with
  | (if ?b1 then _ else if ?b2 then _ else if ?b3 then _ else _) = _ =>
      destruct b1; [inversion H; subst; reflexivity|];
      destruct b2; [inversion H; subst; reflexivity|];
      destruct b3; [inversion H; subst; reflexivity | discriminate H]
  end.
Qed.

Lemma errorMessage_nonEmpty body : errorMessage body <> EmptyString.
Proof.
  unfold errorMessage. destruct (nonEmpty (error body)) eqn:E; [|discriminate].
  now apply negb_true_iff, String.eqb_neq in E.
Qed.

Lemma parseCategories_loaded cs :
  providedPuzzle cs -> loadedPuzzle (parseCategories cs).
Proof.
  intros H. unfold loadedPuzzle, parseCategories. split.
  - rewrite (proj1 (allocAll_refs cs 0)). apply seq_NoDup.
  - now rewrite allocAll_val.
Qed.

(** X15: a load served by the second revision of the route keeps the page
    among the reachable ones, whatever the request and the sheet.  On a
    puzzle response the controls are enabled and a fresh round of that very
    puzzle is on: sixteen tiles, four mistakes, nothing cleared, guessed or
    decided.  On an error response the controls are disabled, with a
    non-empty message, and puzzle and round stay as they were. *)
Theorem load_from_route
        (toLowerCase toUpperCase trim : string -> string)
        (toNumber : string -> option Z) (localeCompare : string -> string -> Z)
        (spreadsheetId : option string) (todayNz : string)
        (dateQuery : option string) (fetched : Fetched)
        (sh : list (object Word) -> list (object Word)) (p : Page) :
  reachable p -> shuffles sh ->
  let response := GET2 toLowerCase toUpperCase trim toNumber localeCompare
                       spreadsheetId todayNz dateQuery fetched in
  let p' := loadPuzzleDone sh response (loadPuzzleStart p) in
  reachable p'
  /\ match response with
     | PuzzleResponse _ _ _ categories =>
         controlsDisabled p' = false
         /\ option_map (map val) (puzzleCategories p') = Some categories
         /\ length (gameWords (game p')) = 16
         /\ mistakesRemaining (game p') = 4%Z
         /\ clearedCategories (game p') = []
         /\ guessHistoryRef (game p') = []
         /\ isWon (game p') = false /\ isLost (game p') = false
     | ErrorResponse _ body =>
         controlsDisabled p' = true
         /\ puzzleError p' = Some (errorMessage body)
         /\ errorMessage body <> EmptyString
         /\ puzzleCategories p' = puzzleCategories p
         /\ game p' = game p
     end.
Proof.
  intros Hr Hsh response p'. unfold p'.
  destruct response as [status body | date today avail categories] eqn:E;
    unfold response in E.
  - pose proof (GET2_error_status _ _ _ _ _ _ _ _ _ _ _ E) as Hok.
    unfold loadPuzzleDone. rewrite Hok. split.
    + apply reach_loadFailed, reach_loadStart, Hr.
    + pose proof (errorMessage_nonEmpty body) as Hne.
      repeat split; trivial.
      unfold controlsDisabled, loadPuzzleFailed. simpl.
      destruct (String.eqb_spec (errorMessage body) EmptyString);
        [contradiction | reflexivity].
  - pose proof (GET2_provides _ _ _ _ _ _ _ _ _ _ _ _ _ E) as Hprov.
    pose proof (parseCategories_loaded categories Hprov) as Hl.
    unfold loadPuzzleDone.
    assert (Hreach : reachable (loadPuzzleOk sh (parseCategories categories)
                                             (loadPuzzleStart p))).
    { apply reach_loadOk; trivial. apply reach_loadStart, Hr. }
    split; [exact Hreach|].
    assert (Hne : parseCategories categories <> []).
    { intros E0. pose proof (loaded_length _ Hl) as H4. rewrite E0 in H4.
      discriminate. }
    pose proof (reachable_inv _ Hreach) as Hinv. unfold pageInv in Hinv.
    cbn [puzzleCategories loadPuzzleOk] in Hinv.
    destruct Hinv as (_ & Hb & _).
    pose proof (board_size _ _ Hl Hb) as Hsize.
    unfold loadPuzzleOk in *. cbn [game puzzleCategories] in *.
    rewrite (puzzleEffect_unfold sh _ _ Hne) in *. fields. simpl in Hsize.
    split.
    { unfold controlsDisabled. simpl.
      now rewrite (loaded_length _ Hl). }
    split; [simpl; unfold parseCategories; now rewrite allocAll_val|].
    split; [change (heapNext (game (loadPuzzleStart p))) with (heapNext (game p));
            lia|].
    auto 7.
Qed.

Lemma load_from_route_witness :
  reachable
    (loadPuzzleDone Examples.keepOrder
       (GET2 Examples.asIs Examples.asIs Examples.asIs Examples.levelNumber
             defaultCompare (Some "sheet-id"%string) Examples.today
             (Some "2099-01-01"%string) (Values (Some Examples.sheet)))
       (loadPuzzleStart Examples.lost)).
Proof.
  exact (proj1 (load_from_route Examples.asIs Examples.asIs Examples.asIs
                  Examples.levelNumber defaultCompare
                  (Some "sheet-id"%string) Examples.today
                  (Some "2099-01-01"%string) (Values (Some Examples.sheet))
                  Examples.keepOrder Examples.lost reachable_lost
                  (fun l => Permutation_refl (Examples.keepOrder l)))).
Defined.

(* ------------------------------------------------------------------------- *)
(** * Dates as strings *)

Lemma digitVal_inj c1 c2 :
  isDigit c1 = true -> isDigit c2 = true ->
  digitVal c1 = digitVal c2 -> c1 = c2.
Proof.
  unfold isDigit, digitVal. intros H1 H2 E.
  apply andb_true_iff in H1, H2. destruct H1 as (A1 & B1), H2 as (A2 & B2).
  apply Nat.leb_le in A1, B1, A2, B2.
  rewrite <- (ascii_nat_embedding c1), <- (ascii_nat_embedding c2).
  f_equal. lia.
Qed.

Lemma calendarOf_inj a b :
  isIsoDate a = true -> isIsoDate b = true ->
  calendarOf a = calendarOf b -> a = b.
Proof.
  intros Ha Hb.
  destruct (isIsoDate_chars a Ha)
    as (a1 & a2 & a3 & a4 & a5 & a6 & a7 & a8 & -> & A1 & A2 & A3 & A4 & A5
        & A6 & A7 & A8).
  destruct (isIsoDate_chars b Hb)
    as (b1 & b2 & b3 & b4 & b5 & b6 & b7 & b8 & -> & B1 & B2 & B3 & B4 & B5
        & B6 & B7 & B8).
  unfold calendarOf. cbn [list_ascii_of_string]. intros E.
  pose proof (digit_bounds a1 A1). pose proof (digit_bounds a2 A2).
  pose proof (digit_bounds a3 A3). pose proof (digit_bounds a4 A4).
  pose proof (digit_bounds a5 A5). pose proof (digit_bounds a6 A6).
  pose proof (digit_bounds a7 A7). pose proof (digit_bounds a8 A8).
  pose proof (digit_bounds b1 B1). pose proof (digit_bounds b2 B2).
  pose proof (digit_bounds b3 B3). pose proof (digit_bounds b4 B4).
  pose proof (digit_bounds b5 B5). pose proof (digit_bounds b6 B6).
  pose proof (digit_bounds b7 B7). pose proof (digit_bounds b8 B8).
  pose proof (f_equal (fun t => fst (fst t)) E) as Ey.
  pose proof (f_equal (fun t => snd (fst t)) E) as Em.
  pose proof (f_equal snd E) as Ed.
  cbn [fst snd] in Ey, Em, Ed. clear E.
  assert (E1 : digitVal a1 = digitVal b1) by lia.
  assert (E2 : digitVal a2 = digitVal b2) by lia.
  assert (E3 : digitVal a3 = digitVal b3) by lia.
  assert (E4 : digitVal a4 = digitVal b4) by lia.
  assert (E5 : digitVal a5 = digitVal b5) by lia.
  assert (E6 : digitVal a6 = digitVal b6) by lia.
  assert (E7 : digitVal a7 = digitVal b7) by lia.
  assert (E8 : digitVal a8 = digitVal b8) by lia.
  rewrite (digitVal_inj a1 b1 A1 B1 E1), (digitVal_inj a2 b2 A2 B2 E2),
    (digitVal_inj a3 b3 A3 B3 E3), (digitVal_inj a4 b4 A4 B4 E4),
    (digitVal_inj a5 b5 A5 B5 E5), (digitVal_inj a6 b6 A6 B6 E6),
    (digitVal_inj a7 b7 A7 B7 E7), (digitVal_inj a8 b8 A8 B8 E8).
  reflexivity.
Qed.

Lemma laterDay_trichotomy x y : laterDay x y \/ x = y \/ laterDay y x.
Proof.
  destruct x as [[ya ma] da], y as [[yb mb] db]. unfold laterDay.
  destruct (Z.lt_trichotomy ya yb) as [?|[->|?]]; [right; right; lia| |lia].
  destruct (Z.lt_trichotomy ma mb) as [?|[->|?]]; [right; right; lia| |lia].
  destruct (Z.lt_trichotomy da db) as [?|[->|?]];
    [right; right; lia | right; left; reflexivity | lia].
Qed.

Lemma laterDay_asym x y : laterDay x y -> ~ laterDay y x.
Proof.
  destruct x as [[ya ma] da], y as [[yb mb] db]. unfold laterDay. lia.
Qed.

Lemma laterDay_irrefl x : ~ laterDay x x.
Proof. destruct x as [[ya ma] da]. unfold laterDay. lia. Qed.

(** X16: on two strings that pass the route's date test, the string
    comparison [a > b] the route uses is the calendar's: it holds exactly
    when [a] is the later day, two such strings that read as the same day
    are the same string, and of [a > b], [a = b] and [b > a] exactly one
    holds. *)
Theorem date_strings_order_as_days (a b : string) :
  isIsoDate a = true -> isIsoDate b = true ->
  (gtStr a b = true <-> laterDay (calendarOf a) (calendarOf b))
  /\ (calendarOf a = calendarOf b -> a = b)
  /\ (gtStr a b = true \/ a = b \/ gtStr b a = true)
  /\ (gtStr a b = true -> a <> b /\ gtStr b a = false)
  /\ (a = b -> gtStr a b = false).
Proof.
  intros Ha Hb.
  pose proof (iso_order a b Ha Hb) as Hab.
  pose proof (iso_order b a Hb Ha) as Hba.
  pose proof (calendarOf_inj a b Ha Hb) as Hinj.
  split; [exact Hab|]. split; [exact Hinj|]. split; [|split].
  - destruct (laterDay_trichotomy (calendarOf a) (calendarOf b))
      as [H|[H|H]]; [left | right; left | right; right]; tauto.
  - intros H. apply Hab in H. split.
    + intros ->. exact (laterDay_irrefl _ H).
    + destruct (gtStr b a) eqn:E; [|reflexivity].
      exfalso. apply (laterDay_asym _ _ H). now apply Hba.
  - intros ->. destruct (gtStr b b) eqn:E; [|reflexivity].
    exfalso. apply (laterDay_irrefl (calendarOf b)). now apply Hab.
Qed.

Lemma date_strings_order_as_days_witness :
  gtStr "2024-03-01" "2024-02-29" = true
  /\ laterDay (calendarOf "2024-03-01") (calendarOf "2024-02-29").
Proof.
  split; [reflexivity|].
  apply (date_strings_order_as_days "2024-03-01" "2024-02-29");
    reflexivity.
Defined.

(* ------------------------------------------------------------------------- *)
(** * Sessions, one await at a time *)

Import Session.

(** Called in the render it belongs to, [getSubmitResult] is the function of
    the hook. *)
Lemma getSubmitResultFrom_same_render puzzle s :
  getSubmitResultFrom puzzle s s = getSubmitResult puzzle s.
Proof.
  unfold getSubmitResultFrom, getSubmitResult.
  destruct puzzle as [cats|]; [|reflexivity].
  change (sameGuessFrom s s) with (sameGuess s).
  destruct (sameGuess s); reflexivity.
Qed.

(** The array access of [getSubmitResult] never fails, whatever render the
    closure belongs to. *)
Lemma getSubmitResultFrom_returns puzzle cl s :
  exists r g', getSubmitResultFrom puzzle cl s = Some (r, g').
Proof.
  unfold getSubmitResultFrom. destruct puzzle as [cats|]; [|eauto].
  destruct (sameGuessFrom cl s); [eauto|].
  destruct (Math_max (likenessCounts cats cl)) as [|z] eqn:Hm.
  - simpl number_eqb. cbv iota.
    destruct (getIncorrectResultFrom _ cl _) as [r g']. eauto.
  - destruct (number_eqb (Num z) (Num 4%Z)) eqn:E.
    + pose proof (Math_max_in _ _ Hm) as Hin.
      destruct (indexOfFrom_found _ _ 0%Z Hin) as (k & Hk & Hn & _).
      unfold indexOf. rewrite Hk. simpl Z.add. rewrite at_of_nat.
      rewrite likenessCounts_eq, nth_error_map in Hn.
      destruct (nth_error cats k) as [c|]; [|discriminate].
      destruct (getCorrectResultFrom c cl _) as [r g']. eauto.
    + destruct (getIncorrectResultFrom _ cl _) as [r g']. eauto.
Qed.

(** What [getSubmitResult] does to the flags and to the mistake counter, by
    its answer. *)
Lemma getSubmitResultFrom_counters puzzle cl s r g' :
  getSubmitResultFrom puzzle cl s = Some (r, g') ->
  isWon g' = isWon s /\ isLost g' = isLost s
  /\ match result r with
     | loss =>
         puzzle <> None /\ mistakesRemaining cl = 1%Z
         /\ mistakesRemaining g' = 0%Z
     | one_away | incorrect =>
         mistakesRemaining g' = mistakesRemaining s
         \/ (mistakesRemaining cl <> 1%Z
             /\ mistakesRemaining g' = (mistakesRemaining cl - 1)%Z)
     | same | correct | win => mistakesRemaining g' = mistakesRemaining s
     end.
Proof.
  unfold getSubmitResultFrom. destruct puzzle as [cats|].
  - destruct (sameGuessFrom cl s).
    + intros H. apply Some_inj in H. inversion H. subst. simpl. auto.
    + destruct (number_eqb _ _).
      * destruct (at_ cats _) as [c|]; [|discriminate].
        unfold getCorrectResultFrom. intros H. apply Some_inj in H.
        destruct (Nat.eqb _ 3); inversion H; subst; simpl; auto.
      * unfold getIncorrectResultFrom. intros H. apply Some_inj in H.
        destruct (Z.eqb_spec (mistakesRemaining cl) 1) as [E|E].
        -- inversion H. subst. simpl. rewrite E.
           repeat split; trivial. discriminate.
        -- destruct (number_eqb _ _); inversion H; subst; simpl; auto.
  - intros H. apply Some_inj in H. inversion H. subst. simpl. auto.
Qed.

(** ** What every session keeps *)

Lemma steady_same s s' :
  steady s -> task s' = task s ->
  submitted (page s') = submitted (page s) ->
  isWon (game (page s')) = isWon (game (page s)) ->
  isLost (game (page s')) = isLost (game (page s)) ->
  mistakesRemaining (game (page s')) = mistakesRemaining (game (page s)) ->
  steady s'.
Proof.
  intros [H1 H2 H3 H4 H5] Et Es Ew El Em.
  constructor; rewrite ?Et, ?Es, ?Ew, ?El, ?Em; trivial.
Qed.

Lemma steady_idle s : steady s -> submitted (page s) = false -> task s = None.
Proof.
  intros Hs Hsub. destruct (task s) as [t|] eqn:E; [|reflexivity].
  destruct (st_pending Hs) as (H & _); [rewrite E; discriminate|].
  congruence.
Qed.

Lemma submitUnclickable_submitted p :
  submitUnclickable p = false -> submitted p = false.
Proof.
  unfold submitUnclickable. intros H. apply orb_false_iff in H.
  destruct H as (H & _). apply orb_false_iff in H. tauto.
Qed.

Lemma steady_submitClicked s : steady s -> steady (submitClicked s).
Proof.
  intros Hs. unfold submitClicked.
  destruct (inProgressButtons (page s) && negb (submitUnclickable (page s)))
    eqn:Hc; trivial.
  destruct (controlsDisabled (page s)); trivial.
  apply andb_true_iff in Hc. destruct Hc as (Hprog & Hclick).
  apply negb_true_iff in Hclick.
  destruct (inProgressButtons_flags _ Hprog) as (Hw & Hl).
  pose proof (steady_idle s Hs (submitUnclickable_submitted _ Hclick)) as Hidle.
  constructor; cbn [page task setSubmitted game submitted].
  - apply Hs.
  - intros; assumption.
  - auto.
  - intros puzzle cl E. inversion E. subst. split; [|apply Hs].
    apply (st_open Hs); trivial. intros rem. rewrite Hidle. discriminate.
  - intros _ _. apply (st_open Hs); trivial. intros rem. rewrite Hidle.
    discriminate.
Qed.

Lemma steady_animationDone s s' :
  steady s -> animationDone s = Some s' -> steady s'.
Proof.
  intros Hs. unfold animationDone.
  destruct (task s) as [[puzzle cl | rem | ]|] eqn:Et;
    try (intros H; apply Some_inj in H; now subst).
  destruct (st_pending Hs) as (Hsub & Hw & Hl); [rewrite Et; discriminate|].
  pose proof (st_closure Hs Et) as Hcl.
  assert (Hopen : (1 <= mistakesRemaining (game (page s)))%Z).
  { apply (st_open Hs); trivial. intros rem. rewrite Et. discriminate. }
  pose proof (st_range Hs) as Hrange.
  destruct (getSubmitResultFrom puzzle cl (game (page s))) as [[r g']|] eqn:Er;
    [|discriminate].
  destruct (getSubmitResultFrom_counters _ _ _ _ _ Er) as (Ew & El & Hm).
  rewrite Hw in Ew. rewrite Hl in El.
  destruct (result r);
    try (intros H; apply Some_inj in H; subst s';
         constructor; cbn [page task setSubmitted setGame game submitted];
         try congruence; try discriminate; auto; intros; lia).
  (* loss: [handleLoss] runs up to its first delay *)
  destruct Hm as (Hp & Hone & Hzero).
  destruct puzzle as [cats|]; [|congruence].
  unfold handleLossStart.
  destruct (deselectAll (heapNext g') (gameWords cl)) as [ws next].
  intros H. apply Some_inj in H. subst s'.
  constructor; cbn [page task setSubmitted setGame game submitted];
    fields; try congruence; try discriminate; try lia.
  - auto.
  - intros _ Hrev. exfalso. now eapply Hrev.
Qed.

Lemma steady_delayDone s : steady s -> steady (delayDone s).
Proof.
  intros Hs. unfold delayDone.
  destruct (task s) as [[puzzle cl | [|c rem] | ]|] eqn:Et; trivial.
  - destruct (st_pending Hs) as (Hsub & Hw & Hl); [rewrite Et; discriminate|].
    pose proof (st_range Hs).
    constructor; cbn [page task setSubmitted setGame game submitted]; fields;
      try congruence; try discriminate; trivial.
  - destruct (st_pending Hs) as (Hsub & Hw & Hl); [rewrite Et; discriminate|].
    pose proof (st_range Hs).
    constructor; cbn [page task setSubmitted setGame game submitted]; fields;
      try congruence; try discriminate; trivial; auto.
  - destruct (st_pending Hs) as (Hsub & Hw & Hl); [rewrite Et; discriminate|].
    pose proof (st_range Hs).
    assert (Hopen : (1 <= mistakesRemaining (game (page s)))%Z).
    { apply (st_open Hs); trivial. intros rem. rewrite Et. discriminate. }
    constructor; cbn [page task setSubmitted setGame game submitted]; fields;
      try congruence; try discriminate; trivial.
Qed.

Lemma steady_loadOk sh cats dates s : steady s -> steady (loadOk sh cats dates s).
Proof.
  intros Hs. destruct cats as [|c cats].
  - apply (steady_same s); trivial.
  - unfold loadOk, loadPuzzleOk.
    rewrite (puzzleEffect_unfold sh (c :: cats) (game (page s)));
      [|discriminate].
    constructor; cbn [page task game submitted]; fields;
      try discriminate; try lia; trivial.
    + intros Ht. destruct (st_pending Hs Ht) as (Hsub & _). auto.
    + apply Hs.
Qed.

Lemma live_steady s : live s -> steady s.
Proof.
  induction 1 as [ | s msg Hl IH Hload | s sh cats dates Hl IH Hload Hsh
                   | s Hl IH | s w Hl IH | s sh Hl IH Hsh | s Hl IH
                   | s Hl IH | s s' Hl IH Hdone | s Hl IH ].
  - constructor; cbn; try discriminate; try lia; trivial.
    intros H. now contradiction H.
  - now apply (steady_same s).
  - now apply steady_loadOk.
  - unfold dateChosen. destruct (selectDisabled s); trivial.
    now apply (steady_same s).
  - unfold clickCell, onClickCell. destruct (controlsDisabled (page s)).
    + now apply (steady_same s).
    + destruct (selectWord_frame w (game (page s))) as (_ & Ew & El & Em & _).
      now apply (steady_same s).
  - unfold shuffleClicked, clickShuffle.
    destruct (_ && _); now apply (steady_same s).
  - unfold deselectClicked, clickDeselectAll.
    destruct (_ && _); [|now apply (steady_same s)].
    apply (steady_same s); trivial; cbn [page withPage setGame game];
      rewrite deselectAllWords_unfold; reflexivity.
  - now apply steady_submitClicked.
  - now apply (steady_animationDone s).
  - now apply steady_delayDone.
Qed.

(** X6: what every session keeps, on every page it renders: also while a
    call of [handleSubmit] is suspended, and when a click or another
    puzzle comes in meanwhile.  Mistakes remaining stay between 0 and 4;
    [isWon] and [isLost] are never both set; as long as a call of
    [handleSubmit] is suspended, [submitted] is set and neither flag is;
    whenever Submit can be clicked no call is suspended and at least one
    mistake is left; and resuming after the animation never fails (the
    category [getSubmitResult] looks up is there). *)
Theorem session_bookkeeping (s : Session) :
  live s ->
  (0 <= mistakesRemaining (game (page s)) <= 4)%Z
  /\ (isWon (game (page s)) = true -> isLost (game (page s)) = false)
  /\ (task s <> None ->
      submitted (page s) = true
      /\ isWon (game (page s)) = false /\ isLost (game (page s)) = false)
  /\ (inProgressButtons (page s) = true ->
      submitUnclickable (page s) = false ->
      task s = None /\ (1 <= mistakesRemaining (game (page s)))%Z)
  /\ exists s', animationDone s = Some s'.
Proof.
  intros Hl. pose proof (live_steady s Hl) as Hs.
  split; [apply Hs|]. split; [apply Hs|]. split; [apply Hs|]. split.
  - intros Hprog Hclick.
    pose proof (steady_idle s Hs (submitUnclickable_submitted _ Hclick)) as Et.
    split; trivial. apply (st_open Hs).
    + now apply inProgressButtons_flags.
    + intros rem. rewrite Et. discriminate.
  - unfold animationDone.
    destruct (task s) as [[puzzle cl | rem | ]|]; eauto.
    destruct (getSubmitResultFrom_returns puzzle cl (game (page s)))
      as (r & g' & E).
    rewrite E. destruct (result r); eauto.
    destruct puzzle as [cats|]; eauto.
    destruct (handleLossStart cats cl g'). eauto.
Qed.

Lemma flag_set_no_buttons p :
  isWon (game p) = true \/ isLost (game p) = true ->
  inProgressButtons p = false.
Proof.
  unfold inProgressButtons. intros [-> | ->]; simpl; [reflexivity|].
  apply andb_false_r.
Qed.

(** X7: once [isWon] or [isLost] is set in a session, the round stays as it
    is until another puzzle arrives.  No call of [handleSubmit] is
    suspended, so no delay or animation is outstanding; Shuffle, Deselect
    All and Submit are not there to be clicked; a click on a cell changes at
    most the board; choosing a date and a failed load leave the hook's
    state alone. *)
Theorem outcome_is_final (s : Session) (w : Word)
        (sh : list (object Word) -> list (object Word)) (msg : string) :
  live s ->
  isWon (game (page s)) = true \/ isLost (game (page s)) = true ->
  task s = None
  /\ animationDone s = Some s /\ delayDone s = s
  /\ shuffleClicked sh s = s /\ deselectClicked s = s /\ submitClicked s = s
  /\ sameRound (game (page s)) (game (page (clickCell w s)))
  /\ game (page (dateChosen s)) = game (page s)
  /\ game (page (loadFailed msg s)) = game (page s).
Proof.
  intros Hl Hover. pose proof (live_steady s Hl) as Hs.
  assert (Et : task s = None).
  { destruct (task s) as [t|] eqn:E; [|reflexivity].
    destruct (st_pending Hs) as (_ & Hw & Hlost); [rewrite E; discriminate|].
    destruct Hover; congruence. }
  pose proof (flag_set_no_buttons (page s) Hover) as Hb.
  split; [exact Et|].
  unfold animationDone, delayDone, shuffleClicked, deselectClicked,
    submitClicked, clickShuffle, clickDeselectAll.
  rewrite Et, Hb. cbn [andb].
  assert (Hsame : withPage (page s) s = s) by now destruct s.
  rewrite Hsame. repeat (split; [reflexivity|]).
  split; [|split].
  - unfold clickCell, onClickCell, sameRound.
    destruct (controlsDisabled (page s)); cbn [page withPage setGame game];
      [tauto|].
    destruct (selectWord_frame w (game (page s))) as (Ec & Ew & El & Em & Eh).
    tauto.
  - unfold dateChosen. now destruct (selectDisabled s).
  - reflexivity.
Qed.

(** ** The uninterrupted run *)

Lemma settle_idle n p dates : settle n (mkSession p dates None) = mkSession p dates None.
Proof. now destruct n. Qed.

Lemma settle_reveal dates rem :
  forall g p n,
    length rem < n ->
    settle n (mkSession (setGame g p) dates (Some (Revealing rem)))
    = mkSession
        (setSubmitted false
           (setGame (setIsLost true (last (revealAll rem g) g)) p))
        dates None.
Proof.
  induction rem as [|c rem IH]; intros g p n Hn.
  - destruct n as [|n]; [inversion Hn|].
    cbn [settle task]. unfold delayDone. cbn [task page availableDates].
    rewrite settle_idle. reflexivity.
  - destruct n as [|n]; [inversion Hn|].
    cbn [settle task]. unfold delayDone. cbn [task page availableDates].
    change (setGame (revealCategory c (game (setGame g p))) (setGame g p))
      with (setGame (revealCategory c g) p).
    rewrite IH by (simpl in Hn; lia).
    cbn [revealAll]. now rewrite last_cons.
Qed.

Lemma setSubmitted_restored g p :
  submitted p = false ->
  setSubmitted false (setGame g (setSubmitted true p)) = setGame g p.
Proof. intros E. unfold setSubmitted, setGame. simpl. now rewrite E. Qed.

(** X17: [handleSubmit] of the page, run in one go, is what the session
    does when nothing comes in between.  For every page, a click on Submit
    followed by the end of the animation and then of every pending delay,
    with no other event meanwhile, never fails and ends with no call
    suspended on the very page [clickSubmit] gives; as many delays as the
    puzzle has categories, and one more, are enough. *)
Theorem uninterrupted_submit (p : Page) (dates : list string) :
  exists s1 p',
    animationDone (submitClicked (mkSession p dates None)) = Some s1
    /\ clickSubmit p = Some p'
    /\ forall n,
        match puzzleCategories p with
        | Some cats => length cats
        | None => 0
        end < n ->
        settle n s1 = mkSession p' dates None.
Proof.
  unfold submitClicked, clickSubmit. cbn [page availableDates].
  destruct (inProgressButtons p && negb (submitUnclickable p)) eqn:Hc.
  2:{ exists (mkSession p dates None), p.
      split; [reflexivity|]. split; [reflexivity|].
      intros n _. apply settle_idle. }
  apply andb_true_iff in Hc. destruct Hc as (_ & Hclick).
  apply negb_true_iff, submitUnclickable_submitted in Hclick.
  unfold handleSubmit. destruct (controlsDisabled p).
  { exists (mkSession p dates None), p.
    split; [reflexivity|]. split; [reflexivity|].
    intros n _. apply settle_idle. }
  unfold animationDone. cbn [task page availableDates setSubmitted game].
  rewrite getSubmitResultFrom_same_render.
  destruct (getSubmitResult_returns (puzzleCategories p) (game p))
    as (r & g' & E).
  rewrite E.
  change (mkPage (puzzleCategories p) (loadingPuzzle p) (puzzleError p) true
                 (game p)) with (setSubmitted true p).
  destruct (result r) eqn:Er;
    try (eexists; eexists; split; [reflexivity|]; split; [reflexivity|];
         intros n _; rewrite settle_idle;
         now rewrite setSubmitted_restored).
  - (* loss *)
    destruct (puzzleCategories p) as [cats|] eqn:Ep.
    + unfold handleLossStart. rewrite handleLoss_unfold. cbv zeta.
      destruct (deselectAll (heapNext g') (gameWords (game p))) as [ws next].
      cbn [fst snd].
      eexists; eexists. split; [reflexivity|]. split; [reflexivity|].
      intros n Hn. rewrite settle_reveal.
      * rewrite last_cons, last_last.
        now rewrite setSubmitted_restored.
      * unfold remainingCategories.
        pose proof (filter_length_bound
                      (fun c => negb (includes (clearedCategories (game p)) c))
                      cats).
        lia.
    + simpl in E. apply Some_inj in E. inversion E. subst r.
      discriminate Er.
  - (* win *)
    eexists; eexists. split; [reflexivity|]. split; [reflexivity|].
    intros n Hn. destruct n as [|n]; [lia|].
    cbn [settle task delayDone page availableDates game setGame].
    rewrite settle_idle. unfold handleWin.
    change (setGame (setIsWon true g') (setGame g' (setSubmitted true p)))
      with (setGame (setIsWon true g') (setSubmitted true p)).
    now rewrite setSubmitted_restored.
Qed.

(** ** A click on a cell during and after the reveal *)

Lemma live_cells ws : forall s, live s -> live (Replay.cells ws s).
Proof.
  induction ws as [|w ws IH]; intros s Hl; [exact Hl|].
  simpl. apply IH. now apply live_clickCell.
Qed.

Lemma live_guess s : live s -> live (Replay.guess s).
Proof.
  intros Hl. unfold Replay.guess.
  destruct (animationDone (submitClicked s)) as [s'|] eqn:E; trivial.
  eapply live_animationDone; [|exact E]. now apply live_submitClicked.
Qed.

Lemma live_settle n : forall s, live s -> live (settle n s).
Proof.
  induction n as [|n IH]; intros s Hl; [exact Hl|].
  simpl. destruct (task s); trivial. apply IH. now apply live_delayDone.
Qed.

Lemma live_revealing : live Replay.revealing.
Proof.
  unfold Replay.revealing, Replay.lastChance, Replay.guessedThrice,
    Replay.guessedTwice, Replay.guessedOnce.
  repeat (first [apply live_guess | apply live_cells]).
  unfold Replay.started. apply live_loadOk.
  - exact live_start.
  - reflexivity.
  - intros l. apply Permutation_refl.
Qed.

Lemma live_lostAfterSwitch : live Replay.lostAfterSwitch.
Proof.
  unfold Replay.lostAfterSwitch. apply live_settle.
  unfold Replay.switched. apply live_loadOk.
  - apply live_dateChosen, live_revealing.
  - vm_compute. reflexivity.
  - intros l. apply Permutation_refl.
Qed.

Lemma other_puzzle_loaded : loadedPuzzle Replay.otherPuzzle.
Proof.
  split.
  - repeat constructor; simpl; intuition discriminate.
  - split; [reflexivity|]. split.
    + repeat constructor.
    + repeat constructor; simpl; intuition discriminate.
Qed.

(** C6 fails on the code.  Neither [selectWord] nor [onClickCell] looks at
    the outcome, and [submitted] keeps only the three buttons away while
    [handleSubmit] is suspended, not the cells.  In a session that loses the
    puzzle of [Examples] with four wrong guesses (before the last one it is
    on the page [Examples.lastChance]):
    - once "loss" is answered (no mistake left, nothing selected, the reveal
      of the four categories pending), a click on SAW selects SAW, while
      Shuffle, Deselect All and Submit do nothing;
    - if instead another date is chosen during the reveal and its puzzle
      arrives before the reveal is over, [setIsLost(true)] lands on the new
      board: [isLost] is set, nothing is pending, and a click on CAT selects
      CAT, with [isLost] still set. *)
Theorem toggle_after_loss :
  loadedPuzzle Examples.puzzle /\ loadedPuzzle Replay.otherPuzzle
  /\ page Replay.lastChance = Examples.lastChance
  /\ live Replay.revealing
  /\ mistakesRemaining (game (page Replay.revealing)) = 0%Z
  /\ task Replay.revealing = Some (Revealing Examples.puzzle)
  /\ controlsDisabled (page Replay.revealing) = false
  /\ selectedWords (game (page Replay.revealing)) = []
  /\ live Replay.clickedMeanwhile
  /\ map view (selectedWords (game (page Replay.clickedMeanwhile)))
     = [("SAW"%string, 4%Z, true)]
  /\ shuffleClicked Examples.keepOrder Replay.clickedMeanwhile
     = Replay.clickedMeanwhile
  /\ deselectClicked Replay.clickedMeanwhile = Replay.clickedMeanwhile
  /\ submitClicked Replay.clickedMeanwhile = Replay.clickedMeanwhile
  /\ selectDisabled Replay.revealing = false
  /\ live Replay.lostAfterSwitch
  /\ puzzleCategories (page Replay.lostAfterSwitch)
     = Some Replay.otherPuzzle
  /\ isLost (game (page Replay.lostAfterSwitch)) = true
  /\ task Replay.lostAfterSwitch = None
  /\ length (gameWords (game (page Replay.lostAfterSwitch))) = 16
  /\ selectedWords (game (page Replay.lostAfterSwitch)) = []
  /\ live Replay.clickedWhenLost
  /\ isLost (game (page Replay.clickedWhenLost)) = true
  /\ map view (selectedWords (game (page Replay.clickedWhenLost)))
     = [("CAT"%string, 1%Z, true)].
Proof.
  split; [exact example_puzzle_loaded|].
  split; [exact other_puzzle_loaded|].
  split; [vm_compute; reflexivity|].
  split; [exact live_revealing|].
  do 4 (split; [vm_compute; reflexivity|]).
  split; [apply live_clickCell, live_revealing|].
  do 5 (split; [vm_compute; reflexivity|]).
  split; [exact live_lostAfterSwitch|].
  do 5 (split; [vm_compute; reflexivity|]).
  split; [apply live_clickCell, live_lostAfterSwitch|].
  split; vm_compute; reflexivity.
Qed.

Lemma session_bookkeeping_witness :
  (0 <= mistakesRemaining (game (page Replay.revealing)) <= 4)%Z
  /\ submitted (page Replay.revealing) = true
  /\ isLost (game (page Replay.revealing)) = false.
Proof.
  destruct (session_bookkeeping Replay.revealing live_revealing)
    as (Hrange & _ & Hpending & _).
  split; [exact Hrange|]. destruct Hpending as (Hsub & _ & Hlost).
  - vm_compute. discriminate.
  - split; assumption.
Defined.

Lemma outcome_is_final_witness :
  task Replay.lostAfterSwitch = None
  /\ delayDone Replay.lostAfterSwitch = Replay.lostAfterSwitch
  /\ submitClicked Replay.lostAfterSwitch = Replay.lostAfterSwitch.
Proof.
  destruct (outcome_is_final Replay.lostAfterSwitch (Examples.tile "CAT")
                             Examples.keepOrder "Server error"
                             live_lostAfterSwitch)
    as (Ht & _ & Hd & _ & _ & Hs & _).
  - right. vm_compute. reflexivity.
  - split; [exact Ht|]. split; [exact Hd | exact Hs].
Defined.
